(** * DHCPv6 client of OpenThread (src/core/net/dhcp6_client.cpp)

    A shallow embedding of [ot::Dhcp6::Client]: the pool of identity
    associations, the reconciliation against the network data
    ([UpdateAddresses]), the trickle-timer handler, the Solicit builder and
    the Reply parser, followed by the properties of the specification.

    Integers are [Z] with the wrap-around of the C++ types written out,
    message bytes are [list Z], the pool is a list indexed with stdpp's
    lookup and insert, and [mIdentityAssociationCurrent] is an index into
    the pool. *)

From Stdlib Require Import ZArith List Bool Lia.
From stdpp Require Import base numbers list.
Import ListNotations.
Local Open Scope Z_scope.

(** ** Fixed-width arithmetic *)

Definition u8 (x : Z) : Z := x mod 2 ^ 8.
Definition u16 (x : Z) : Z := x mod 2 ^ 16.
Definition u24 (x : Z) : Z := x mod 2 ^ 24.
Definition u32 (x : Z) : Z := x mod 2 ^ 32.

(** Big-endian fields, as the accessors of [dhcp6.hpp] read and write them
    ([HostSwap16], [HostSwap32]). *)
Definition be_dec (bs : list Z) : Z :=
  fold_left (fun acc b => acc * 256 + b) bs 0.

Fixpoint be_enc (n : nat) (x : Z) : list Z :=
  match n with
  | O => []
  | S n' => (x / 256 ^ Z.of_nat n') mod 256 :: be_enc n' x
  end.

(** [n] bytes of [bs] starting at byte [i]. *)
Definition sub (bs : list Z) (i n : nat) : list Z := firstn n (skipn i bs).

(** ** Messages *)

(** Modelled from the spec: [ot::Message] (common/message.hpp) is not part
    of the sources.  A message is its bytes and the read offset
    ([GetOffset]/[MoveOffset]); [Read] copies the bytes that exist at the
    offset and returns how many ("a parse failure if fewer than the minimum
    header bytes are available at offset"); [Append] fails with
    [OT_ERROR_NO_BUFS] when the message would outgrow the room the buffer
    pool has for it. *)
Record Message := mkMessage {
  mData : list Z;
  mOffset : Z
}.

Definition GetLength (m : Message) : Z := Z.of_nat (length (mData m)).
Definition GetOffset (m : Message) : Z := mOffset m.

Definition MoveOffset (m : Message) (d : Z) : Message :=
  {| mData := mData m; mOffset := mOffset m + d |}.

(** The bytes copied by [Read(aOffset, aLength, buf)]; the returned count is
    their number. *)
Definition Message_Read (m : Message) (aOffset aLength : Z) : list Z :=
  sub (mData m) (Z.to_nat aOffset) (Z.to_nat aLength).

Definition bytesRead (bs : list Z) : Z := Z.of_nat (length bs).

Inductive otError :=
| OT_ERROR_NONE
| OT_ERROR_DROP
| OT_ERROR_NO_BUFS
| OT_ERROR_PARSE
| OT_ERROR_FAILED.

Definition Message_Append (room : Z) (m : Message) (bs : list Z) : otError * Message :=
  if GetLength m + Z.of_nat (length bs) <=? room
  then (OT_ERROR_NONE, {| mData := mData m ++ bs; mOffset := mOffset m |})
  else (OT_ERROR_NO_BUFS, m).

(** ** Option layouts *)

(** Modelled from the spec: the option classes of net/dhcp6.hpp are not part
    of the sources.  The wire format is "Header = 1-byte type, 3-byte
    transaction id; Option = 2-byte code, 2-byte length (payload bytes
    only), payload", with the codes and layouts of RFC 8415 that the header
    declares. *)
Module Dhcp6.

Definition kTypeSolicit : Z := 1.
Definition kTypeReply : Z := 7.

Definition kOptionClientIdentifier : Z := 1.
Definition kOptionServerIdentifier : Z := 2.
Definition kOptionIaNa : Z := 3.
Definition kOptionIaAddress : Z := 5.
Definition kOptionElapsedTime : Z := 8.
Definition kOptionStatusCode : Z := 13.
Definition kOptionRapidCommit : Z := 14.

Definition kDuidLinkLayerAddressPlusTime : Z := 1.
Definition kDuidEnterpriseNumber : Z := 2.
Definition kDuidLinkLayerAddress : Z := 3.

Definition kHardwareTypeEthernet : Z := 1.
Definition kHardwareTypeEui64 : Z := 27.

Definition kStatusSuccess : Z := 0.

Definition sizeof_Header : Z := 4.
Definition sizeof_Option : Z := 4.
Definition sizeof_ElapsedTime : Z := 6.
Definition sizeof_ClientIdentifier : Z := 16.
Definition sizeof_ServerIdentifier : Z := 16.
Definition sizeof_IaNa : Z := 16.
Definition sizeof_IaAddress : Z := 28.
Definition sizeof_StatusCode : Z := 6.
Definition sizeof_RapidCommit : Z := 4.

(** Header *)
Definition Header_GetType (h : list Z) : Z := be_dec (sub h 0 1).
Definition Header_GetTransactionId (h : list Z) : Z := be_dec (sub h 1 3).

(** Option *)
Definition Option_GetCode (o : list Z) : Z := be_dec (sub o 0 2).
Definition Option_GetLength (o : list Z) : Z := be_dec (sub o 2 2).

(** ClientIdentifier and ServerIdentifier *)
Definition GetDuidType (o : list Z) : Z := be_dec (sub o 4 2).
Definition GetDuidHardwareType (o : list Z) : Z := be_dec (sub o 6 2).
Definition GetDuidLinkLayerAddress (o : list Z) : Z := be_dec (sub o 8 8).

(** IaAddress *)
Definition IaAddress_GetAddress (o : list Z) : Z := be_dec (sub o 4 16).
Definition IaAddress_GetPreferredLifetime (o : list Z) : Z := be_dec (sub o 20 4).
Definition IaAddress_GetValidLifetime (o : list Z) : Z := be_dec (sub o 24 4).

(** StatusCode *)
Definition StatusCode_GetStatusCode (o : list Z) : Z := be_dec (sub o 4 2).

(** The encoders behind [Init] and the setters. *)
Definition Option_bytes (code : Z) (payload : list Z) : list Z :=
  be_enc 2 code ++ be_enc 2 (Z.of_nat (length payload)) ++ payload.

Definition Header_bytes (type : Z) (txid : Z) : list Z :=
  be_enc 1 type ++ be_enc 3 txid.

Definition ElapsedTime_bytes (t : Z) : list Z :=
  be_enc 2 kOptionElapsedTime ++ be_enc 2 (sizeof_ElapsedTime - sizeof_Option)
  ++ be_enc 2 t.

Definition Duid_bytes (code duidType hwType : Z) (lladdr : Z) : list Z :=
  be_enc 2 code ++ be_enc 2 (sizeof_ClientIdentifier - sizeof_Option)
  ++ be_enc 2 duidType ++ be_enc 2 hwType ++ be_enc 8 lladdr.

Definition IaNa_bytes (len iaid t1 t2 : Z) : list Z :=
  be_enc 2 kOptionIaNa ++ be_enc 2 len
  ++ be_enc 4 iaid ++ be_enc 4 t1 ++ be_enc 4 t2.

Definition IaAddress_bytes (addr preferred valid : Z) : list Z :=
  be_enc 2 kOptionIaAddress ++ be_enc 2 (sizeof_IaAddress - sizeof_Option)
  ++ be_enc 16 addr ++ be_enc 4 preferred ++ be_enc 4 valid.

Definition RapidCommit_bytes : list Z :=
  be_enc 2 kOptionRapidCommit ++ be_enc 2 (sizeof_RapidCommit - sizeof_Option).

End Dhcp6.
Import Dhcp6.

(** ** FindOption *)

(** The [while (aOffset <= end)] loop of [Client::FindOption].  The offset is
    a [uint16_t], so the advance wraps; [fuel] bounds the number of times the
    loop condition is evaluated and [None] means the bound was reached. *)
Fixpoint FindOption_loop (fuel : nat) (aMessage : Message) (aOffset end_ aCode : Z)
  : option Z :=
  match fuel with
  | O => None
  | S fuel' =>
      if aOffset <=? end_ then
        let option := Message_Read aMessage aOffset sizeof_Option in
        if bytesRead option =? sizeof_Option then
          if Option_GetCode option =? aCode then Some aOffset
          else FindOption_loop fuel' aMessage
                 (u16 (aOffset + (sizeof_Option + Option_GetLength option))) end_ aCode
        else Some 0
      else Some 0
  end.

Definition FindOption (fuel : nat) (aMessage : Message) (aOffset aLength aCode : Z)
  : option Z :=
  FindOption_loop fuel aMessage aOffset (u16 (aOffset + aLength)) aCode.

(** ** Data model *)

Inductive IaStatus :=
| kIaStatusInvalid
| kIaStatusSolicit
| kIaStatusSoliciting
| kIaStatusSolicitReplied.

Definition IaStatus_eqb (a b : IaStatus) : bool :=
  match a, b with
  | kIaStatusInvalid, kIaStatusInvalid
  | kIaStatusSolicit, kIaStatusSolicit
  | kIaStatusSoliciting, kIaStatusSoliciting
  | kIaStatusSolicitReplied, kIaStatusSolicitReplied => true
  | _, _ => false
  end.

Definition OT_ADDRESS_ORIGIN_THREAD : Z := 0.
Definition OT_ADDRESS_ORIGIN_DHCPV6 : Z := 2.

(** An IPv6 address is the 128-bit number of its sixteen bytes in network
    order; a transaction id and an EUI-64 are the 24-bit and 64-bit numbers of
    their bytes. *)
Record NetifUnicastAddress := mkNetifUnicastAddress {
  mAddress : Z;
  mPrefixLength : Z;
  mAddressOrigin : Z;
  mPreferred : bool;
  mValid : bool
}.

Record IdentityAssociation := mkIdentityAssociation {
  mNetifAddress : NetifUnicastAddress;
  mPreferredLifetime : Z;
  mValidLifetime : Z;
  mPrefixAgentRloc : Z;
  mStatus : IaStatus
}.

Record otIp6Prefix := mkIp6Prefix {
  mPrefix : Z;
  mLength : Z
}.

Module NetworkData.
(** One entry yielded by [Leader::GetNextOnMeshPrefix]. *)
Record OnMeshPrefixConfig := mkConfig {
  mPrefix : otIp6Prefix;
  mDhcp : bool;
  mRloc16 : Z
}.
End NetworkData.

(** Calls made on [Get<ThreadNetif>()]. *)
Inductive NetifCall :=
| AddUnicastAddress (a : NetifUnicastAddress)
| RemoveUnicastAddress (a : NetifUnicastAddress).

(** Modelled from the spec: [Ip6::Udp::Socket] and [TrickleTimer] are declared
    outside this translation unit; the client only opens and closes the one
    and starts and stops the other, so each is a flag.  [netifCalls] and
    [sentMessages] record, in order, the calls made on the interface and the
    datagrams handed to [mSocket.SendTo]. *)
Record Client := mkClient {
  mSocketBound : bool;
  mTrickleTimerRunning : bool;
  mStartTime : Z;
  mTransactionId : Z;
  mIdentityAssociations : list IdentityAssociation;
  mIdentityAssociationCurrent : option nat;
  netifCalls : list NetifCall;
  sentMessages : list (Z * list Z)
}.

(** [memset(mIdentityAssociations, 0, ...)]: every field of every slot is
    zero, and zero is [kIaStatusInvalid]. *)
Definition zeroAssociation : IdentityAssociation :=
  {| mNetifAddress := {| mAddress := 0; mPrefixLength := 0;
                         mAddressOrigin := OT_ADDRESS_ORIGIN_THREAD;
                         mPreferred := false; mValid := false |};
     mPreferredLifetime := 0; mValidLifetime := 0; mPrefixAgentRloc := 0;
     mStatus := kIaStatusInvalid |}.

(** [Client::Client] for a pool of [n] slots
    ([OPENTHREAD_CONFIG_DHCP6_CLIENT_NUM_PREFIXES], a build-time constant). *)
Definition Client_init (n : nat) (txid : Z) : Client :=
  {| mSocketBound := false; mTrickleTimerRunning := false; mStartTime := 0;
     mTransactionId := txid;
     mIdentityAssociations := replicate n zeroAssociation;
     mIdentityAssociationCurrent := None;
     netifCalls := []; sentMessages := [] |}.

(** Field updates. *)
Definition setStatus (s : IaStatus) (ia : IdentityAssociation) : IdentityAssociation :=
  {| mNetifAddress := mNetifAddress ia; mPreferredLifetime := mPreferredLifetime ia;
     mValidLifetime := mValidLifetime ia; mPrefixAgentRloc := mPrefixAgentRloc ia;
     mStatus := s |}.

Definition setPrefixAgentRloc (r : Z) (ia : IdentityAssociation) : IdentityAssociation :=
  {| mNetifAddress := mNetifAddress ia; mPreferredLifetime := mPreferredLifetime ia;
     mValidLifetime := mValidLifetime ia; mPrefixAgentRloc := r;
     mStatus := mStatus ia |}.

Definition withAssociations (ias : list IdentityAssociation) (c : Client) : Client :=
  {| mSocketBound := mSocketBound c; mTrickleTimerRunning := mTrickleTimerRunning c;
     mStartTime := mStartTime c; mTransactionId := mTransactionId c;
     mIdentityAssociations := ias;
     mIdentityAssociationCurrent := mIdentityAssociationCurrent c;
     netifCalls := netifCalls c; sentMessages := sentMessages c |}.

Definition withNetifCalls (calls : list NetifCall) (c : Client) : Client :=
  {| mSocketBound := mSocketBound c; mTrickleTimerRunning := mTrickleTimerRunning c;
     mStartTime := mStartTime c; mTransactionId := mTransactionId c;
     mIdentityAssociations := mIdentityAssociations c;
     mIdentityAssociationCurrent := mIdentityAssociationCurrent c;
     netifCalls := netifCalls c ++ calls; sentMessages := sentMessages c |}.

Definition withSocketBound (b : bool) (c : Client) : Client :=
  {| mSocketBound := b; mTrickleTimerRunning := mTrickleTimerRunning c;
     mStartTime := mStartTime c; mTransactionId := mTransactionId c;
     mIdentityAssociations := mIdentityAssociations c;
     mIdentityAssociationCurrent := mIdentityAssociationCurrent c;
     netifCalls := netifCalls c; sentMessages := sentMessages c |}.

Definition withTrickleTimer (b : bool) (c : Client) : Client :=
  {| mSocketBound := mSocketBound c; mTrickleTimerRunning := b;
     mStartTime := mStartTime c; mTransactionId := mTransactionId c;
     mIdentityAssociations := mIdentityAssociations c;
     mIdentityAssociationCurrent := mIdentityAssociationCurrent c;
     netifCalls := netifCalls c; sentMessages := sentMessages c |}.

Definition withStartTime (t : Z) (c : Client) : Client :=
  {| mSocketBound := mSocketBound c; mTrickleTimerRunning := mTrickleTimerRunning c;
     mStartTime := t; mTransactionId := mTransactionId c;
     mIdentityAssociations := mIdentityAssociations c;
     mIdentityAssociationCurrent := mIdentityAssociationCurrent c;
     netifCalls := netifCalls c; sentMessages := sentMessages c |}.

Definition withTransactionId (t : Z) (c : Client) : Client :=
  {| mSocketBound := mSocketBound c; mTrickleTimerRunning := mTrickleTimerRunning c;
     mStartTime := mStartTime c; mTransactionId := t;
     mIdentityAssociations := mIdentityAssociations c;
     mIdentityAssociationCurrent := mIdentityAssociationCurrent c;
     netifCalls := netifCalls c; sentMessages := sentMessages c |}.

Definition withCurrent (cur : option nat) (c : Client) : Client :=
  {| mSocketBound := mSocketBound c; mTrickleTimerRunning := mTrickleTimerRunning c;
     mStartTime := mStartTime c; mTransactionId := mTransactionId c;
     mIdentityAssociations := mIdentityAssociations c;
     mIdentityAssociationCurrent := cur;
     netifCalls := netifCalls c; sentMessages := sentMessages c |}.

Definition withSent (d : Z * list Z) (c : Client) : Client :=
  {| mSocketBound := mSocketBound c; mTrickleTimerRunning := mTrickleTimerRunning c;
     mStartTime := mStartTime c; mTransactionId := mTransactionId c;
     mIdentityAssociations := mIdentityAssociations c;
     mIdentityAssociationCurrent := mIdentityAssociationCurrent c;
     netifCalls := netifCalls c; sentMessages := sentMessages c ++ [d] |}.

(** ** Prefix matching *)

(** Modelled from the spec: [Ip6::Address::PrefixMatch] (net/ip6_address.cpp)
    is not part of the sources.  It returns the number of leading bits on
    which the sixteen bytes of two addresses agree: "matchPrefix(addr,
    prefix, len) is true iff the two addresses agree on the first len
    bits". *)
Definition bit_length (x : Z) : Z := if x =? 0 then 0 else Z.log2 x + 1.

Definition u128 (x : Z) : Z := x mod 2 ^ 128.

Definition PrefixMatch (a b : Z) : Z := 128 - bit_length (Z.lxor (u128 a) (u128 b)).

Definition MatchNetifAddressWithPrefix (aNetifAddress : NetifUnicastAddress)
    (aIp6Prefix : otIp6Prefix) : bool :=
  (mLength aIp6Prefix =? mPrefixLength aNetifAddress)
  && (PrefixMatch (mAddress aNetifAddress) (mPrefix aIp6Prefix) >=? mLength aIp6Prefix).

(** ** Reconciliation: UpdateAddresses *)

(** The inner [while] of the first loop: is there a DHCP prefix in the
    network data that the association's address matches? *)
Fixpoint prefixInNetworkData (idAssociation : IdentityAssociation)
    (configs : list NetworkData.OnMeshPrefixConfig) : bool :=
  match configs with
  | [] => false
  | config :: rest =>
      if negb (NetworkData.mDhcp config) then prefixInNetworkData idAssociation rest
      else if MatchNetifAddressWithPrefix (mNetifAddress idAssociation)
                (NetworkData.mPrefix config)
      then true
      else prefixInNetworkData idAssociation rest
  end.

(** First loop: "remove addresses directly if prefix not valid in network
    data". *)
Fixpoint removeAddresses (configs : list NetworkData.OnMeshPrefixConfig)
    (ias : list IdentityAssociation) : list IdentityAssociation * list NetifCall :=
  match ias with
  | [] => ([], [])
  | idAssociation :: rest =>
      let '(rest', calls) := removeAddresses configs rest in
      if IaStatus_eqb (mStatus idAssociation) kIaStatusInvalid
         || (mValidLifetime idAssociation =? 0)
      then (idAssociation :: rest', calls)
      else if prefixInNetworkData idAssociation configs
      then (idAssociation :: rest', calls)
      else (setStatus kIaStatusInvalid idAssociation :: rest',
            RemoveUnicastAddress (mNetifAddress idAssociation) :: calls)
  end.

(** The [for] of the second loop over the slots from index [i] on:
    [idAssociation] is the first invalid slot seen so far, and the scan stops
    at the first valid slot that matches the prefix.  Returns [found] and
    [idAssociation]. *)
Fixpoint findAssociation (aPrefix : otIp6Prefix) (ias : list IdentityAssociation)
    (i : nat) (idAssociation : option nat) : bool * option nat :=
  match ias with
  | [] => (false, idAssociation)
  | ia :: rest =>
      if IaStatus_eqb (mStatus ia) kIaStatusInvalid then
        findAssociation aPrefix rest (S i)
          (match idAssociation with None => Some i | Some _ => idAssociation end)
      else if MatchNetifAddressWithPrefix (mNetifAddress ia) aPrefix then (true, Some i)
      else findAssociation aPrefix rest (S i) idAssociation
  end.

(** What the second loop stores in the slot it claims for a prefix. *)
Definition claim (aPrefix : otIp6Prefix) (ia : IdentityAssociation) : IdentityAssociation :=
  {| mNetifAddress := {| mAddress := mPrefix aPrefix;
                         mPrefixLength := mLength aPrefix;
                         mAddressOrigin := mAddressOrigin (mNetifAddress ia);
                         mPreferred := mPreferred (mNetifAddress ia);
                         mValid := mValid (mNetifAddress ia) |};
     mPreferredLifetime := mPreferredLifetime ia;
     mValidLifetime := 0;
     mPrefixAgentRloc := mPrefixAgentRloc ia;
     mStatus := kIaStatusSolicit |}.

(** One iteration of the second loop. *)
Definition addPrefix (ias : list IdentityAssociation)
    (config : NetworkData.OnMeshPrefixConfig) : list IdentityAssociation :=
  if negb (NetworkData.mDhcp config) then ias
  else
    let '(found, idAssociation) :=
      findAssociation (NetworkData.mPrefix config) ias 0%nat None in
    match idAssociation with
    | Some i =>
        let ias' := if found then ias
                    else alter (claim (NetworkData.mPrefix config)) i ias in
        alter (setPrefixAgentRloc (NetworkData.mRloc16 config)) i ias'
    | None => ias
    end.

Definition addPrefixes (configs : list NetworkData.OnMeshPrefixConfig)
    (ias : list IdentityAssociation) : list IdentityAssociation :=
  fold_left addPrefix configs ias.

Definition doesAgentExist (configs : list NetworkData.OnMeshPrefixConfig) : bool :=
  existsb NetworkData.mDhcp configs.

(** ** The retry engine *)

Definition currentStatus (c : Client) : option IaStatus :=
  match mIdentityAssociationCurrent c with
  | Some i => mStatus <$> (mIdentityAssociations c !! i)
  | None => None
  end.

(** Index of the first slot waiting to solicit. *)
Fixpoint firstSolicit (ias : list IdentityAssociation) (i : nat) : option nat :=
  match ias with
  | [] => None
  | ia :: rest =>
      if IaStatus_eqb (mStatus ia) kIaStatusSolicit then Some i
      else firstSolicit rest (S i)
  end.

(** [aRandom] is what [mTransactionId.GenerateRandom()] yields. *)
Definition ProcessNextIdentityAssociation (aRandom : Z) (c : Client) : bool * Client :=
  match currentStatus c with
  | Some kIaStatusSoliciting => (false, c)
  | _ =>
      let c1 := withTrickleTimer false c in
      match firstSolicit (mIdentityAssociations c1) 0%nat with
      | Some i =>
          (true, withTrickleTimer true (withCurrent (Some i) (withTransactionId (u24 aRandom) c1)))
      | None => (false, c1)
      end
  end.

Definition Stop (c : Client) : Client := withSocketBound false c.

Definition Start (aRandom : Z) (c : Client) : Client :=
  if mSocketBound c then c
  else snd (ProcessNextIdentityAssociation aRandom (withSocketBound true c)).

Definition UpdateAddresses (configs : list NetworkData.OnMeshPrefixConfig)
    (aRandom : Z) (c : Client) : Client :=
  let '(ias1, calls) := removeAddresses configs (mIdentityAssociations c) in
  let c1 := withNetifCalls calls (withAssociations ias1 c) in
  let c2 := withAssociations (addPrefixes configs ias1) c1 in
  if doesAgentExist configs then Start aRandom c2 else Stop c2.

(** ** Building a Solicit *)

(** What the handlers read from their collaborators while they run: the
    clock, the random transaction id, the room of the message
    [mSocket.NewMessage] hands out (or [None] for [nullptr]) and the result
    of [mSocket.SendTo]. *)
Record Env := mkEnv {
  eNow : Z;
  eNowSolicit : Z;
  eRandom : Z;
  eNewMessage : option Z;
  eSendTo : otError
}.

Definition andThen (r : otError * Message) (f : Message -> otError * Message)
  : otError * Message :=
  match r with
  | (OT_ERROR_NONE, m) => f m
  | (e, m) => (e, m)
  end.

Definition AppendHeader (room : Z) (c : Client) (aMessage : Message)
  : otError * Message :=
  Message_Append room aMessage (Header_bytes kTypeSolicit (mTransactionId c)).

Definition AppendElapsedTime (room now : Z) (c : Client) (aMessage : Message)
  : otError * Message :=
  Message_Append room aMessage
    (ElapsedTime_bytes (u16 (u32 (now - mStartTime c) / 1000))).

Definition AppendClientIdentifier (room eui64 : Z) (aMessage : Message)
  : otError * Message :=
  Message_Append room aMessage
    (Duid_bytes kOptionClientIdentifier kDuidLinkLayerAddress kHardwareTypeEui64 eui64).

(** The counting loop of [AppendIaNa]; [count] is a [uint8_t]. *)
Fixpoint countAssociations (aRloc16 : Z) (ias : list IdentityAssociation) (count : Z) : Z :=
  match ias with
  | [] => count
  | idAssociation :: rest =>
      if IaStatus_eqb (mStatus idAssociation) kIaStatusInvalid
         || IaStatus_eqb (mStatus idAssociation) kIaStatusSolicitReplied
      then countAssociations aRloc16 rest count
      else if mPrefixAgentRloc idAssociation =? aRloc16
      then countAssociations aRloc16 rest (u8 (count + 1))
      else countAssociations aRloc16 rest count
  end.

(** The length [AppendIaNa] computes, a [uint16_t]. *)
Definition IaNa_length (aRloc16 : Z) (ias : list IdentityAssociation) : Z :=
  u16 (sizeof_IaNa + sizeof_IaAddress * countAssociations aRloc16 ias 0 - sizeof_Option).

Definition AppendIaNa (room : Z) (c : Client) (aRloc16 : Z) (aMessage : Message)
  : otError * Message :=
  match mIdentityAssociationCurrent c with
  | None => (OT_ERROR_DROP, aMessage)
  | Some _ =>
      Message_Append room aMessage
        (IaNa_bytes (IaNa_length aRloc16 (mIdentityAssociations c)) 0 0 0)
  end.

Fixpoint AppendIaAddress_loop (room aRloc16 : Z) (ias : list IdentityAssociation)
    (aMessage : Message) : otError * Message :=
  match ias with
  | [] => (OT_ERROR_NONE, aMessage)
  | idAssociation :: rest =>
      if (IaStatus_eqb (mStatus idAssociation) kIaStatusSolicit
          || IaStatus_eqb (mStatus idAssociation) kIaStatusSoliciting)
         && (mPrefixAgentRloc idAssociation =? aRloc16)
      then andThen
             (Message_Append room aMessage
                (IaAddress_bytes (mAddress (mNetifAddress idAssociation)) 0 0))
             (AppendIaAddress_loop room aRloc16 rest)
      else AppendIaAddress_loop room aRloc16 rest aMessage
  end.

Definition AppendIaAddress (room : Z) (c : Client) (aRloc16 : Z) (aMessage : Message)
  : otError * Message :=
  match mIdentityAssociationCurrent c with
  | None => (OT_ERROR_DROP, aMessage)
  | Some _ => AppendIaAddress_loop room aRloc16 (mIdentityAssociations c) aMessage
  end.

Definition AppendRapidCommit (room : Z) (aMessage : Message) : otError * Message :=
  Message_Append room aMessage RapidCommit_bytes.

(** [Client::Solicit]: a datagram that was sent is recorded with the locator
    it was built for; on any error the message is freed. *)
Definition Solicit (eui64 : Z) (env : Env) (aRloc16 : Z) (c : Client) : Client :=
  match eNewMessage env with
  | None => c
  | Some room =>
      let message := mkMessage [] 0 in
      let r :=
        andThen (andThen (andThen (andThen (andThen
          (AppendHeader room c message)
          (AppendElapsedTime room (eNowSolicit env) c))
          (AppendClientIdentifier room eui64))
          (AppendIaNa room c aRloc16))
          (AppendIaAddress room c aRloc16))
          (AppendRapidCommit room) in
      match r with
      | (OT_ERROR_NONE, message') =>
          match eSendTo env with
          | OT_ERROR_NONE => withSent (aRloc16, mData message') c
          | _ => c
          end
      | _ => c
      end
  end.

(** [Client::HandleTrickleTimer]; the [kIaStatusSolicit] case falls through
    to the [kIaStatusSoliciting] one. *)
Definition HandleTrickleTimer (eui64 : Z) (env : Env) (c : Client) : bool * Client :=
  match mIdentityAssociationCurrent c with
  | None => (false, c)
  | Some i =>
      match mIdentityAssociations c !! i with
      | None => (true, c)
      | Some current =>
          match mStatus current with
          | kIaStatusSolicit =>
              let c1 := withAssociations
                          (alter (setStatus kIaStatusSoliciting) i (mIdentityAssociations c))
                          (withStartTime (eNow env) c) in
              (true, Solicit eui64 env (mPrefixAgentRloc current) c1)
          | kIaStatusSoliciting =>
              (true, Solicit eui64 env (mPrefixAgentRloc current) c)
          | kIaStatusSolicitReplied =>
              let '(next, c1) :=
                ProcessNextIdentityAssociation (eRandom env) (withCurrent None c) in
              if next then (true, c1)
              else (false, Stop (withTrickleTimer false c1))
          | kIaStatusInvalid => (true, c)
          end
      end
  end.

(** ** Parsing a Reply *)

Definition ProcessStatusCode (aMessage : Message) (aOffset : Z) : otError :=
  let option := Message_Read aMessage aOffset sizeof_StatusCode in
  if (bytesRead option >=? sizeof_StatusCode)
     && (Option_GetLength option >=? sizeof_StatusCode - sizeof_Option)
     && (StatusCode_GetStatusCode option =? kStatusSuccess)
  then OT_ERROR_NONE else OT_ERROR_PARSE.

(** A short read leaves through [VerifyOrExit(..., OT_NOOP)] with [error]
    still [OT_ERROR_NONE]. *)
Definition ProcessServerIdentifier (aMessage : Message) (aOffset : Z) : otError :=
  let option := Message_Read aMessage aOffset sizeof_ServerIdentifier in
  if bytesRead option =? sizeof_ServerIdentifier then
    if ((GetDuidType option =? kDuidLinkLayerAddressPlusTime)
        && (GetDuidHardwareType option =? kHardwareTypeEthernet))
       || ((Option_GetLength option =? sizeof_ServerIdentifier - sizeof_Option)
           && (GetDuidType option =? kDuidLinkLayerAddress)
           && (GetDuidHardwareType option =? kHardwareTypeEui64))
    then OT_ERROR_NONE else OT_ERROR_PARSE
  else OT_ERROR_NONE.

Definition ProcessClientIdentifier (eui64 : Z) (aMessage : Message) (aOffset : Z)
  : otError :=
  let option := Message_Read aMessage aOffset sizeof_ClientIdentifier in
  if (bytesRead option =? sizeof_ClientIdentifier)
     && (Option_GetLength option =? sizeof_ClientIdentifier - sizeof_Option)
     && (GetDuidType option =? kDuidLinkLayerAddress)
     && (GetDuidHardwareType option =? kHardwareTypeEui64)
     && (GetDuidLinkLayerAddress option =? eui64)
  then OT_ERROR_NONE else OT_ERROR_PARSE.

(** What [ProcessIaAddress] stores in the association it matches. *)
Definition applyIaAddress (option : list Z) (ia : IdentityAssociation)
  : IdentityAssociation :=
  {| mNetifAddress :=
       {| mAddress := IaAddress_GetAddress option;
          mPrefixLength := mPrefixLength (mNetifAddress ia);
          mAddressOrigin := OT_ADDRESS_ORIGIN_DHCPV6;
          mPreferred := negb (IaAddress_GetPreferredLifetime option =? 0);
          mValid := negb (IaAddress_GetValidLifetime option =? 0) |};
     mPreferredLifetime := IaAddress_GetPreferredLifetime option;
     mValidLifetime := IaAddress_GetValidLifetime option;
     mPrefixAgentRloc := mPrefixAgentRloc ia;
     mStatus := kIaStatusSolicitReplied |}.

(** The [for] of [ProcessIaAddress], which stops at the first association
    that takes the address. *)
Fixpoint ProcessIaAddress_loop (option : list Z) (ias : list IdentityAssociation)
  : list IdentityAssociation * list NetifCall :=
  match ias with
  | [] => ([], [])
  | idAssociation :: rest =>
      if IaStatus_eqb (mStatus idAssociation) kIaStatusInvalid
         || negb (mValidLifetime idAssociation =? 0)
      then let '(rest', calls) := ProcessIaAddress_loop option rest in
           (idAssociation :: rest', calls)
      else if PrefixMatch (mAddress (mNetifAddress idAssociation))
                (IaAddress_GetAddress option)
              >=? mPrefixLength (mNetifAddress idAssociation)
      then (applyIaAddress option idAssociation :: rest,
            [AddUnicastAddress (mNetifAddress (applyIaAddress option idAssociation))])
      else let '(rest', calls) := ProcessIaAddress_loop option rest in
           (idAssociation :: rest', calls)
  end.

Definition ProcessIaAddress (aMessage : Message) (aOffset : Z) (c : Client)
  : otError * Client :=
  let option := Message_Read aMessage aOffset sizeof_IaAddress in
  if (bytesRead option =? sizeof_IaAddress)
     && (Option_GetLength option =? sizeof_IaAddress - sizeof_Option)
  then
    let '(ias, calls) := ProcessIaAddress_loop option (mIdentityAssociations c) in
    (OT_ERROR_NONE, withNetifCalls calls (withAssociations ias c))
  else (OT_ERROR_PARSE, c).

(** The window of nested options [ProcessIaNa] derives from the declared
    length of the container, a [uint16_t] subtraction. *)
Definition IaNa_window (option : list Z) : Z :=
  u16 (Option_GetLength option - (sizeof_IaNa - sizeof_Option)).

(** The [while (length > 0)] loop of [ProcessIaNa]; [n] is the bound given to
    each [FindOption]. *)
Fixpoint ProcessIaNa_loop (n fuel : nat) (aMessage : Message) (aOffset length : Z)
    (c : Client) : option (otError * Client) :=
  match fuel with
  | O => None
  | S fuel' =>
      if length >? 0 then
        optionOffset ← FindOption n aMessage aOffset length kOptionIaAddress;
        if optionOffset =? 0 then Some (OT_ERROR_NONE, c)
        else
          match ProcessIaAddress aMessage optionOffset c with
          | (OT_ERROR_NONE, c') =>
              ProcessIaNa_loop n fuel' aMessage
                (u16 (optionOffset + sizeof_IaAddress))
                (u16 (length - ((optionOffset - aOffset) + sizeof_IaAddress)))
                c'
          | (e, c') => Some (e, c')
          end
      else Some (OT_ERROR_NONE, c)
  end.

(** [ProcessIaNa] once the window has passed the length check: the nested
    status code, then the addresses. *)
Definition ProcessIaNa_options (n : nat) (aMessage : Message) (aOffset length : Z)
    (c : Client) : option (otError * Client) :=
  optionOffset ← FindOption n aMessage aOffset length kOptionStatusCode;
  match (if optionOffset >? 0 then ProcessStatusCode aMessage optionOffset
         else OT_ERROR_NONE) with
  | OT_ERROR_NONE => ProcessIaNa_loop n n aMessage aOffset length c
  | e => Some (e, c)
  end.

Definition ProcessIaNa (n : nat) (aMessage : Message) (aOffset : Z) (c : Client)
  : option (otError * Client) :=
  let option := Message_Read aMessage aOffset sizeof_IaNa in
  if bytesRead option =? sizeof_IaNa then
    let aOffset := u16 (aOffset + sizeof_IaNa) in
    let length := IaNa_window option in
    if length <=? GetLength aMessage - aOffset then
      ProcessIaNa_options n aMessage aOffset length c
    else Some (OT_ERROR_PARSE, c)
  else Some (OT_ERROR_PARSE, c).

Definition ProcessReply (n : nat) (eui64 : Z) (env : Env) (aMessage : Message)
    (c : Client) : option Client :=
  let offset := GetOffset aMessage in
  let length := u16 (GetLength aMessage - GetOffset aMessage) in
  optionOffset ← FindOption n aMessage offset length kOptionStatusCode;
  match (if optionOffset >? 0 then ProcessStatusCode aMessage optionOffset
         else OT_ERROR_NONE) with
  | OT_ERROR_NONE =>
      optionOffset ← FindOption n aMessage offset length kOptionServerIdentifier;
      if optionOffset >? 0 then
        match ProcessServerIdentifier aMessage optionOffset with
        | OT_ERROR_NONE =>
            optionOffset ← FindOption n aMessage offset length kOptionClientIdentifier;
            if optionOffset >? 0 then
              match ProcessClientIdentifier eui64 aMessage optionOffset with
              | OT_ERROR_NONE =>
                  optionOffset ← FindOption n aMessage offset length kOptionRapidCommit;
                  if optionOffset >? 0 then
                    optionOffset ← FindOption n aMessage offset length kOptionIaNa;
                    if optionOffset >? 0 then
                      r ← ProcessIaNa n aMessage optionOffset c;
                      match r with
                      | (OT_ERROR_NONE, c') => Some (snd (HandleTrickleTimer eui64 env c'))
                      | (_, c') => Some c'
                      end
                    else Some c
                  else Some c
              | _ => Some c
              end
            else Some c
        | _ => Some c
        end
      else Some c
  | _ => Some c
  end.

Definition HandleUdpReceive (n : nat) (eui64 : Z) (env : Env) (aMessage : Message)
    (c : Client) : option Client :=
  let header := Message_Read aMessage (GetOffset aMessage) sizeof_Header in
  if bytesRead header =? sizeof_Header then
    let aMessage := MoveOffset aMessage sizeof_Header in
    if (Header_GetType header =? kTypeReply)
       && (Header_GetTransactionId header =? mTransactionId c)
    then ProcessReply n eui64 env aMessage c
    else Some c
  else Some c.

(** * Definitions for the properties *)

(** ** Messages on the wire *)

(** A message after [bs] has been appended. *)
Definition appended (m : Message) (bs : list Z) : Message :=
  {| mData := mData m ++ bs; mOffset := mOffset m |}.

(** The options of a message, each given by its code and its payload. *)
Definition options_bytes (opts : list (Z * list Z)) : list Z :=
  flat_map (fun o => Option_bytes (fst o) (snd o)) opts.

(** A datagram as the socket delivers it: the bytes before the DHCPv6
    header (the offset of the message points after them), the header and the
    options. *)
Definition datagram (pre : list Z) (type txid : Z) (opts : list (Z * list Z)) : Message :=
  {| mData := pre ++ Header_bytes type txid ++ options_bytes opts;
     mOffset := Z.of_nat (length pre) |}.

(** The first option with a given code: its offset among the options and its
    payload. *)
Fixpoint firstOption (code : Z) (opts : list (Z * list Z)) : option (Z * list Z) :=
  match opts with
  | [] => None
  | o :: rest =>
      if fst o =? code then Some (0, snd o)
      else match firstOption code rest with
           | Some (k, payload) => Some (Z.of_nat (length (Option_bytes (fst o) (snd o))) + k, payload)
           | None => None
           end
  end.

(** The option that stands directly behind the first option with a given
    code. *)
Fixpoint optionAfter (code : Z) (opts : list (Z * list Z)) : option (Z * list Z) :=
  match opts with
  | [] => None
  | o :: rest => if fst o =? code then head rest else optionAfter code rest
  end.

(** Option codes fit their 16 bits. *)
Definition codesOk (opts : list (Z * list Z)) : Prop :=
  Forall (fun o => 0 <= fst o < 2 ^ 16) opts.

(** The offset of the first option of a datagram. *)
Definition optionsOffset (pre : list Z) : Z := Z.of_nat (length pre) + sizeof_Header.


(** The DUID of this node as a ClientIdentifier carries it. *)
Definition ownDuid (eui64 : Z) : list Z :=
  be_enc 2 kDuidLinkLayerAddress ++ be_enc 2 kHardwareTypeEui64 ++ be_enc 8 eui64.

(** The payload of an IA_NA container that holds one IaAddress option. *)
Definition IaNa_payload (iaid t1 t2 addr preferred valid : Z) : list Z :=
  be_enc 4 iaid ++ be_enc 4 t1 ++ be_enc 4 t2 ++ IaAddress_bytes addr preferred valid.

(** The payload of a StatusCode option that says success. *)
Definition successStatus (payload : list Z) : Prop :=
  (2 <= length payload)%nat /\ be_dec (sub payload 0 2) = kStatusSuccess.

(** The two DUID forms [ProcessServerIdentifier] accepts. *)
Definition acceptedServerDuid (payload : list Z) : Prop :=
  (12 <= length payload)%nat
  /\ ((be_dec (sub payload 0 2) = kDuidLinkLayerAddressPlusTime
       /\ be_dec (sub payload 2 2) = kHardwareTypeEthernet)
      \/ (length payload = 12%nat
          /\ be_dec (sub payload 0 2) = kDuidLinkLayerAddress
          /\ be_dec (sub payload 2 2) = kHardwareTypeEui64)).

(** ** Associations *)

(** Free slots. *)
Definition isInvalid (ia : IdentityAssociation) : Prop := mStatus ia = kIaStatusInvalid.

(** Slots with a solicitation in flight. *)
Definition isSoliciting (ia : IdentityAssociation) : bool :=
  IaStatus_eqb (mStatus ia) kIaStatusSoliciting.

(** An association that waits or solicits has not been assigned a lifetime. *)
Definition unassigned (ia : IdentityAssociation) : Prop :=
  mStatus ia = kIaStatusSolicit \/ mStatus ia = kIaStatusSoliciting ->
  mValidLifetime ia = 0.

(** The associations a Solicit for locator [aRloc16] asks for: neither
    invalid nor replied, and owned by that agent. *)
Definition solicited (aRloc16 : Z) (ia : IdentityAssociation) : bool :=
  negb (IaStatus_eqb (mStatus ia) kIaStatusInvalid)
  && negb (IaStatus_eqb (mStatus ia) kIaStatusSolicitReplied)
  && (mPrefixAgentRloc ia =? aRloc16).

(** The IaAddress options that go with the container. *)
Definition IaAddress_options (aRloc16 : Z) (ias : list IdentityAssociation) : list Z :=
  flat_map (fun ia => IaAddress_bytes (mAddress (mNetifAddress ia)) 0 0)
    (List.filter (solicited aRloc16) ias).

(** Two prefixes of the network data denote the same prefix when they have
    the same length and agree on that many leading bits: this is
    [MatchNetifAddressWithPrefix] between the address claimed for the first
    and the second. *)
Definition samePrefix (p q : otIp6Prefix) : bool :=
  (mLength q =? mLength p) && (PrefixMatch (mPrefix p) (mPrefix q) >=? mLength q).

(** Pairwise distinct prefixes. *)
Fixpoint distinctPrefixes (ps : list otIp6Prefix) : bool :=
  match ps with
  | [] => true
  | p :: rest => forallb (fun q => negb (samePrefix p q)) rest && distinctPrefixes rest
  end.

(** What the second loop leaves in a free slot it gives to [config]. *)
Definition served (config : NetworkData.OnMeshPrefixConfig) (ia : IdentityAssociation)
  : IdentityAssociation :=
  setPrefixAgentRloc (NetworkData.mRloc16 config) (claim (NetworkData.mPrefix config) ia).

(** A DHCP prefix of the network data is at most 128 bits long. *)
Definition prefixLengthOk (config : NetworkData.OnMeshPrefixConfig) : Prop :=
  NetworkData.mDhcp config = true -> mLength (NetworkData.mPrefix config) <= 128.

(** An association the first loop leaves alone. *)
Definition settled (configs : list NetworkData.OnMeshPrefixConfig)
    (ia : IdentityAssociation) : Prop :=
  mStatus ia = kIaStatusInvalid \/ mValidLifetime ia = 0
  \/ prefixInNetworkData ia configs = true.

(** The association as [ProcessIaAddress] leaves it. *)
Definition assigned (addr preferred valid : Z) (ia : IdentityAssociation)
  : IdentityAssociation :=
  {| mNetifAddress :=
       {| mAddress := addr;
          mPrefixLength := mPrefixLength (mNetifAddress ia);
          mAddressOrigin := OT_ADDRESS_ORIGIN_DHCPV6;
          mPreferred := negb (preferred =? 0);
          mValid := negb (valid =? 0) |};
     mPreferredLifetime := preferred;
     mValidLifetime := valid;
     mPrefixAgentRloc := mPrefixAgentRloc ia;
     mStatus := kIaStatusSolicitReplied |}.

(** Whether an association takes an offered address: it is valid, has no
    lifetime yet and its address matches over its prefix length. *)
Definition takes (addr : Z) (ia : IdentityAssociation) : bool :=
  negb (IaStatus_eqb (mStatus ia) kIaStatusInvalid)
  && (mValidLifetime ia =? 0)
  && (PrefixMatch (mAddress (mNetifAddress ia)) addr >=? mPrefixLength (mNetifAddress ia)).

(** ** The search of the second loop *)

#[global] Instance IaStatus_eq_dec : EqDecision IaStatus.
Proof. solve_decision. Defined.

(** What the second loop of [UpdateAddresses] searches for: a valid slot
    that matches the prefix, else a free slot. *)
Definition matches (p : otIp6Prefix) (ia : IdentityAssociation) : Prop :=
  mStatus ia <> kIaStatusInvalid
  /\ MatchNetifAddressWithPrefix (mNetifAddress ia) p = true.

#[global] Instance matches_dec p ia : Decision (matches p ia).
Proof. unfold matches. apply _. Defined.

#[global] Instance isInvalid_dec ia : Decision (isInvalid ia).
Proof. unfold isInvalid. apply _. Defined.

Definition target (p : otIp6Prefix) (ias : list IdentityAssociation) : option nat :=
  fst <$> list_find (matches p) ias.

Definition freeSlot (ias : list IdentityAssociation) : option nat :=
  fst <$> list_find isInvalid ias.

(** An association without its agent locator: what the searches of the
    second loop look at. *)
Definition shapeOf (ia : IdentityAssociation) : IdentityAssociation :=
  setPrefixAgentRloc 0 ia.

(** The locators of the second run [R] against those of the first run [Q]
    and of its outcome [F]: slot by slot, the second run has either caught up
    with the first or still holds the outcome. *)
Definition rlocSettled (Q R F : list IdentityAssociation) : Prop :=
  forall i a b f, Q !! i = Some a -> R !! i = Some b -> F !! i = Some f ->
    mPrefixAgentRloc b = mPrefixAgentRloc a \/ mPrefixAgentRloc b = mPrefixAgentRloc f.

(** ** The client as a transition system *)

(** One event: the network data changed, the trickle timer fired, or a
    datagram arrived and its handler returned. *)
Inductive step (eui64 : Z) (c : Client) : Client -> Prop :=
| step_UpdateAddresses configs aRandom :
    step eui64 c (UpdateAddresses configs aRandom c)
| step_HandleTrickleTimer env :
    step eui64 c (snd (HandleTrickleTimer eui64 env c))
| step_HandleUdpReceive n env aMessage c' :
    HandleUdpReceive n eui64 env aMessage c = Some c' ->
    step eui64 c c'.

Inductive reachable (eui64 : Z) (n : nat) : Client -> Prop :=
| reachable_init txid : reachable eui64 n (Client_init n txid)
| reachable_step c c' :
    reachable eui64 n c -> step eui64 c c' -> reachable eui64 n c'.

(** A soliciting association is the current one. *)
Definition solicitingIsCurrent (c : Client) : Prop :=
  forall i ia, mIdentityAssociations c !! i = Some ia ->
               mStatus ia = kIaStatusSoliciting ->
               mIdentityAssociationCurrent c = Some i.

(** How a slot may change without a new solicitation starting in it. *)
Definition quiet (a b : IdentityAssociation) : Prop :=
  (mStatus b = kIaStatusSoliciting -> mStatus a = kIaStatusSoliciting)
  /\ (unassigned a -> unassigned b).

(** An event that starts no solicitation: the current association stays
    and every slot changes quietly. *)
Definition quietly (c c' : Client) : Prop :=
  mIdentityAssociationCurrent c' = mIdentityAssociationCurrent c
  /\ Forall2 quiet (mIdentityAssociations c) (mIdentityAssociations c').

(** What every reachable state satisfies. *)
Definition invariant (c : Client) : Prop :=
  solicitingIsCurrent c /\ Forall unassigned (mIdentityAssociations c).

(** ** Replies *)


(** The StatusCode option of a Reply, the first one when there are several,
    says success; a Reply without a StatusCode passes as well. *)
Definition firstStatusOk (opts : list (Z * list Z)) : Prop :=
  forall k payload, firstOption kOptionStatusCode opts = Some (k, payload) ->
                    successStatus payload.

(** No failing StatusCode stands directly behind the IA_NA container, where
    the scan of the container, which includes the end of its window,
    would read it. *)
Definition statusBehindIaNaOk (opts : list (Z * list Z)) : Prop :=
  forall o, optionAfter kOptionIaNa opts = Some o ->
            fst o = kOptionStatusCode -> successStatus (snd o).

(** A well-formed Reply that offers [addr]: its StatusCode, if it has one,
    says success, the ServerIdentifier has an accepted form, the
    ClientIdentifier is this node's, RapidCommit is there and the IA_NA
    container holds one IaAddress. *)
Definition acceptableReply (eui64 : Z) (n : nat) (pre : list Z) (txid : Z)
    (opts : list (Z * list Z)) (addr preferred valid : Z) : Prop :=
  codesOk opts
  /\ GetLength (datagram pre kTypeReply txid opts) < 2 ^ 16
  /\ (length opts + 3 <= n)%nat
  /\ 0 <= txid < 2 ^ 24
  /\ firstStatusOk opts
  /\ statusBehindIaNaOk opts
  /\ (exists k payload, firstOption kOptionServerIdentifier opts = Some (k, payload)
                        /\ acceptedServerDuid payload)
  /\ (exists k, firstOption kOptionClientIdentifier opts = Some (k, ownDuid eui64))
  /\ 0 <= eui64 < 2 ^ 64
  /\ (exists k payload, firstOption kOptionRapidCommit opts = Some (k, payload))
  /\ (exists k iaid t1 t2,
        firstOption kOptionIaNa opts
        = Some (k, IaNa_payload iaid t1 t2 addr preferred valid))
  /\ 0 <= addr < 2 ^ 128 /\ 0 <= preferred < 2 ^ 32 /\ 0 <= valid < 2 ^ 32.

(** ** The Solicit on the wire *)

(** The bytes [Solicit] builds, in the order of its six [Append] calls. *)
Definition Solicit_bytes (eui64 now aRloc16 : Z) (c : Client) : list Z :=
  Header_bytes kTypeSolicit (mTransactionId c)
  ++ ElapsedTime_bytes (u16 (u32 (now - mStartTime c) / 1000))
  ++ Duid_bytes kOptionClientIdentifier kDuidLinkLayerAddress kHardwareTypeEui64 eui64
  ++ IaNa_bytes (IaNa_length aRloc16 (mIdentityAssociations c)) 0 0 0
  ++ IaAddress_options aRloc16 (mIdentityAssociations c)
  ++ RapidCommit_bytes.

(** The same message as a sequence of options: the IA_NA container holds the
    IaAddress options. *)
Definition solicitOptions (eui64 now aRloc16 : Z) (c : Client) : list (Z * list Z) :=
  [ (kOptionElapsedTime, be_enc 2 (u16 (u32 (now - mStartTime c) / 1000)));
    (kOptionClientIdentifier, ownDuid eui64);
    (kOptionIaNa, be_enc 4 0 ++ be_enc 4 0 ++ be_enc 4 0
                  ++ IaAddress_options aRloc16 (mIdentityAssociations c));
    (kOptionRapidCommit, []) ].

(** The number of associations a Solicit for [aRloc16] asks for. *)
Definition askedFor (aRloc16 : Z) (c : Client) : Z :=
  Z.of_nat (length (List.filter (solicited aRloc16) (mIdentityAssociations c))).

(** ** Reconciliation *)

(** An association the first loop of [UpdateAddresses] gives up: valid, with
    a lifetime, and matched by no DHCP prefix of the network data. *)
Definition stale (configs : list NetworkData.OnMeshPrefixConfig)
    (ia : IdentityAssociation) : bool :=
  negb (IaStatus_eqb (mStatus ia) kIaStatusInvalid)
  && negb (mValidLifetime ia =? 0)
  && negb (prefixInNetworkData ia configs).

(** ** What every reachable state keeps *)

(** The pool has its [n] slots, the current association is one of them, and
    the transaction id in use fits the 24 bits of the header. *)
Definition wellFormed (n : nat) (c : Client) : Prop :=
  length (mIdentityAssociations c) = n
  /\ forall i, mIdentityAssociationCurrent c = Some i ->
       (i < n)%nat /\ 0 <= mTransactionId c < 2 ^ 24.

(** An association that holds an assigned address has been added to the
    interface with the address it holds. *)
Definition installedBy (calls : list NetifCall) (ia : IdentityAssociation) : Prop :=
  mStatus ia <> kIaStatusInvalid -> mValidLifetime ia <> 0 ->
  In (AddUnicastAddress (mNetifAddress ia)) calls.

(** An invalid slot has no lifetime, or it is a slot whose address
    [UpdateAddresses] has taken off the interface. *)
Definition freshOrWithdrawn (calls : list NetifCall) (ia : IdentityAssociation) : Prop :=
  mStatus ia = kIaStatusInvalid ->
  mValidLifetime ia = 0 \/ In (RemoveUnicastAddress (mNetifAddress ia)) calls.

(** What the second loop of [UpdateAddresses] can make of the slot of [ia]
    once the first loop has invalidated it: leave it, or claim it for a
    prefix. *)
Definition invalidatedOrClaimed (ia x : IdentityAssociation) : Prop :=
  x = setStatus kIaStatusInvalid ia
  \/ (mStatus x = kIaStatusSolicit /\ mValidLifetime x = 0).

(** Every removal in a log of interface calls comes after an addition of the
    same address. *)
Definition removalsFollowAdditions (calls : list NetifCall) : Prop :=
  forall i a, calls !! i = Some (RemoveUnicastAddress a) ->
  exists j, (j < i)%nat /\ calls !! j = Some (AddUnicastAddress a).

(** The flags of a replied association say what its lifetimes say. *)
Definition flagsAgree (ia : IdentityAssociation) : Prop :=
  mStatus ia = kIaStatusSolicitReplied ->
  mAddressOrigin (mNetifAddress ia) = OT_ADDRESS_ORIGIN_DHCPV6
  /\ mValid (mNetifAddress ia) = negb (mValidLifetime ia =? 0)
  /\ mPreferred (mNetifAddress ia) = negb (mPreferredLifetime ia =? 0).

(** A datagram of the send log that is a Solicit. *)
Definition isSolicit (d : Z * list Z) : Prop :=
  Header_GetType (snd d) = kTypeSolicit.

(** ** Offers *)

(** An association that waits for an address: valid and without a
    lifetime.  These are the associations an offer can go to. *)
Definition pending (ia : IdentityAssociation) : Prop :=
  mStatus ia <> kIaStatusInvalid /\ mValidLifetime ia = 0.

(** The first association of the pool that takes an offered address. *)
Definition firstTaker (addr : Z) (ias : list IdentityAssociation)
  : option (nat * IdentityAssociation) :=
  list_find (fun ia => takes addr ia = true) ias.

(** The IaAddress options of a container, each offer being an address with
    its preferred and its valid lifetime. *)
Definition offers_bytes (offers : list (Z * Z * Z)) : list Z :=
  flat_map (fun o => IaAddress_bytes (fst (fst o)) (snd (fst o)) (snd o)) offers.

(** What [ProcessIaAddress] does with a well-formed option: the loop over
    the pool and the interface call. *)
Definition grant (option : list Z) (c : Client) : Client :=
  let '(ias, calls) := ProcessIaAddress_loop option (mIdentityAssociations c) in
  withNetifCalls calls (withAssociations ias c).

(** The offers of a container, granted in its order. *)
Definition grantAll (offers : list (Z * Z * Z)) (c : Client) : Client :=
  fold_left (fun c o => grant (IaAddress_bytes (fst (fst o)) (snd (fst o)) (snd o)) c)
    offers c.

(** The options a Reply must carry for [ProcessReply] to reach its IA_NA
    container, the container included. *)
Definition mandatoryOptions : list Z :=
  [kOptionServerIdentifier; kOptionClientIdentifier; kOptionRapidCommit; kOptionIaNa].

(** A Reply that passes the checks [ProcessReply] makes before it turns to
    the IA_NA container: every StatusCode says success, the ServerIdentifier
    has an accepted form, the ClientIdentifier is this node's and
    RapidCommit is there.  The first IA_NA container is at [ki] among the
    options and has [payload]. *)
Definition passesChecks (eui64 : Z) (n : nat) (pre : list Z) (txid : Z)
    (opts : list (Z * list Z)) (ki : Z) (payload : list Z) : Prop :=
  codesOk opts
  /\ GetLength (datagram pre kTypeReply txid opts) < 2 ^ 16
  /\ (length opts < n)%nat
  /\ 0 <= txid < 2 ^ 24
  /\ Forall (fun o => fst o = kOptionStatusCode -> successStatus (snd o)) opts
  /\ (exists k p, firstOption kOptionServerIdentifier opts = Some (k, p)
                  /\ acceptedServerDuid p)
  /\ (exists k, firstOption kOptionClientIdentifier opts = Some (k, ownDuid eui64))
  /\ 0 <= eui64 < 2 ^ 64
  /\ (exists k p, firstOption kOptionRapidCommit opts = Some (k, p))
  /\ firstOption kOptionIaNa opts = Some (ki, payload).

(** ** One association for each prefix *)

(** Two associations stand for the same prefix when the address of the
    first matches, in the sense of [MatchNetifAddressWithPrefix], the
    address of the second taken with its prefix length. *)
Definition samePrefixOf (a b : IdentityAssociation) : bool :=
  MatchNetifAddressWithPrefix (mNetifAddress a)
    (mkIp6Prefix (mAddress (mNetifAddress b)) (mPrefixLength (mNetifAddress b))).

(** No two valid associations of a pool stand for the same prefix. *)
Definition distinctAssociations (ias : list IdentityAssociation) : Prop :=
  forall i j a b, i <> j -> ias !! i = Some a -> ias !! j = Some b ->
  mStatus a <> kIaStatusInvalid -> mStatus b <> kIaStatusInvalid ->
  samePrefixOf a b = false.

(** A slot keeps its address and is not brought back to life. *)
Definition keyKept (a b : IdentityAssociation) : Prop :=
  mNetifAddress b = mNetifAddress a
  /\ (mStatus b <> kIaStatusInvalid -> mStatus a <> kIaStatusInvalid).

(** ** Messages, pools and runs used as examples *)

(** A reply whose second option, a status code, starts where a window of
    four bytes over the first option ends. *)
Definition windowEndMessage : Message :=
  {| mData := Header_bytes kTypeReply 1
              ++ Option_bytes kOptionClientIdentifier []
              ++ Option_bytes kOptionStatusCode [0; 5];
     mOffset := 4 |}.

(** An option that declares 65532 bytes of payload: the 16-bit advance
    [4 + 65532] wraps to zero and the scan never leaves it. *)
Definition wrappingMessage : Message :=
  {| mData := Header_bytes kTypeReply 1 ++ be_enc 2 kOptionClientIdentifier
              ++ be_enc 2 65532;
     mOffset := 4 |}.

(** A reply whose IA_NA container declares a length of zero. *)
Definition shortIaNaMessage : Message :=
  {| mData := Header_bytes kTypeReply 1 ++ IaNa_bytes 0 0 0 0;
     mOffset := 4 |}.

(** A pool with two associations to solicit from agent 0x4400, one already
    replied and one of another agent. *)
Definition solicitClient : Client :=
  {| mSocketBound := true; mTrickleTimerRunning := true; mStartTime := 0;
     mTransactionId := 1;
     mIdentityAssociations :=
       [ setPrefixAgentRloc 0x4400
           (claim {| mPrefix := 0xfd000db8000000010000000000000000; mLength := 64 |}
              zeroAssociation);
         setStatus kIaStatusSoliciting
           (setPrefixAgentRloc 0x4400
              (claim {| mPrefix := 0xfd000db8000000020000000000000000; mLength := 64 |}
                 zeroAssociation));
         setStatus kIaStatusSolicitReplied
           (setPrefixAgentRloc 0x4400
              (claim {| mPrefix := 0xfd000db8000000030000000000000000; mLength := 64 |}
                 zeroAssociation));
         setPrefixAgentRloc 0x5800
           (claim {| mPrefix := 0xfd000db8000000040000000000000000; mLength := 64 |}
              zeroAssociation) ];
     mIdentityAssociationCurrent := Some 1%nat;
     netifCalls := []; sentMessages := [] |}.

(** Three distinct DHCP prefixes. *)
Definition exhaustionConfigs : list NetworkData.OnMeshPrefixConfig :=
  [ NetworkData.mkConfig (mkIp6Prefix 0xfd000db8000000010000000000000000 64) true 0x4400;
    NetworkData.mkConfig (mkIp6Prefix 0xfd000db8000000020000000000000000 64) true 0x4400;
    NetworkData.mkConfig (mkIp6Prefix 0xfd000db8000000030000000000000000 64) true 0x5800 ].

(** One association in the middle of soliciting, nothing assigned yet. *)
Definition solicitingClient : Client :=
  {| mSocketBound := true; mTrickleTimerRunning := true; mStartTime := 0;
     mTransactionId := 1;
     mIdentityAssociations :=
       [ setStatus kIaStatusSoliciting
           (setPrefixAgentRloc 0x4400
              (claim {| mPrefix := 0xfd000db8000000010000000000000000; mLength := 64 |}
                 zeroAssociation)) ];
     mIdentityAssociationCurrent := Some 0%nat;
     netifCalls := []; sentMessages := [] |}.

(** The same association after a reply assigned it an address for an hour. *)
Definition repliedClient : Client :=
  {| mSocketBound := true; mTrickleTimerRunning := true; mStartTime := 0;
     mTransactionId := 1;
     mIdentityAssociations :=
       [ {| mNetifAddress :=
              {| mAddress := 0xfd000db8000000010000000000001234; mPrefixLength := 64;
                 mAddressOrigin := OT_ADDRESS_ORIGIN_DHCPV6;
                 mPreferred := true; mValid := true |};
            mPreferredLifetime := 1800; mValidLifetime := 3600;
            mPrefixAgentRloc := 0x4400; mStatus := kIaStatusSolicitReplied |} ];
     mIdentityAssociationCurrent := Some 0%nat;
     netifCalls := []; sentMessages := [] |}.

(** The node and its surroundings in the runs below. *)
Definition nodeEui64 : Z := 0x0011223344556677.

Definition prefixA : otIp6Prefix := mkIp6Prefix 0xfd000db8000000010000000000000000 64.

Definition prefixB : otIp6Prefix := mkIp6Prefix 0xfd000db8000000020000000000000000 64.
Definition prefixQ : otIp6Prefix := mkIp6Prefix 0xfd000000000000000000000000000000 16.

Definition addressA : Z := 0xfd000db8000000010000000000001234.
Definition addressB : Z := 0xfd000db8000000020000000000005678.

Definition runEnv : Env :=
  {| eNow := 1000; eNowSolicit := 1000; eRandom := 0xabcdef;
     eNewMessage := Some 1280; eSendTo := OT_ERROR_NONE |}.

(** The 48 bytes of the IPv6 and UDP headers that precede the DHCPv6 header
    of a received datagram. *)
Definition pre48 : list Z := replicate 48 0.

(** The options of a Reply as the agent sends it for one address. *)
Definition replyOptions (addr preferred valid : Z) : list (Z * list Z) :=
  [ (kOptionServerIdentifier, ownDuid 0x00aabbccddeeff00);
    (kOptionClientIdentifier, ownDuid nodeEui64);
    (kOptionRapidCommit, []);
    (kOptionIaNa, IaNa_payload 0 0 0 addr preferred valid) ].

Definition replyA : Message :=
  datagram pre48 kTypeReply 0x123456 (replyOptions addressA 1800 3600).

(** One prefix appears, the timer fires, the reply arrives, the prefix is
    withdrawn. *)
Definition runConfigured : Client :=
  UpdateAddresses [NetworkData.mkConfig prefixA true 0x4400] 0x123456 (Client_init 1 0).

Definition runSoliciting : Client :=
  snd (HandleTrickleTimer nodeEui64 runEnv runConfigured).

Definition runReplied : Client :=
  match HandleUdpReceive 8 nodeEui64 runEnv replyA runSoliciting with
  | Some c => c
  | None => runSoliciting
  end.

Definition runWithdrawn : Client := UpdateAddresses [] 0 runReplied.

(** Prefixes A and B are configured and A is served.  While B is being
    solicited, A is withdrawn and the wider prefix Q appears: Q takes the
    slot A has left, before the slot of B. *)
Definition twoConfigured : Client :=
  UpdateAddresses [NetworkData.mkConfig prefixA true 0x4400;
                   NetworkData.mkConfig prefixB true 0x4400] 0x123456 (Client_init 2 0).

Definition twoFirstSoliciting : Client :=
  snd (HandleTrickleTimer nodeEui64 runEnv twoConfigured).

Definition twoFirstReplied : Client :=
  match HandleUdpReceive 8 nodeEui64 runEnv
          (datagram pre48 kTypeReply 0x123456 (replyOptions addressA 1800 3600))
          twoFirstSoliciting with
  | Some c => c
  | None => twoFirstSoliciting
  end.

Definition twoSecondSoliciting : Client :=
  snd (HandleTrickleTimer nodeEui64 runEnv twoFirstReplied).

Definition twoReconfigured : Client :=
  UpdateAddresses [NetworkData.mkConfig prefixQ true 0x4400;
                   NetworkData.mkConfig prefixB true 0x4400] 0 twoSecondSoliciting.

(** Network data with a DHCP prefix of 129 bits, a length the [uint8_t] of
    [otIp6Prefix] admits and no address has. *)
Definition overlongConfigs : list NetworkData.OnMeshPrefixConfig :=
  [NetworkData.mkConfig (mkIp6Prefix (mPrefix prefixA) 129) true 0x4400].


(** The same run when A is withdrawn and no other prefix appears. *)
Definition twoWithdrawn : Client :=
  UpdateAddresses [NetworkData.mkConfig prefixB true 0x4400] 0 twoSecondSoliciting.

(** The options of a Reply for a list of offers, as in [replyOptions]. *)
Definition replyWith (offers : list (Z * Z * Z)) : list (Z * list Z) :=
  [ (kOptionServerIdentifier, ownDuid 0x00aabbccddeeff00);
    (kOptionClientIdentifier, ownDuid nodeEui64);
    (kOptionRapidCommit, []);
    (kOptionIaNa, be_enc 4 0 ++ be_enc 4 0 ++ be_enc 4 0 ++ offers_bytes offers) ].

(** * Properties *)

(** ** Bytes and fields *)

Lemma be_enc_length n x : length (be_enc n x) = n.
Proof. induction n; simpl; congruence. Qed.

Lemma be_dec_snoc bs b : be_dec (bs ++ [b]) = be_dec bs * 256 + b.
Proof. unfold be_dec. rewrite fold_left_app. reflexivity. Qed.

Lemma fold_be_acc bs : forall acc,
  fold_left (fun a b => a * 256 + b) bs acc
  = acc * 256 ^ Z.of_nat (length bs) + be_dec bs.
Proof.
  unfold be_dec. induction bs as [|b bs IH]; intros acc.
  - simpl. lia.
  - cbn [fold_left length]. rewrite IH, (IH (0 * 256 + b)).
    rewrite Nat2Z.inj_succ, Z.pow_succ_r by lia. ring.
Qed.

Lemma be_dec_cons b bs : be_dec (b :: bs) = b * 256 ^ Z.of_nat (length bs) + be_dec bs.
Proof. unfold be_dec at 1. cbn [fold_left]. rewrite fold_be_acc. ring. Qed.

Lemma be_dec_be_enc n x : be_dec (be_enc n x) = x mod 256 ^ Z.of_nat n.
Proof.
  induction n as [|n IH].
  - simpl. symmetry. apply Z.mod_1_r.
  - cbn [be_enc]. rewrite be_dec_cons, be_enc_length, IH.
    rewrite Nat2Z.inj_succ, Z.pow_succ_r by lia.
    set (p := 256 ^ Z.of_nat n). assert (0 < p) by (subst p; lia).
    rewrite (Z.mul_comm 256 p), Z.rem_mul_r by lia. lia.
Qed.

Lemma be_dec_be_enc_small n x :
  0 <= x < 256 ^ Z.of_nat n -> be_dec (be_enc n x) = x.
Proof. intros. rewrite be_dec_be_enc. apply Z.mod_small. assumption. Qed.

Lemma sub_app_skip (A Y : list Z) n :
  sub (A ++ Y) (length A) n = firstn n Y.
Proof.
  unfold sub. f_equal. induction A; simpl; auto.
Qed.

Lemma sub_app_here (A X B : list Z) :
  sub (A ++ X ++ B) (length A) (length X) = X.
Proof.
  rewrite sub_app_skip. induction X; simpl; [reflexivity|]. f_equal. assumption.
Qed.


Lemma sub_length_le bs i n : (length (sub bs i n) <= n)%nat.
Proof. unfold sub. rewrite length_firstn. lia. Qed.

Lemma sub_short bs i n :
  (0 < n)%nat -> (length bs < i + n)%nat -> (length (sub bs i n) < n)%nat.
Proof. unfold sub. rewrite length_firstn, length_skipn. lia. Qed.


Lemma Option_bytes_length code payload :
  length (Option_bytes code payload) = (4 + length payload)%nat.
Proof. unfold Option_bytes. rewrite !length_app, !be_enc_length. lia. Qed.

Lemma Option_header_fields code len rest :
  Option_GetCode (be_enc 2 code ++ be_enc 2 len ++ rest) = code mod 2 ^ 16
  /\ Option_GetLength (be_enc 2 code ++ be_enc 2 len ++ rest) = len mod 2 ^ 16.
Proof.
  unfold Option_GetCode, Option_GetLength. split.
  - change (sub (be_enc 2 code ++ be_enc 2 len ++ rest) 0 2) with (be_enc 2 code).
    apply (be_dec_be_enc 2).
  - change (sub (be_enc 2 code ++ be_enc 2 len ++ rest) 2 2) with (be_enc 2 len).
    apply (be_dec_be_enc 2).
Qed.

(** ** FindOption: what a returned offset is *)

(** A non-zero result designates a complete option header with the code
    searched for, at an offset up to and including the end of the window. *)
Lemma FindOption_loop_sound fuel m end_ code : forall off r,
  FindOption_loop fuel m off end_ code = Some r -> r <> 0 ->
  r <= end_
  /\ bytesRead (Message_Read m r sizeof_Option) = sizeof_Option
  /\ Option_GetCode (Message_Read m r sizeof_Option) = code.
Proof.
  induction fuel as [|fuel IH]; intros off r H Hr; [discriminate|].
  cbn [FindOption_loop] in H.
  destruct (off <=? end_) eqn:Hle; [|congruence].
  destruct (bytesRead (Message_Read m off sizeof_Option) =? sizeof_Option) eqn:Hrd;
    [|congruence].
  destruct (Option_GetCode (Message_Read m off sizeof_Option) =? code) eqn:Hc.
  - injection H as <-. apply Z.leb_le in Hle. apply Z.eqb_eq in Hrd, Hc.
    repeat split; try lia; assumption.
  - eapply IH; eassumption.
Qed.

(** C6: the scan of [FindOption] runs while [aOffset <= end], so an option
    that starts exactly at [aOffset + aLength], the first byte after the
    window, is examined and its offset returned: over a window of four bytes
    at offset 4 that holds one option, the status code that follows the
    window is found at offset 8. *)
Theorem FindOption_returns_option_at_window_end : forall fuel,
  FindOption (S (S fuel)) windowEndMessage 4 4 kOptionStatusCode = Some (4 + 4)
  /\ Option_GetCode (Message_Read windowEndMessage 4 sizeof_Option)
     = kOptionClientIdentifier
  /\ Option_GetCode (Message_Read windowEndMessage (4 + 4) sizeof_Option)
     = kOptionStatusCode.
Proof. intros fuel. repeat split; vm_compute; reflexivity. Qed.

Lemma FindOption_loops_on_wrap : forall fuel,
  FindOption fuel wrappingMessage 4 4 kOptionStatusCode = None.
Proof.
  unfold FindOption. change (u16 (4 + 4)) with 8.
  induction fuel as [|fuel IH]; [reflexivity|].
  cbn [FindOption_loop].
  change (4 <=? 8) with true. cbv iota.
  change (bytesRead (Message_Read wrappingMessage 4 sizeof_Option) =? sizeof_Option)
    with true. cbv iota.
  change (Option_GetCode (Message_Read wrappingMessage 4 sizeof_Option)
          =? kOptionStatusCode) with false. cbv iota.
  change (u16 (4 + (sizeof_Option
                    + Option_GetLength (Message_Read wrappingMessage 4 sizeof_Option))))
    with 4.
  exact IH.
Qed.

(** ** The window of an IA_NA container *)

Lemma u16_small x : 0 <= x < 2 ^ 16 -> u16 x = x.
Proof. intros. unfold u16. apply Z.mod_small. assumption. Qed.

Lemma u16_range x : 0 <= u16 x < 2 ^ 16.
Proof. unfold u16. apply Z.mod_pos_bound. lia. Qed.

Lemma IaNa_window_wraps option :
  0 <= Option_GetLength option < sizeof_IaNa - sizeof_Option ->
  IaNa_window option
  = Option_GetLength option + 2 ^ 16 - (sizeof_IaNa - sizeof_Option).
Proof.
  intros H. unfold IaNa_window, u16, sizeof_IaNa, sizeof_Option in *.
  symmetry. apply Z.mod_unique with (q := -1); lia.
Qed.

Lemma ProcessIaNa_after_read n m aOffset c :
  bytesRead (Message_Read m aOffset sizeof_IaNa) = sizeof_IaNa ->
  ProcessIaNa n m aOffset c
  = if IaNa_window (Message_Read m aOffset sizeof_IaNa)
       <=? GetLength m - u16 (aOffset + sizeof_IaNa)
    then ProcessIaNa_options n m (u16 (aOffset + sizeof_IaNa))
           (IaNa_window (Message_Read m aOffset sizeof_IaNa)) c
    else Some (OT_ERROR_PARSE, c).
Proof. intros Hread. unfold ProcessIaNa. rewrite Hread, Z.eqb_refl. reflexivity. Qed.

(** C10: when the container declares a length below the size of its fixed
    fields, the window is the 16-bit wrap of the difference, a value in the
    last twelve below 2^16; this is no parse failure by itself, and
    [ProcessIaNa] returns the parse error exactly when the wrapped window
    exceeds the bytes that remain after the container's fixed fields,
    otherwise it goes on to the nested options with that window. *)
Theorem ProcessIaNa_short_declared_length n m aOffset c :
  bytesRead (Message_Read m aOffset sizeof_IaNa) = sizeof_IaNa ->
  0 <= Option_GetLength (Message_Read m aOffset sizeof_IaNa)
    < sizeof_IaNa - sizeof_Option ->
  let window := IaNa_window (Message_Read m aOffset sizeof_IaNa) in
  let remaining := GetLength m - u16 (aOffset + sizeof_IaNa) in
  window = (Option_GetLength (Message_Read m aOffset sizeof_IaNa)
            - (sizeof_IaNa - sizeof_Option)) mod 2 ^ 16
  /\ window = Option_GetLength (Message_Read m aOffset sizeof_IaNa) + 2 ^ 16
              - (sizeof_IaNa - sizeof_Option)
  /\ 2 ^ 16 - (sizeof_IaNa - sizeof_Option) <= window < 2 ^ 16
  /\ (remaining < window -> ProcessIaNa n m aOffset c = Some (OT_ERROR_PARSE, c))
  /\ (window <= remaining ->
      ProcessIaNa n m aOffset c
      = ProcessIaNa_options n m (u16 (aOffset + sizeof_IaNa)) window c).
Proof.
  intros Hread Hlen window remaining.
  pose proof (IaNa_window_wraps _ Hlen) as Hw. fold window in Hw.
  split; [reflexivity|]. split; [exact Hw|]. split; [lia|].
  rewrite (ProcessIaNa_after_read n m aOffset c Hread). fold window. fold remaining.
  split; intros H.
  - destruct (Z.leb_spec window remaining); [lia|reflexivity].
  - destruct (Z.leb_spec window remaining); [reflexivity|lia].
Qed.

(** In a message whose length fits the 16 bits of [GetLength], the wrapped
    window always exceeds what remains. *)
Lemma short_IaNa_is_rejected n m aOffset c :
  0 <= aOffset -> GetLength m < 2 ^ 16 ->
  bytesRead (Message_Read m aOffset sizeof_IaNa) = sizeof_IaNa ->
  0 <= Option_GetLength (Message_Read m aOffset sizeof_IaNa)
    < sizeof_IaNa - sizeof_Option ->
  ProcessIaNa n m aOffset c = Some (OT_ERROR_PARSE, c).
Proof.
  intros Hoff Hlen Hread Hdecl.
  rewrite (ProcessIaNa_after_read n m aOffset c Hread).
  pose proof (IaNa_window_wraps _ Hdecl) as Hw.
  assert (aOffset + sizeof_IaNa <= GetLength m) as Hfit.
  { unfold bytesRead, Message_Read, GetLength, sizeof_IaNa in *.
    destruct (Z.le_gt_cases (aOffset + 16) (Z.of_nat (length (mData m)))) as [|Hgt];
      [assumption|].
    pose proof (sub_short (mData m) (Z.to_nat aOffset) (Z.to_nat 16)) as Hs.
    lia. }
  rewrite u16_small by (unfold sizeof_IaNa in *; lia).
  destruct (Z.leb_spec (IaNa_window (Message_Read m aOffset sizeof_IaNa))
              (GetLength m - (aOffset + sizeof_IaNa))); [|reflexivity].
  unfold sizeof_IaNa, sizeof_Option in *. lia.
Qed.

Lemma ProcessIaNa_short_declared_length_witness :
  IaNa_window (Message_Read shortIaNaMessage 4 sizeof_IaNa) = 65524
  /\ ProcessIaNa 1 shortIaNaMessage 4 (Client_init 1 0)
     = Some (OT_ERROR_PARSE, Client_init 1 0).
Proof.
  pose proof (ProcessIaNa_short_declared_length 1 shortIaNaMessage 4 (Client_init 1 0))
    as H.
  cbv zeta in H.
  destruct H as (_ & Hw & _ & Hrej & _).
  - vm_compute. reflexivity.
  - vm_compute. split; [discriminate|reflexivity].
  - split.
    + rewrite Hw. vm_compute. reflexivity.
    + apply Hrej. vm_compute. reflexivity.
Defined.

(** ** The IA_NA container of a Solicit *)

Lemma Message_Append_fits room m bs :
  GetLength m + Z.of_nat (length bs) <= room ->
  Message_Append room m bs = (OT_ERROR_NONE, appended m bs).
Proof.
  intros H. unfold Message_Append.
  destruct (Z.leb_spec (GetLength m + Z.of_nat (length bs)) room);
    [reflexivity|lia].
Qed.

Lemma appended_nil m : appended m [] = m.
Proof. destruct m. unfold appended. simpl. rewrite app_nil_r. reflexivity. Qed.

Lemma appended_app m a b : appended (appended m a) b = appended m (a ++ b).
Proof. unfold appended. simpl. rewrite app_assoc. reflexivity. Qed.

Lemma countAssociations_filter aRloc16 ias : forall count,
  0 <= count ->
  count + Z.of_nat (length (List.filter (solicited aRloc16) ias)) <= 255 ->
  countAssociations aRloc16 ias count
  = count + Z.of_nat (length (List.filter (solicited aRloc16) ias)).
Proof.
  induction ias as [|ia ias IH]; intros count H0 H; cbn [countAssociations List.filter].
  - simpl. lia.
  - unfold solicited at 1. cbn [List.filter] in H. unfold solicited at 1 in H.
    destruct (IaStatus_eqb (mStatus ia) kIaStatusInvalid); cbn [orb negb andb] in *;
      [apply IH; assumption|].
    destruct (IaStatus_eqb (mStatus ia) kIaStatusSolicitReplied);
      cbn [orb negb andb] in *; [apply IH; assumption|].
    destruct (mPrefixAgentRloc ia =? aRloc16); [|apply IH; assumption].
    cbn [length] in *. rewrite Nat2Z.inj_succ in *.
    assert (u8 (count + 1) = count + 1) as ->
      by (unfold u8; apply Z.mod_small; lia).
    rewrite IH; lia.
Qed.

Lemma IaAddress_bytes_length a p v : length (IaAddress_bytes a p v) = 28%nat.
Proof. unfold IaAddress_bytes. rewrite !length_app, !be_enc_length. reflexivity. Qed.

Lemma IaAddress_options_length aRloc16 ias :
  length (IaAddress_options aRloc16 ias)
  = (28 * length (List.filter (solicited aRloc16) ias))%nat.
Proof.
  unfold IaAddress_options.
  induction (List.filter (solicited aRloc16) ias) as [|ia l IH]; [reflexivity|].
  cbn [flat_map]. rewrite length_app, IaAddress_bytes_length, IH. simpl. lia.
Qed.

Lemma AppendIaAddress_loop_fits room aRloc16 ias : forall m,
  GetLength m + Z.of_nat (length (IaAddress_options aRloc16 ias)) <= room ->
  AppendIaAddress_loop room aRloc16 ias m
  = (OT_ERROR_NONE, appended m (IaAddress_options aRloc16 ias)).
Proof.
  unfold IaAddress_options.
  induction ias as [|ia ias IH]; intros m H; cbn [AppendIaAddress_loop List.filter].
  - simpl. rewrite appended_nil. reflexivity.
  - cbn [List.filter] in H. unfold solicited at 1. unfold solicited at 1 in H.
    assert (IaStatus_eqb (mStatus ia) kIaStatusSolicit
            || IaStatus_eqb (mStatus ia) kIaStatusSoliciting
            = negb (IaStatus_eqb (mStatus ia) kIaStatusInvalid)
              && negb (IaStatus_eqb (mStatus ia) kIaStatusSolicitReplied)) as ->
      by (destruct (mStatus ia); reflexivity).
    destruct (negb (IaStatus_eqb (mStatus ia) kIaStatusInvalid)
              && negb (IaStatus_eqb (mStatus ia) kIaStatusSolicitReplied)
              && (mPrefixAgentRloc ia =? aRloc16)); [|apply IH; assumption].
    cbn [flat_map] in *. rewrite length_app in H.
    rewrite Message_Append_fits by lia. cbn [andThen].
    rewrite IH.
    + rewrite appended_app. reflexivity.
    + unfold GetLength, appended in *. cbn [mData].
      rewrite length_app. lia.
Qed.

(** C8: the length written into the IA_NA container of a Solicit for
    locator [aRloc16] is the size of the container's fixed fields plus [k]
    times the size of an IaAddress option, [k] being the number of
    associations that are neither invalid nor replied and belong to that
    agent, and [AppendIaAddress] then appends exactly those [k] options, each
    with both lifetimes zero.  The counter is a [uint8_t], so [k] is at most
    255, and the message has room for what is appended. *)
Theorem AppendIaNa_length_covers_addresses room c aRloc16 m :
  let k := Z.of_nat (length (List.filter (solicited aRloc16) (mIdentityAssociations c))) in
  mIdentityAssociationCurrent c <> None ->
  k <= 255 ->
  GetLength m + sizeof_IaNa + k * sizeof_IaAddress <= room ->
  let m1 := appended m (IaNa_bytes ((sizeof_IaNa - sizeof_Option) + k * sizeof_IaAddress)
                          0 0 0) in
  AppendIaNa room c aRloc16 m = (OT_ERROR_NONE, m1)
  /\ Option_GetLength (Message_Read m1 (GetLength m) sizeof_IaNa)
     = (sizeof_IaNa - sizeof_Option) + k * sizeof_IaAddress
  /\ AppendIaAddress room c aRloc16 m1
     = (OT_ERROR_NONE,
        appended m1
          (flat_map (fun ia => IaAddress_bytes (mAddress (mNetifAddress ia)) 0 0)
             (List.filter (solicited aRloc16) (mIdentityAssociations c)))).
Proof.
  intros k Hcur Hk Hcap m1.
  assert (0 <= k) as Hk0 by (subst k; lia).
  assert (IaNa_length aRloc16 (mIdentityAssociations c)
          = (sizeof_IaNa - sizeof_Option) + k * sizeof_IaAddress) as Hlen.
  { unfold IaNa_length. rewrite countAssociations_filter by (fold k; lia).
    fold k. unfold sizeof_IaNa, sizeof_IaAddress, sizeof_Option in *.
    rewrite u16_small; lia. }
  assert (length (IaNa_bytes ((sizeof_IaNa - sizeof_Option) + k * sizeof_IaAddress) 0 0 0)
          = 16%nat) as Hsz
    by (unfold IaNa_bytes; rewrite !length_app, !be_enc_length; reflexivity).
  split; [|split].
  - unfold AppendIaNa. destruct (mIdentityAssociationCurrent c); [|congruence].
    rewrite Hlen. apply Message_Append_fits. rewrite Hsz.
    unfold sizeof_IaNa, sizeof_IaAddress in *. lia.
  - unfold Message_Read, GetLength, m1, appended. cbn [mData].
    rewrite Nat2Z.id. change (Z.to_nat sizeof_IaNa) with 16%nat.
    rewrite sub_app_skip, firstn_all2 by (rewrite Hsz; lia). unfold IaNa_bytes.
    destruct (Option_header_fields kOptionIaNa
                ((sizeof_IaNa - sizeof_Option) + k * sizeof_IaAddress)
                (be_enc 4 0 ++ be_enc 4 0 ++ be_enc 4 0)) as [_ ->].
    apply Z.mod_small. unfold sizeof_IaNa, sizeof_IaAddress, sizeof_Option in *. lia.
  - unfold AppendIaAddress. destruct (mIdentityAssociationCurrent c); [|congruence].
    apply AppendIaAddress_loop_fits.
    rewrite IaAddress_options_length. fold k.
    unfold GetLength, m1, appended in *. cbn [mData].
    rewrite length_app, Hsz. unfold sizeof_IaNa, sizeof_IaAddress in *. lia.
Qed.

Lemma AppendIaNa_length_covers_addresses_witness :
  AppendIaNa 1280 solicitClient 0x4400 (mkMessage [] 0)
  = (OT_ERROR_NONE, appended (mkMessage [] 0) (IaNa_bytes (12 + 2 * 28) 0 0 0)).
Proof.
  pose proof (AppendIaNa_length_covers_addresses 1280 solicitClient 0x4400
                (mkMessage [] 0)) as H.
  cbv zeta in H. destruct H as [H _].
  - discriminate.
  - vm_compute. discriminate.
  - vm_compute. discriminate.
  - exact H.
Defined.

(** ** Reconciliation *)

Lemma removeAddresses_invalid configs ias :
  Forall isInvalid ias -> removeAddresses configs ias = (ias, []).
Proof.
  induction 1 as [|ia ias Hia _ IH]; [reflexivity|].
  cbn [removeAddresses]. rewrite IH. unfold isInvalid in Hia. rewrite Hia. reflexivity.
Qed.

Lemma findAssociation_invalid_rest p ias : forall i j,
  Forall isInvalid ias -> findAssociation p ias i (Some j) = (false, Some j).
Proof.
  induction ias as [|ia ias IH]; intros i j H; [reflexivity|].
  inversion H as [|? ? Hia Hrest]; subst. cbn [findAssociation].
  unfold isInvalid in Hia. rewrite Hia. cbn [IaStatus_eqb]. apply IH. assumption.
Qed.

Lemma findAssociation_skip p l1 l2 : forall i cand,
  Forall (fun ia => mStatus ia <> kIaStatusInvalid
                    /\ MatchNetifAddressWithPrefix (mNetifAddress ia) p = false) l1 ->
  findAssociation p (l1 ++ l2) i cand = findAssociation p l2 (i + length l1)%nat cand.
Proof.
  induction l1 as [|ia l1 IH]; intros i cand H.
  - simpl. f_equal. lia.
  - inversion H as [|? ? [Hs Hm] Hrest]; subst. cbn [app findAssociation length].
    rewrite Hm. destruct (mStatus ia); try congruence;
      cbn [IaStatus_eqb]; rewrite IH by assumption; f_equal; lia.
Qed.

Lemma alter_app_here {A} (f : A -> A) (l1 : list A) x l2 :
  alter f (length l1) (l1 ++ x :: l2) = l1 ++ f x :: l2.
Proof. induction l1 as [|y l1 IH]; simpl; [reflexivity|]. f_equal. exact IH. Qed.

(** The second loop over prefixes that no claimed slot matches and that are
    pairwise distinct: each takes the next free slot while one is left. *)
Lemma addPrefixes_fresh configs : forall claimed free,
  forallb NetworkData.mDhcp configs = true ->
  distinctPrefixes (map NetworkData.mPrefix configs) = true ->
  Forall isInvalid free ->
  Forall (fun ia => mStatus ia <> kIaStatusInvalid
                    /\ Forall (fun config =>
                         MatchNetifAddressWithPrefix (mNetifAddress ia)
                           (NetworkData.mPrefix config) = false) configs) claimed ->
  addPrefixes configs (claimed ++ free)
  = claimed ++ zip_with served configs free ++ drop (length configs) free.
Proof.
  induction configs as [|config configs IH]; intros claimed free Hd Hdist Hfree Hcl.
  - reflexivity.
  - cbn [forallb map distinctPrefixes] in Hd, Hdist.
    apply andb_prop in Hd as [Hd1 Hd]. apply andb_prop in Hdist as [Hnew Hdist].
    unfold addPrefixes in *. cbn [fold_left]. unfold addPrefix at 2.
    rewrite Hd1. cbn [negb].
    rewrite findAssociation_skip
      by (eapply Forall_impl; [exact Hcl|]; intros ia [? Hall];
          split; [assumption|]; inversion Hall; assumption).
    destruct free as [|f free].
    + cbn [findAssociation]. rewrite app_nil_r.
      rewrite <- (app_nil_r claimed) at 1.
      rewrite IH; [destruct configs; rewrite ?app_nil_r; reflexivity
                  |assumption|assumption|constructor|].
      eapply Forall_impl; [exact Hcl|]. intros ia [? Hall].
      split; [assumption|]. inversion Hall; assumption.
    + inversion Hfree as [|? ? Hf Hfree']; subst.
      cbn [findAssociation]. unfold isInvalid in Hf. rewrite Hf. cbn [IaStatus_eqb].
      rewrite findAssociation_invalid_rest by assumption.
      rewrite Nat.add_0_l, !alter_app_here.
      change (setPrefixAgentRloc (NetworkData.mRloc16 config)
                (claim (NetworkData.mPrefix config) f)) with (served config f).
      replace (claimed ++ served config f :: free)
        with ((claimed ++ [served config f]) ++ free)
        by (rewrite <- app_assoc; reflexivity).
      rewrite IH; [rewrite <- app_assoc; reflexivity|assumption|assumption|assumption|].
      apply Forall_app. split.
      * eapply Forall_impl; [exact Hcl|]. intros ia [? Hall].
        split; [assumption|]. inversion Hall; assumption.
      * constructor; [|constructor]. split; [discriminate|].
        rewrite forallb_forall in Hnew. apply Forall_forall. intros config' Hin.
        apply list_elem_of_In in Hin.
        specialize (Hnew (NetworkData.mPrefix config')
                      (in_map NetworkData.mPrefix _ _ Hin)).
        apply negb_true_iff in Hnew. exact Hnew.
Qed.

Lemma distinctPrefixes_lookup ps : forall i j p q,
  distinctPrefixes ps = true -> (i < j)%nat ->
  ps !! i = Some p -> ps !! j = Some q -> samePrefix p q = false.
Proof.
  induction ps as [|p0 ps IH]; intros i j p q Hd Hij Hi Hj; [discriminate|].
  cbn [distinctPrefixes] in Hd. apply andb_prop in Hd as [Hhd Htl].
  destruct i as [|i]; destruct j as [|j]; try lia; simpl in Hi, Hj.
  - injection Hi as <-. rewrite forallb_forall in Hhd.
    apply negb_true_iff, Hhd, list_elem_of_In, list_elem_of_lookup. eauto.
  - eapply (IH i j); eauto. lia.
Qed.

Lemma ProcessNextIdentityAssociation_keeps aRandom c :
  mIdentityAssociations (snd (ProcessNextIdentityAssociation aRandom c))
  = mIdentityAssociations c
  /\ netifCalls (snd (ProcessNextIdentityAssociation aRandom c)) = netifCalls c
  /\ sentMessages (snd (ProcessNextIdentityAssociation aRandom c)) = sentMessages c.
Proof.
  unfold ProcessNextIdentityAssociation.
  destruct (currentStatus c) as [[]|];
    try destruct (firstSolicit _ _); repeat split; reflexivity.
Qed.

Lemma Start_keeps aRandom c :
  mIdentityAssociations (Start aRandom c) = mIdentityAssociations c
  /\ netifCalls (Start aRandom c) = netifCalls c
  /\ sentMessages (Start aRandom c) = sentMessages c.
Proof.
  unfold Start. destruct (mSocketBound c); [repeat split; reflexivity|].
  apply (ProcessNextIdentityAssociation_keeps aRandom (withSocketBound true c)).
Qed.

Lemma UpdateAddresses_associations configs aRandom c :
  mIdentityAssociations (UpdateAddresses configs aRandom c)
  = addPrefixes configs (fst (removeAddresses configs (mIdentityAssociations c)))
  /\ netifCalls (UpdateAddresses configs aRandom c)
     = netifCalls c ++ snd (removeAddresses configs (mIdentityAssociations c)).
Proof.
  unfold UpdateAddresses.
  destruct (removeAddresses configs (mIdentityAssociations c)) as [ias1 calls].
  destruct (doesAgentExist configs).
  - destruct (Start_keeps aRandom
                (withAssociations (addPrefixes configs ias1)
                   (withNetifCalls calls (withAssociations ias1 c)))) as (-> & -> & _).
    split; reflexivity.
  - split; reflexivity.
Qed.

Lemma zip_with_longer {A B C} (f : A -> B -> C) (l : list A) (k : list B) :
  zip_with f l k = zip_with f (take (length k) l) k.
Proof.
  revert k. induction l as [|x l IH]; intros [|y k]; simpl; try reflexivity.
  f_equal. apply IH.
Qed.

(** C9: a pool of [N] invalid slots reconciled with [N+1] pairwise distinct
    DHCP prefixes gives slot [i] to the [i]-th prefix, for every [i < N]:
    the slot holds the prefix and its length, waits to solicit, has
    [mValidLifetime = 0] and the agent locator of its prefix.  The last
    prefix finds no slot: no association matches it, handling it leaves the
    pool as it is, and the interface table is not called. *)
Theorem UpdateAddresses_exhaustion configs aRandom c :
  Forall isInvalid (mIdentityAssociations c) ->
  length configs = S (length (mIdentityAssociations c)) ->
  forallb NetworkData.mDhcp configs = true ->
  distinctPrefixes (map NetworkData.mPrefix configs) = true ->
  let N := length (mIdentityAssociations c) in
  let c' := UpdateAddresses configs aRandom c in
  mIdentityAssociations c'
  = zip_with served (take N configs) (mIdentityAssociations c)
  /\ length (mIdentityAssociations c') = N
  /\ (forall i ia, mIdentityAssociations c' !! i = Some ia ->
        (i < N)%nat
        /\ exists config, configs !! i = Some config
           /\ mAddress (mNetifAddress ia) = mPrefix (NetworkData.mPrefix config)
           /\ mPrefixLength (mNetifAddress ia) = mLength (NetworkData.mPrefix config)
           /\ mStatus ia = kIaStatusSolicit
           /\ mValidLifetime ia = 0
           /\ mPrefixAgentRloc ia = NetworkData.mRloc16 config)
  /\ (forall last, configs !! N = Some last ->
        Forall (fun ia => MatchNetifAddressWithPrefix (mNetifAddress ia)
                            (NetworkData.mPrefix last) = false)
          (mIdentityAssociations c')
        /\ addPrefix (mIdentityAssociations c') last = mIdentityAssociations c')
  /\ netifCalls c' = netifCalls c.
Proof.
  intros Hinv Hlen Hdhcp Hdist N c'.
  destruct (UpdateAddresses_associations configs aRandom c) as [Hpool Hcalls].
  fold c' in Hpool, Hcalls.
  rewrite removeAddresses_invalid in Hpool, Hcalls by assumption.
  cbn [fst snd] in Hpool, Hcalls. rewrite app_nil_r in Hcalls.
  pose proof (addPrefixes_fresh configs [] (mIdentityAssociations c)
                Hdhcp Hdist Hinv (List.Forall_nil _)) as Hadd.
  cbn [app] in Hadd. rewrite drop_ge, app_nil_r in Hadd by lia.
  rewrite zip_with_longer in Hadd. fold N in Hadd. rewrite Hadd in Hpool.
  assert (forall i ia, mIdentityAssociations c' !! i = Some ia ->
            (i < N)%nat /\ exists config old, configs !! i = Some config
                           /\ ia = served config old) as Hslot.
  { intros i ia Hi. rewrite Hpool in Hi.
    apply lookup_zip_with_Some in Hi as (config & old & -> & Hc & Ho).
    apply lookup_take_Some in Hc as [Hc HiN]. split; [assumption|]. eauto. }
  split; [exact Hpool|]. split.
  { rewrite Hpool, length_zip_with, length_take. lia. }
  split.
  { intros i ia Hi. destruct (Hslot i ia Hi) as (HiN & config & old & Hc & ->).
    split; [assumption|]. exists config. repeat split; assumption || reflexivity. }
  split; [|exact Hcalls].
  intros last Hlast.
  assert (Forall (fun ia => mStatus ia <> kIaStatusInvalid
                    /\ MatchNetifAddressWithPrefix (mNetifAddress ia)
                         (NetworkData.mPrefix last) = false)
            (mIdentityAssociations c')) as Hno.
  { apply Forall_lookup. intros i ia Hi.
    destruct (Hslot i ia Hi) as (HiN & config & old & Hc & ->).
    split; [discriminate|].
    apply (distinctPrefixes_lookup (map NetworkData.mPrefix configs) i N); auto.
    - rewrite list_lookup_fmap, Hc. reflexivity.
    - rewrite list_lookup_fmap, Hlast. reflexivity. }
  split.
  - eapply Forall_impl; [exact Hno|]. intros ia [_ H]. exact H.
  - unfold addPrefix.
    rewrite forallb_forall in Hdhcp.
    rewrite (Hdhcp last)
      by (apply list_elem_of_In, list_elem_of_lookup; eauto).
    cbn [negb].
    rewrite <- (app_nil_r (mIdentityAssociations c')) at 1.
    rewrite findAssociation_skip by assumption. reflexivity.
Qed.

Lemma UpdateAddresses_exhaustion_witness :
  mIdentityAssociations (UpdateAddresses exhaustionConfigs 7 (Client_init 2 0))
  = zip_with served (take 2 exhaustionConfigs) (replicate 2 zeroAssociation).
Proof.
  pose proof (UpdateAddresses_exhaustion exhaustionConfigs 7 (Client_init 2 0)) as H.
  cbv zeta in H. destruct H as [H _].
  - repeat constructor.
  - reflexivity.
  - reflexivity.
  - vm_compute. reflexivity.
  - exact H.
Defined.

(** *** Withdrawal of the last prefix *)

Lemma prefixInNetworkData_no_agent ia configs :
  doesAgentExist configs = false -> prefixInNetworkData ia configs = false.
Proof.
  unfold doesAgentExist. induction configs as [|config configs IH]; [reflexivity|].
  cbn [existsb prefixInNetworkData]. intros H. apply orb_false_elim in H as [-> H].
  cbn [negb]. apply IH. exact H.
Qed.

Lemma addPrefixes_no_agent configs : forall ias,
  doesAgentExist configs = false -> addPrefixes configs ias = ias.
Proof.
  unfold doesAgentExist, addPrefixes.
  induction configs as [|config configs IH]; intros ias H; [reflexivity|].
  cbn [existsb fold_left] in *. apply orb_false_elim in H as [Hd H].
  unfold addPrefix at 2. rewrite Hd. cbn [negb]. apply IH. exact H.
Qed.

Lemma removeAddresses_single configs :
  doesAgentExist configs = false ->
  forall ias i ia,
  ias !! i = Some ia ->
  mStatus ia <> kIaStatusInvalid ->
  (forall j ia', j <> i -> ias !! j = Some ia' -> isInvalid ia') ->
  removeAddresses configs ias
  = if mValidLifetime ia =? 0 then (ias, [])
    else (<[i := setStatus kIaStatusInvalid ia]> ias,
          [RemoveUnicastAddress (mNetifAddress ia)]).
Proof.
  intros Hno. induction ias as [|x ias IH]; intros i ia Hi Hs Hothers; [discriminate|].
  destruct i as [|i]; cbn [removeAddresses].
  - injection Hi as ->.
    rewrite removeAddresses_invalid.
    + rewrite (prefixInNetworkData_no_agent _ _ Hno).
      destruct (mStatus ia) eqn:E; try congruence; cbn [IaStatus_eqb orb];
        destruct (mValidLifetime ia =? 0); reflexivity.
    + apply Forall_lookup. intros j ia' Hj. apply (Hothers (S j)); [lia|exact Hj].
  - rewrite (IH i ia Hi Hs)
      by (intros j ia' Hj Hl; apply (Hothers (S j)); [lia|exact Hl]).
    assert (isInvalid x) as Hx by (apply (Hothers 0%nat); [lia|reflexivity]).
    unfold isInvalid in Hx. rewrite Hx. cbn [IaStatus_eqb orb].
    destruct (mValidLifetime ia =? 0); reflexivity.
Qed.

(** Counterexample to C3: the only association is soliciting with
    [mValidLifetime = 0] and the network data holds no prefix at all; the
    first loop of [UpdateAddresses] skips it, so it stays soliciting and the
    interface table is not called. *)
Lemma UpdateAddresses_skips_unassigned_association :
  let c' := UpdateAddresses [] 0 solicitingClient in
  (mStatus <$> mIdentityAssociations solicitingClient !! 0%nat) = Some kIaStatusSoliciting
  /\ (mValidLifetime <$> mIdentityAssociations solicitingClient !! 0%nat) = Some 0
  /\ (mStatus <$> mIdentityAssociations c' !! 0%nat) <> Some kIaStatusInvalid
  /\ (mStatus <$> mIdentityAssociations c' !! 0%nat) = Some kIaStatusSoliciting
  /\ netifCalls c' = [].
Proof. repeat split; try reflexivity. discriminate. Qed.

(** C3, amended: with a single valid association and no DHCP prefix left in
    the network data, [UpdateAddresses] closes the socket; an association
    that was assigned an address ([mValidLifetime <> 0]) becomes invalid and
    its address is removed from the interface; one with [mValidLifetime = 0],
    still waiting or soliciting, is skipped and left as it is. *)
Theorem UpdateAddresses_withdrawal configs aRandom c i ia :
  mIdentityAssociations c !! i = Some ia ->
  mStatus ia <> kIaStatusInvalid ->
  (forall j ia', j <> i -> mIdentityAssociations c !! j = Some ia' -> isInvalid ia') ->
  doesAgentExist configs = false ->
  let c' := UpdateAddresses configs aRandom c in
  mSocketBound c' = false
  /\ (mValidLifetime ia <> 0 ->
      mIdentityAssociations c'
      = <[i := setStatus kIaStatusInvalid ia]> (mIdentityAssociations c)
      /\ netifCalls c' = netifCalls c ++ [RemoveUnicastAddress (mNetifAddress ia)])
  /\ (mValidLifetime ia = 0 ->
      mIdentityAssociations c' = mIdentityAssociations c
      /\ netifCalls c' = netifCalls c).
Proof.
  intros Hi Hs Hothers Hno c'.
  destruct (UpdateAddresses_associations configs aRandom c) as [Hpool Hcalls].
  fold c' in Hpool, Hcalls.
  rewrite (removeAddresses_single configs Hno _ i ia Hi Hs Hothers) in Hpool, Hcalls.
  rewrite addPrefixes_no_agent in Hpool by assumption.
  split.
  - subst c'. unfold UpdateAddresses.
    destruct (removeAddresses configs (mIdentityAssociations c)).
    rewrite Hno. reflexivity.
  - split; intros Hv.
    + destruct (Z.eqb_spec (mValidLifetime ia) 0); [congruence|].
      split; assumption.
    + destruct (Z.eqb_spec (mValidLifetime ia) 0); [|congruence].
      cbn [fst snd] in *. rewrite app_nil_r in Hcalls. split; assumption.
Qed.

Lemma UpdateAddresses_withdrawal_witness :
  let c' := UpdateAddresses [] 0 repliedClient in
  mSocketBound c' = false
  /\ (mStatus <$> mIdentityAssociations c' !! 0%nat) = Some kIaStatusInvalid
  /\ netifCalls c'
     = [RemoveUnicastAddress
          {| mAddress := 0xfd000db8000000010000000000001234; mPrefixLength := 64;
             mAddressOrigin := OT_ADDRESS_ORIGIN_DHCPV6;
             mPreferred := true; mValid := true |}].
Proof.
  destruct (UpdateAddresses_withdrawal [] 0 repliedClient 0%nat
              {| mNetifAddress :=
                   {| mAddress := 0xfd000db8000000010000000000001234;
                      mPrefixLength := 64;
                      mAddressOrigin := OT_ADDRESS_ORIGIN_DHCPV6;
                      mPreferred := true; mValid := true |};
                 mPreferredLifetime := 1800; mValidLifetime := 3600;
                 mPrefixAgentRloc := 0x4400; mStatus := kIaStatusSolicitReplied |})
    as (Hsock & Hrem & _).
  - reflexivity.
  - discriminate.
  - intros [|j] ia' Hj Hl; [congruence|discriminate].
  - reflexivity.
  - destruct Hrem as [Hpool Hcalls]; [discriminate|].
    cbv zeta. rewrite Hpool, Hcalls. split; [exact Hsock|]. split; reflexivity.
Defined.

(** ** The client as a transition system *)

Lemma quiet_refl a : quiet a a.
Proof. split; auto. Qed.

Lemma quiet_trans a b d : quiet a b -> quiet b d -> quiet a d.
Proof. intros [H1 H2] [H3 H4]. split; auto. Qed.

Lemma Forall2_quiet_refl ias : Forall2 quiet ias ias.
Proof. induction ias; constructor; auto using quiet_refl. Qed.

Lemma Forall2_quiet_trans l1 l2 l3 :
  Forall2 quiet l1 l2 -> Forall2 quiet l2 l3 -> Forall2 quiet l1 l3.
Proof. apply Forall2_trans. exact quiet_trans. Qed.

Lemma quietly_refl c : quietly c c.
Proof. split; [reflexivity|apply Forall2_quiet_refl]. Qed.

Lemma quietly_trans c1 c2 c3 : quietly c1 c2 -> quietly c2 c3 -> quietly c1 c3.
Proof.
  intros [H1 H2] [H3 H4]. split; [congruence|].
  eapply Forall2_quiet_trans; eassumption.
Qed.

Lemma Forall2_quiet_alter f i ias :
  (forall a, quiet a (f a)) -> Forall2 quiet ias (alter f i ias).
Proof.
  intros Hf. apply Forall2_alter_r; [apply Forall2_quiet_refl|].
  intros x y _ _ H. eapply quiet_trans; [exact H|apply Hf].
Qed.

Lemma quiet_setStatus_invalid a : quiet a (setStatus kIaStatusInvalid a).
Proof. split; [discriminate|]. intros _ [H|H]; discriminate. Qed.

Lemma quiet_claim p a : quiet a (claim p a).
Proof. split; [discriminate|]. intros _ _. reflexivity. Qed.

Lemma quiet_setPrefixAgentRloc r a : quiet a (setPrefixAgentRloc r a).
Proof. split; auto. Qed.

Lemma quiet_applyIaAddress o a : quiet a (applyIaAddress o a).
Proof. split; [discriminate|]. intros _ [H|H]; discriminate. Qed.

Lemma removeAddresses_quiet configs ias :
  Forall2 quiet ias (fst (removeAddresses configs ias)).
Proof.
  induction ias as [|ia ias IH]; [constructor|].
  cbn [removeAddresses]. destruct (removeAddresses configs ias) as [rest calls].
  cbn [fst] in IH.
  destruct (IaStatus_eqb (mStatus ia) kIaStatusInvalid || (mValidLifetime ia =? 0));
    [constructor; auto using quiet_refl|].
  destruct (prefixInNetworkData ia configs); constructor;
    auto using quiet_refl, quiet_setStatus_invalid.
Qed.

Lemma addPrefix_quiet config ias : Forall2 quiet ias (addPrefix ias config).
Proof.
  unfold addPrefix. destruct (negb (NetworkData.mDhcp config));
    [apply Forall2_quiet_refl|].
  destruct (findAssociation (NetworkData.mPrefix config) ias 0 None)
    as [found [i|]]; [|apply Forall2_quiet_refl].
  eapply Forall2_quiet_trans;
    [|apply Forall2_quiet_alter; apply quiet_setPrefixAgentRloc].
  destruct found; [apply Forall2_quiet_refl|].
  apply Forall2_quiet_alter. apply quiet_claim.
Qed.

Lemma addPrefixes_quiet configs : forall ias,
  Forall2 quiet ias (addPrefixes configs ias).
Proof.
  unfold addPrefixes. induction configs as [|config configs IH]; intros ias.
  - apply Forall2_quiet_refl.
  - cbn [fold_left]. eapply Forall2_quiet_trans; [apply addPrefix_quiet|apply IH].
Qed.

Lemma ProcessIaAddress_loop_quiet o ias :
  Forall2 quiet ias (fst (ProcessIaAddress_loop o ias)).
Proof.
  induction ias as [|ia ias IH]; [constructor|].
  cbn [ProcessIaAddress_loop].
  destruct (ProcessIaAddress_loop o ias) as [rest calls]. cbn [fst] in IH.
  destruct (IaStatus_eqb (mStatus ia) kIaStatusInvalid || negb (mValidLifetime ia =? 0));
    [constructor; auto using quiet_refl|].
  destruct (PrefixMatch _ _ >=? _); constructor;
    auto using quiet_refl, quiet_applyIaAddress, Forall2_quiet_refl.
Qed.

Lemma ProcessIaAddress_quietly m off c :
  quietly c (snd (ProcessIaAddress m off c)).
Proof.
  unfold ProcessIaAddress.
  destruct (_ && _); [|apply quietly_refl].
  pose proof (ProcessIaAddress_loop_quiet (Message_Read m off sizeof_IaAddress)
                (mIdentityAssociations c)) as H.
  destruct (ProcessIaAddress_loop _ _) as [ias calls]. split; [reflexivity|exact H].
Qed.

Lemma ProcessIaNa_loop_quietly n m fuel : forall off len c r,
  ProcessIaNa_loop n fuel m off len c = Some r -> quietly c (snd r).
Proof.
  induction fuel as [|fuel IH]; intros off len c r H; [discriminate|].
  cbn [ProcessIaNa_loop] in H.
  destruct (len >? 0); [|injection H as <-; apply quietly_refl].
  destruct (FindOption n m off len kOptionIaAddress) as [o|]; [|discriminate].
  cbn in H. destruct (o =? 0); [injection H as <-; apply quietly_refl|].
  pose proof (ProcessIaAddress_quietly m o c) as Hq.
  destruct (ProcessIaAddress m o c) as [e c1]. cbn [snd] in Hq.
  destruct e; try (injection H as <-; exact Hq).
  eapply quietly_trans; [exact Hq|]. eapply IH. exact H.
Qed.

Lemma ProcessIaNa_quietly n m off c r :
  ProcessIaNa n m off c = Some r -> quietly c (snd r).
Proof.
  unfold ProcessIaNa, ProcessIaNa_options. intros H.
  destruct (_ =? _); [|injection H as <-; apply quietly_refl].
  destruct (_ <=? _); [|injection H as <-; apply quietly_refl].
  destruct (FindOption _ _ _ _ _) as [o|]; [|discriminate]. cbn in H.
  destruct (if o >? 0 then _ else _);
    try (injection H as <-; apply quietly_refl).
  eapply ProcessIaNa_loop_quietly. exact H.
Qed.

(** *** The two invariants *)

Lemma invariant_quietly c c' : invariant c -> quietly c c' -> invariant c'.
Proof.
  intros [Hcur Hun] [Hc Hq]. split.
  - intros i ib Hi Hs.
    destruct (Forall2_lookup_r _ _ _ _ _ Hq Hi) as (ia & Hia & [H1 _]).
    rewrite Hc. eapply Hcur; eauto.
  - apply Forall_lookup. intros i ib Hi.
    destruct (Forall2_lookup_r _ _ _ _ _ Hq Hi) as (ia & Hia & [_ H2]).
    apply H2. rewrite Forall_lookup in Hun. eauto.
Qed.

Lemma invariant_same_associations c c' :
  mIdentityAssociations c' = mIdentityAssociations c ->
  mIdentityAssociationCurrent c' = mIdentityAssociationCurrent c ->
  invariant c -> invariant c'.
Proof.
  intros Hp Hc Hinv. apply (invariant_quietly c); [assumption|].
  split; [assumption|]. rewrite Hp. apply Forall2_quiet_refl.
Qed.

Lemma invariant_none_soliciting c :
  invariant c -> currentStatus c <> Some kIaStatusSoliciting ->
  forall i ia, mIdentityAssociations c !! i = Some ia ->
               mStatus ia <> kIaStatusSoliciting.
Proof.
  intros [Hcur _] Hne i ia Hi Hs. apply Hne.
  unfold currentStatus. rewrite (Hcur i ia Hi Hs), Hi. cbn. congruence.
Qed.

Lemma ProcessNextIdentityAssociation_invariant aRandom c :
  invariant c -> invariant (snd (ProcessNextIdentityAssociation aRandom c)).
Proof.
  intros Hinv. unfold ProcessNextIdentityAssociation.
  destruct (currentStatus c) as [s|] eqn:Hs.
  - destruct s; try exact Hinv;
      (destruct (firstSolicit _ _); cbn [snd];
       [|eapply invariant_same_associations; [| |exact Hinv]; reflexivity];
       split; [|exact (proj2 Hinv)];
       intros i ia Hi Hsol; exfalso;
       eapply (invariant_none_soliciting c Hinv); [rewrite Hs; discriminate| |];
       eassumption).
  - destruct (firstSolicit _ _); cbn [snd];
      [|eapply invariant_same_associations; [| |exact Hinv]; reflexivity].
    split; [|exact (proj2 Hinv)].
    intros i ia Hi Hsol. exfalso.
    eapply (invariant_none_soliciting c Hinv); [rewrite Hs; discriminate| |];
      eassumption.
Qed.

Lemma Solicit_keeps eui64 env r c :
  mIdentityAssociations (Solicit eui64 env r c) = mIdentityAssociations c
  /\ mIdentityAssociationCurrent (Solicit eui64 env r c) = mIdentityAssociationCurrent c
  /\ netifCalls (Solicit eui64 env r c) = netifCalls c.
Proof.
  unfold Solicit. destruct (eNewMessage env); [|auto].
  destruct (andThen _ _) as [[] ?]; auto. destruct (eSendTo env); auto.
Qed.

Lemma HandleTrickleTimer_invariant eui64 env c :
  invariant c -> invariant (snd (HandleTrickleTimer eui64 env c)).
Proof.
  intros Hinv. unfold HandleTrickleTimer.
  destruct (mIdentityAssociationCurrent c) as [i|] eqn:Hcur; [|exact Hinv].
  destruct (mIdentityAssociations c !! i) as [current|] eqn:Hi; [|exact Hinv].
  destruct (mStatus current) eqn:Hs; cbn [snd].
  - exact Hinv.
  - destruct (Solicit_keeps eui64 env (mPrefixAgentRloc current)
                (withAssociations
                   (alter (setStatus kIaStatusSoliciting) i (mIdentityAssociations c))
                   (withStartTime (eNow env) c))) as (Hp & Hc & _).
    split.
    + intros j ia Hj Hsol. rewrite Hc. rewrite Hp in Hj. cbn in Hj |- *.
      rewrite Hcur. destruct (decide (i = j)) as [->|Hne]; [reflexivity|].
      rewrite list_lookup_alter_ne in Hj by assumption.
      rewrite <- Hcur. eapply (proj1 Hinv); eassumption.
    + rewrite Hp. cbn. apply Forall_alter; [exact (proj2 Hinv)|].
      intros x Hx Hun _. apply Hun. rewrite Hi in Hx. injection Hx as <-. auto.
  - destruct (Solicit_keeps eui64 env (mPrefixAgentRloc current) c) as (Hp & Hc & _).
    eapply invariant_same_associations; eassumption.
  - assert (invariant (withCurrent None c)) as Hinv'.
    { split; [|exact (proj2 Hinv)].
      intros j ia Hj Hsol. exfalso. cbn in Hj.
      pose proof (proj1 Hinv j ia Hj Hsol) as Hcj. rewrite Hcur in Hcj.
      injection Hcj as ->. congruence. }
    pose proof (ProcessNextIdentityAssociation_invariant (eRandom env) _ Hinv') as Hn.
    destruct (ProcessNextIdentityAssociation (eRandom env) (withCurrent None c))
      as [next c1]. cbn [snd] in Hn.
    destruct next; cbn [snd]; [exact Hn|].
    eapply invariant_same_associations; [| |exact Hn]; reflexivity.
Qed.

Lemma UpdateAddresses_invariant configs aRandom c :
  invariant c -> invariant (UpdateAddresses configs aRandom c).
Proof.
  intros Hinv. unfold UpdateAddresses.
  pose proof (removeAddresses_quiet configs (mIdentityAssociations c)) as Hq1.
  destruct (removeAddresses configs (mIdentityAssociations c)) as [ias1 calls].
  cbn [fst] in Hq1.
  set (c2 := withAssociations (addPrefixes configs ias1)
               (withNetifCalls calls (withAssociations ias1 c))).
  assert (invariant c2) as H2.
  { apply (invariant_quietly c); [assumption|]. split; [reflexivity|].
    eapply Forall2_quiet_trans; [exact Hq1|apply addPrefixes_quiet]. }
  destruct (doesAgentExist configs).
  - unfold Start. destruct (mSocketBound c2); [exact H2|].
    apply ProcessNextIdentityAssociation_invariant.
    eapply invariant_same_associations; [| |exact H2]; reflexivity.
  - eapply invariant_same_associations; [| |exact H2]; reflexivity.
Qed.

Lemma HandleUdpReceive_invariant n eui64 env m c c' :
  HandleUdpReceive n eui64 env m c = Some c' -> invariant c -> invariant c'.
Proof.
  unfold HandleUdpReceive, ProcessReply. intros H Hinv.
  repeat match type of H with
  | Some _ = Some _ => injection H as <-; exact Hinv
  | None = Some _ => discriminate H
  | (if ?b then _ else _) = Some _ => destruct b eqn:?
  | (match (if ?b then _ else _) with _ => _ end) = Some _ => destruct b eqn:?
  | (match ?e with _ => _ end) = Some _ =>
      match e with
      | ProcessIaNa _ _ _ _ => fail 1
      | _ => destruct e eqn:?
      end
  | (mbind _ ?e) = Some _ =>
      match e with
      | ProcessIaNa _ _ _ _ => fail 1
      | _ => destruct e eqn:?; cbn [mbind option_bind] in H
      end
  end.
  all: destruct (ProcessIaNa _ _ _ _) as [[e c1]|] eqn:Hna; [|discriminate].
  all: apply ProcessIaNa_quietly in Hna; cbn [snd] in Hna.
  all: pose proof (invariant_quietly _ _ Hinv Hna) as H1.
  all: cbn in H; destruct e; injection H as <-; try exact H1.
  all: apply HandleTrickleTimer_invariant; exact H1.
Qed.

Lemma Client_init_invariant n txid : invariant (Client_init n txid).
Proof.
  split.
  - intros i ia Hi Hs. cbn in Hi. apply lookup_replicate in Hi as [-> _]. discriminate.
  - cbn. apply Forall_replicate. intros [H|H]; discriminate.
Qed.

Lemma reachable_invariant eui64 n c : reachable eui64 n c -> invariant c.
Proof.
  induction 1 as [txid|c c' _ IH Hstep].
  - apply Client_init_invariant.
  - destruct Hstep.
    + apply UpdateAddresses_invariant. exact IH.
    + apply HandleTrickleTimer_invariant. exact IH.
    + eapply HandleUdpReceive_invariant; eassumption.
Qed.

(** ** A run of the client *)

Lemma runSoliciting_reachable : reachable nodeEui64 1 runSoliciting.
Proof.
  eapply reachable_step; [eapply reachable_step; [apply (reachable_init _ _ 0)|]|].
  - apply (step_UpdateAddresses _ _ [NetworkData.mkConfig prefixA true 0x4400] 0x123456).
  - apply (step_HandleTrickleTimer _ _ runEnv).
Qed.

Lemma runWithdrawn_reachable : reachable nodeEui64 1 runWithdrawn.
Proof.
  eapply reachable_step; [eapply reachable_step; [apply runSoliciting_reachable|]|].
  - apply (step_HandleUdpReceive _ _ 8%nat runEnv replyA). vm_compute. reflexivity.
  - apply (step_UpdateAddresses _ _ [] 0).
Qed.

(** *** One solicitation at a time *)

Lemma isSoliciting_true ia : isSoliciting ia = true <-> mStatus ia = kIaStatusSoliciting.
Proof. unfold isSoliciting. destruct (mStatus ia); cbn; split; congruence. Qed.

Lemma one_index_one_element (ias : list IdentityAssociation) :
  (forall i j a b, ias !! i = Some a -> ias !! j = Some b ->
                   isSoliciting a = true -> isSoliciting b = true -> i = j) ->
  (length (List.filter isSoliciting ias) <= 1)%nat.
Proof.
  induction ias as [|x ias IH]; intros H; cbn [List.filter]; [simpl; lia|].
  assert ((length (List.filter isSoliciting ias) <= 1)%nat) as Hrest.
  { apply IH. intros i j a b Hi Hj Ha Hb.
    specialize (H (S i) (S j) a b Hi Hj Ha Hb). lia. }
  destruct (isSoliciting x) eqn:Hx; [|exact Hrest].
  destruct (List.filter isSoliciting ias) as [|y l] eqn:Hf; [simpl; lia|].
  exfalso.
  assert (In y (List.filter isSoliciting ias)) as Hy by (rewrite Hf; left; reflexivity).
  apply filter_In in Hy as [Hin Hsol].
  apply list_elem_of_In, list_elem_of_lookup in Hin as [j Hj].
  specialize (H 0%nat (S j) x y eq_refl Hj Hx Hsol). discriminate.
Qed.

(** C2: in every state reached from the initial one by reconciliations,
    timer firings and received datagrams, at most one association of the
    pool is soliciting. *)
Theorem at_most_one_soliciting eui64 n c :
  reachable eui64 n c ->
  (length (List.filter isSoliciting (mIdentityAssociations c)) <= 1)%nat.
Proof.
  intros Hr. apply reachable_invariant in Hr as [Hcur _].
  apply one_index_one_element. intros i j a b Hi Hj Ha Hb.
  apply isSoliciting_true in Ha, Hb.
  pose proof (Hcur i a Hi Ha) as H1. pose proof (Hcur j b Hj Hb) as H2.
  congruence.
Qed.

(** *** Lifetimes of the slots *)

(** Counterexample to C4: after a reply assigned an address for 3600 seconds
    and the prefix was withdrawn, the slot is invalid and still carries the
    3600 seconds. *)
Lemma invalid_association_keeps_lifetime :
  reachable nodeEui64 1 runWithdrawn
  /\ (mStatus <$> mIdentityAssociations runWithdrawn !! 0%nat) = Some kIaStatusInvalid
  /\ (mValidLifetime <$> mIdentityAssociations runWithdrawn !! 0%nat) = Some 3600
  /\ (mStatus <$> mIdentityAssociations runReplied !! 0%nat)
     = Some kIaStatusSolicitReplied.
Proof.
  split; [apply runWithdrawn_reachable|]. repeat split; vm_compute; reflexivity.
Qed.

Lemma removeAddresses_keeps_lifetimes configs ias :
  map mValidLifetime (fst (removeAddresses configs ias)) = map mValidLifetime ias.
Proof.
  induction ias as [|ia ias IH]; [reflexivity|].
  cbn [removeAddresses]. destruct (removeAddresses configs ias) as [rest calls].
  cbn [fst] in IH.
  destruct (_ || _); [cbn; congruence|].
  destruct (prefixInNetworkData ia configs); cbn; congruence.
Qed.

(** X30: in every reachable state an association that waits to solicit or
    is soliciting has [mValidLifetime = 0]. *)
Theorem pending_association_has_no_lifetime eui64 n c :
  reachable eui64 n c ->
  forall i ia, mIdentityAssociations c !! i = Some ia ->
  mStatus ia = kIaStatusSolicit \/ mStatus ia = kIaStatusSoliciting ->
  mValidLifetime ia = 0.
Proof.
  intros Hr i ia Hi Hs. apply reachable_invariant in Hr as [_ Hun].
  rewrite Forall_lookup in Hun. exact (Hun i ia Hi Hs).
Qed.

(** ** Reconciling twice *)

Lemma bit_length_nonneg x : 0 <= bit_length x.
Proof. unfold bit_length. destruct (x =? 0); [lia|]. pose proof (Z.log2_nonneg x). lia. Qed.

Lemma bit_length_lxor x y :
  0 <= x -> 0 <= y -> bit_length (Z.lxor x y) <= Z.max (bit_length x) (bit_length y).
Proof.
  intros Hx Hy. unfold bit_length at 1.
  destruct (Z.eqb_spec (Z.lxor x y) 0) as [|Hne].
  - pose proof (bit_length_nonneg x). lia.
  - pose proof (Z.log2_lxor x y Hx Hy) as Hl. unfold bit_length.
    destruct (Z.eqb_spec x 0) as [->|Hx0]; destruct (Z.eqb_spec y 0) as [->|Hy0].
    + rewrite Z.lxor_0_l in Hne. lia.
    + rewrite Z.lxor_0_l in *. lia.
    + rewrite Z.lxor_0_r in *. lia.
    + lia.
Qed.

Lemma u128_nonneg x : 0 <= u128 x.
Proof. unfold u128. apply Z.mod_pos_bound. lia. Qed.

Lemma PrefixMatch_refl a : PrefixMatch a a = 128.
Proof. unfold PrefixMatch. rewrite Z.lxor_nilpotent. reflexivity. Qed.

Lemma PrefixMatch_trans n a b c :
  n <= PrefixMatch a b -> n <= PrefixMatch c b -> n <= PrefixMatch a c.
Proof.
  unfold PrefixMatch. intros H1 H2.
  replace (Z.lxor (u128 a) (u128 c))
    with (Z.lxor (Z.lxor (u128 a) (u128 b)) (Z.lxor (u128 c) (u128 b))).
  - pose proof (bit_length_lxor (Z.lxor (u128 a) (u128 b)) (Z.lxor (u128 c) (u128 b))) as H.
    assert (0 <= Z.lxor (u128 a) (u128 b))
      by (apply Z.lxor_nonneg; split; intros; apply u128_nonneg).
    assert (0 <= Z.lxor (u128 c) (u128 b))
      by (apply Z.lxor_nonneg; split; intros; apply u128_nonneg).
    lia.
  - rewrite (Z.lxor_comm (u128 c) (u128 b)), Z.lxor_assoc, <- (Z.lxor_assoc (u128 b)).
    rewrite Z.lxor_nilpotent, Z.lxor_0_l. reflexivity.
Qed.

Lemma IaStatus_eqb_invalid ia :
  IaStatus_eqb (mStatus ia) kIaStatusInvalid = bool_decide (isInvalid ia).
Proof.
  destruct (decide (isInvalid ia)) as [H|H].
  - rewrite bool_decide_eq_true_2 by assumption. unfold isInvalid in H. rewrite H.
    reflexivity.
  - rewrite bool_decide_eq_false_2 by assumption. unfold isInvalid in H.
    destruct (mStatus ia); [congruence|reflexivity..].
Qed.

Lemma target_cons p ia ias :
  target p (ia :: ias)
  = if decide (matches p ia) then Some 0%nat else S <$> target p ias.
Proof.
  unfold target. cbn [list_find]. destruct (decide (matches p ia)); [reflexivity|].
  destruct (list_find (matches p) ias) as [[k x]|]; reflexivity.
Qed.

Lemma freeSlot_cons ia ias :
  freeSlot (ia :: ias)
  = if decide (isInvalid ia) then Some 0%nat else S <$> freeSlot ias.
Proof.
  unfold freeSlot. cbn [list_find]. destruct (decide (isInvalid ia)); [reflexivity|].
  destruct (list_find isInvalid ias) as [[k x]|]; reflexivity.
Qed.

Lemma findAssociation_find p ias : forall i cand,
  findAssociation p ias i cand
  = match target p ias with
    | Some k => (true, Some (i + k)%nat)
    | None => (false, match cand with
                      | Some _ => cand
                      | None => (fun k => (i + k)%nat) <$> freeSlot ias
                      end)
    end.
Proof.
  induction ias as [|ia ias IH]; intros i cand.
  - destruct cand; reflexivity.
  - cbn [findAssociation]. rewrite target_cons, freeSlot_cons, IaStatus_eqb_invalid.
    destruct (decide (isInvalid ia)) as [Hinv|Hinv].
    + rewrite bool_decide_eq_true_2 by assumption.
      destruct (decide (matches p ia)) as [[Hs _]|_]; [contradiction|].
      rewrite IH. destruct (target p ias) as [k|]; cbn.
      * do 2 f_equal. lia.
      * destruct cand; [reflexivity|]. do 2 f_equal. lia.
    + rewrite bool_decide_eq_false_2 by assumption.
      destruct (decide (matches p ia)) as [[_ Hm]|Hnm].
      * rewrite Hm. do 2 f_equal. lia.
      * destruct (MatchNetifAddressWithPrefix (mNetifAddress ia) p) eqn:Hm.
        { exfalso. apply Hnm. split; assumption. }
        rewrite IH. destruct (target p ias) as [k|]; cbn.
        -- do 2 f_equal. lia.
        -- destruct cand; [reflexivity|].
           destruct (freeSlot ias); cbn; [do 2 f_equal; lia|reflexivity].
Qed.

(** One iteration of the second loop, by cases. *)
Lemma addPrefix_cases ias config :
  NetworkData.mDhcp config = true ->
  addPrefix ias config
  = match target (NetworkData.mPrefix config) ias with
    | Some t => alter (setPrefixAgentRloc (NetworkData.mRloc16 config)) t ias
    | None =>
        match freeSlot ias with
        | Some f => alter (served config) f ias
        | None => ias
        end
    end.
Proof.
  intros Hd. unfold addPrefix. rewrite Hd. cbn [negb].
  rewrite findAssociation_find.
  destruct (target (NetworkData.mPrefix config) ias) as [t|]; [reflexivity|].
  destruct (freeSlot ias) as [f|]; cbn; [|reflexivity].
  rewrite list_alter_alter_eq. reflexivity.
Qed.

Lemma matches_shapeOf p ia : matches p (shapeOf ia) <-> matches p ia.
Proof. reflexivity. Qed.

Lemma target_shapeOf p ias : target p (shapeOf <$> ias) = target p ias.
Proof.
  induction ias as [|ia ias IH]; [reflexivity|].
  rewrite fmap_cons, !target_cons, IH.
  destruct (decide (matches p (shapeOf ia))), (decide (matches p ia));
    try reflexivity; exfalso; rewrite matches_shapeOf in *; contradiction.
Qed.

Lemma freeSlot_shapeOf ias : freeSlot (shapeOf <$> ias) = freeSlot ias.
Proof.
  induction ias as [|ia ias IH]; [reflexivity|].
  rewrite fmap_cons, !freeSlot_cons, IH.
  destruct (decide (isInvalid (shapeOf ia))), (decide (isInvalid ia));
    try reflexivity; exfalso; unfold isInvalid, shapeOf in *; cbn in *; contradiction.
Qed.

Lemma shapeOf_alter_rloc r t (ias : list IdentityAssociation) :
  shapeOf <$> alter (setPrefixAgentRloc r) t ias = shapeOf <$> ias.
Proof.
  revert t. induction ias as [|ia ias IH]; intros [|t]; cbn; try reflexivity.
  f_equal. apply IH.
Qed.

Lemma target_Some p ias t :
  target p ias = Some t <->
  (exists a, ias !! t = Some a /\ matches p a)
  /\ forall j b, ias !! j = Some b -> (j < t)%nat -> ~ matches p b.
Proof.
  unfold target. split.
  - destruct (list_find (matches p) ias) as [[k x]|] eqn:E; [|discriminate].
    cbn. intros [= ->]. apply list_find_Some in E as (H1 & H2 & H3). eauto.
  - intros [(a & Ha & Hm) Hleast].
    assert (list_find (matches p) ias = Some (t, a)) as ->
      by (apply list_find_Some; auto).
    reflexivity.
Qed.

Lemma target_None p ias :
  target p ias = None <-> Forall (fun a => ~ matches p a) ias.
Proof.
  unfold target. destruct (list_find (matches p) ias) as [[k x]|] eqn:E; cbn.
  - split; [discriminate|]. intros HF.
    apply (list_find_None (matches p)) in HF. congruence.
  - split; [intros _; apply (list_find_None (matches p)); exact E|reflexivity].
Qed.

Lemma freeSlot_Some ias f :
  freeSlot ias = Some f -> exists a, ias !! f = Some a /\ isInvalid a.
Proof.
  unfold freeSlot.
  destruct (list_find isInvalid ias) as [[k x]|] eqn:E; [|discriminate].
  cbn. intros [= ->]. apply list_find_Some in E as (H1 & H2 & H3). eauto.
Qed.

Lemma Match_trans a p config x :
  MatchNetifAddressWithPrefix a p = true ->
  MatchNetifAddressWithPrefix (mNetifAddress (served config x)) p = true ->
  MatchNetifAddressWithPrefix a (NetworkData.mPrefix config) = true.
Proof.
  unfold MatchNetifAddressWithPrefix. cbn.
  intros [H1 H2]%andb_prop [H3 H4]%andb_prop.
  apply Z.eqb_eq in H1, H3. apply Z.geb_le in H2, H4.
  apply andb_true_intro. split; [apply Z.eqb_eq; lia|].
  apply Z.geb_le. rewrite <- H3.
  eapply PrefixMatch_trans; eassumption.
Qed.

Lemma served_matches config x :
  mLength (NetworkData.mPrefix config) <= 128 ->
  matches (NetworkData.mPrefix config) (served config x).
Proof.
  intros H. split; [discriminate|].
  unfold MatchNetifAddressWithPrefix. cbn.
  rewrite Z.eqb_refl, PrefixMatch_refl. cbn. apply Z.geb_le. exact H.
Qed.

(** The slot a prefix has found stays the first one that matches it while
    the loop goes on. *)
Lemma target_stable_step p ias t config :
  target p ias = Some t -> target p (addPrefix ias config) = Some t.
Proof.
  intros Ht. destruct (NetworkData.mDhcp config) eqn:Hd;
    [|unfold addPrefix; rewrite Hd; exact Ht].
  rewrite addPrefix_cases by assumption.
  destruct (target (NetworkData.mPrefix config) ias) as [t'|] eqn:Hq.
  - rewrite <- target_shapeOf, shapeOf_alter_rloc, target_shapeOf. exact Ht.
  - destruct (freeSlot ias) as [f|] eqn:Hf; [|exact Ht].
    apply freeSlot_Some in Hf as (x & Hx & Hxinv).
    apply target_Some in Ht as [(a & Ha & Hm) Hleast].
    assert (t <> f) as Hne.
    { intros ->. rewrite Hx in Ha. injection Ha as ->. destruct Hm as [Hs _].
      contradiction. }
    apply target_Some. split.
    + exists a. rewrite list_lookup_alter_ne by congruence. auto.
    + intros j b Hj Hlt Hb.
      destruct (decide (f = j)) as [->|Hfj].
      * rewrite list_lookup_alter_eq, Hx in Hj. cbn in Hj. injection Hj as <-.
        apply target_None in Hq. rewrite Forall_lookup in Hq.
        apply (Hq t a Ha). destruct Hm as [Hs Hm]. split; [assumption|].
        eapply Match_trans; [exact Hm|exact (proj2 Hb)].
      * rewrite list_lookup_alter_ne in Hj by assumption.
        exact (Hleast j b Hj Hlt Hb).
Qed.

Lemma target_stable p configs : forall ias t,
  target p ias = Some t -> target p (addPrefixes configs ias) = Some t.
Proof.
  unfold addPrefixes. induction configs as [|config configs IH]; intros ias t Ht;
    [exact Ht|].
  cbn [fold_left]. apply IH. apply target_stable_step. exact Ht.
Qed.

(** A full pool keeps its shape. *)
Lemma full_shape_step (ias : list IdentityAssociation) config :
  freeSlot ias = None -> shapeOf <$> addPrefix ias config = shapeOf <$> ias.
Proof.
  intros Hf. destruct (NetworkData.mDhcp config) eqn:Hd;
    [|unfold addPrefix; rewrite Hd; reflexivity].
  rewrite addPrefix_cases by assumption. rewrite Hf.
  destruct (target _ _); [apply shapeOf_alter_rloc|reflexivity].
Qed.

Lemma full_shape configs : forall ias : list IdentityAssociation,
  freeSlot ias = None -> shapeOf <$> addPrefixes configs ias = shapeOf <$> ias.
Proof.
  unfold addPrefixes. induction configs as [|config configs IH]; intros ias Hf;
    [reflexivity|].
  cbn [fold_left]. rewrite IH.
  - apply full_shape_step. exact Hf.
  - rewrite <- freeSlot_shapeOf, full_shape_step, freeSlot_shapeOf; assumption.
Qed.

Lemma shapeOf_rloc_eq (Q R : list IdentityAssociation) :
  shapeOf <$> R = shapeOf <$> Q ->
  (forall i a b, Q !! i = Some a -> R !! i = Some b ->
                 mPrefixAgentRloc b = mPrefixAgentRloc a) ->
  R = Q.
Proof.
  intros Hs Hr. apply list_eq. intros i.
  pose proof (f_equal (fun l => l !! i) Hs) as Hi. cbn in Hi.
  rewrite !list_lookup_fmap in Hi.
  destruct (R !! i) as [b|] eqn:Hb, (Q !! i) as [a|] eqn:Ha; cbn in Hi;
    try discriminate; [|reflexivity].
  specialize (Hr i a b Ha Hb). injection Hi as H1 H2 H3 H4.
  destruct a, b. cbn in *. congruence.
Qed.

Lemma rlocSettled_alter r t Q R F (fq : IdentityAssociation -> IdentityAssociation) :
  (forall x, mPrefixAgentRloc (fq x) = r) ->
  rlocSettled Q R F ->
  rlocSettled (alter fq t Q) (alter (setPrefixAgentRloc r) t R) F.
Proof.
  intros Hfq H i a b f Ha Hb Hf.
  destruct (decide (t = i)) as [->|Hne].
  - rewrite list_lookup_alter_eq in Ha, Hb.
    destruct (Q !! i) as [a0|]; [|discriminate].
    destruct (R !! i) as [b0|]; [|discriminate].
    cbn in Ha, Hb. injection Ha as <-. injection Hb as <-. left. cbn.
    symmetry. apply Hfq.
  - rewrite list_lookup_alter_ne in Ha, Hb by assumption. eapply H; eassumption.
Qed.

Lemma addPrefix_follows config configs (Q' R : list IdentityAssociation) t :
  NetworkData.mDhcp config = true ->
  target (NetworkData.mPrefix config) Q' = Some t ->
  shapeOf <$> R = shapeOf <$> addPrefixes configs Q' ->
  addPrefix R config = alter (setPrefixAgentRloc (NetworkData.mRloc16 config)) t R.
Proof.
  intros Hd Ht Hshape. rewrite addPrefix_cases by assumption.
  apply (target_stable _ configs) in Ht.
  rewrite <- target_shapeOf, <- Hshape, target_shapeOf in Ht. rewrite Ht.
  reflexivity.
Qed.

Lemma addPrefixes_again configs : forall Q R : list IdentityAssociation,
  Forall prefixLengthOk configs ->
  shapeOf <$> R = shapeOf <$> addPrefixes configs Q ->
  rlocSettled Q R (addPrefixes configs Q) ->
  addPrefixes configs R = addPrefixes configs Q.
Proof.
  induction configs as [|config configs IH]; intros Q R Hlen Hshape Hrloc.
  - cbn in *. apply shapeOf_rloc_eq; [assumption|].
    intros i a b Ha Hb. destruct (Hrloc i a b a Ha Hb Ha); assumption.
  - inversion Hlen as [|? ? Hlen1 Hlen']; subst.
    change (addPrefixes (config :: configs) Q)
      with (addPrefixes configs (addPrefix Q config)) in *.
    change (addPrefixes (config :: configs) R)
      with (addPrefixes configs (addPrefix R config)).
    destruct (NetworkData.mDhcp config) eqn:Hd.
    2:{ assert (forall X, addPrefix X config = X) as Hid
          by (intros X; unfold addPrefix; rewrite Hd; reflexivity).
        rewrite !Hid in *. apply IH; assumption. }
    specialize (Hlen1 Hd).
    pose proof (addPrefix_cases Q config Hd) as HQ.
    destruct (target (NetworkData.mPrefix config) Q) as [t|] eqn:Htq.
    + (* the prefix found its slot *)
      rewrite HQ in *.
      rewrite (addPrefix_follows config configs _ R t Hd) by
        (try exact Hshape;
         rewrite <- target_shapeOf, shapeOf_alter_rloc, target_shapeOf; exact Htq).
      apply IH; [assumption| |].
      * rewrite shapeOf_alter_rloc. exact Hshape.
      * apply rlocSettled_alter; [reflexivity|exact Hrloc].
    + destruct (freeSlot Q) as [f|] eqn:Hfq.
      * (* the prefix claimed a free slot *)
        rewrite HQ in *.
        destruct (freeSlot_Some _ _ Hfq) as (x & Hx & Hxinv).
        assert (target (NetworkData.mPrefix config) (alter (served config) f Q)
                = Some f) as Ht'.
        { apply target_Some. split.
          - exists (served config x). rewrite list_lookup_alter_eq, Hx.
            split; [reflexivity|]. apply served_matches. exact Hlen1.
          - intros j b Hj Hlt. rewrite list_lookup_alter_ne in Hj by lia.
            apply target_None in Htq. rewrite Forall_lookup in Htq. eauto. }
        rewrite (addPrefix_follows config configs _ R f Hd Ht' Hshape).
        apply IH; [assumption| |].
        -- rewrite shapeOf_alter_rloc. exact Hshape.
        -- apply rlocSettled_alter; [reflexivity|exact Hrloc].
      * (* the prefix was dropped *)
        rewrite HQ in *.
        assert (shapeOf <$> R = shapeOf <$> Q) as HRQ.
        { rewrite Hshape. apply (full_shape configs). exact Hfq. }
        assert (addPrefix R config = R) as ->.
        { rewrite addPrefix_cases by assumption.
          rewrite <- (target_shapeOf _ R), <- (freeSlot_shapeOf R), HRQ.
          rewrite target_shapeOf, freeSlot_shapeOf, Htq, Hfq. reflexivity. }
        apply IH; assumption.
Qed.

Lemma removeAddresses_settled configs ias :
  Forall (settled configs) (fst (removeAddresses configs ias)).
Proof.
  induction ias as [|ia ias IH]; [constructor|].
  cbn [removeAddresses]. destruct (removeAddresses configs ias) as [rest calls].
  cbn [fst] in IH.
  destruct (IaStatus_eqb (mStatus ia) kIaStatusInvalid) eqn:Hs.
  { constructor; [|exact IH]. left. destruct (mStatus ia); cbn in Hs; congruence. }
  destruct (Z.eqb_spec (mValidLifetime ia) 0) as [Hv|Hv]; cbn [orb].
  { constructor; [|exact IH]. right. left. exact Hv. }
  destruct (prefixInNetworkData ia configs) eqn:Hp; constructor; try exact IH.
  - right. right. exact Hp.
  - left. reflexivity.
Qed.

Lemma removeAddresses_of_settled configs ias :
  Forall (settled configs) ias -> removeAddresses configs ias = (ias, []).
Proof.
  induction 1 as [|ia ias Hia _ IH]; [reflexivity|].
  cbn [removeAddresses]. rewrite IH.
  destruct Hia as [Hs|[Hv|Hp]].
  - rewrite Hs. reflexivity.
  - rewrite Hv, orb_true_r. reflexivity.
  - rewrite Hp. destruct (_ || _); reflexivity.
Qed.

Lemma prefixInNetworkData_netif a b configs :
  mNetifAddress a = mNetifAddress b ->
  prefixInNetworkData a configs = prefixInNetworkData b configs.
Proof.
  intros H. induction configs as [|config configs IH]; [reflexivity|].
  cbn [prefixInNetworkData]. rewrite H, IH. reflexivity.
Qed.

Lemma addPrefix_settled configs config (ias : list IdentityAssociation) :
  Forall (settled configs) ias -> Forall (settled configs) (addPrefix ias config).
Proof.
  intros H. unfold addPrefix. destruct (negb (NetworkData.mDhcp config)); [exact H|].
  destruct (findAssociation _ _ _ _) as [found [i|]]; [|exact H].
  apply Forall_alter.
  - destruct found; [exact H|]. apply Forall_alter; [exact H|].
    intros x _ _. right. left. reflexivity.
  - intros x _ [Hs|[Hv|Hp]]; [left|right; left|right; right]; try assumption.
    rewrite <- Hp. apply prefixInNetworkData_netif. reflexivity.
Qed.

Lemma addPrefixes_settled configs cs : forall ias : list IdentityAssociation,
  Forall (settled configs) ias -> Forall (settled configs) (addPrefixes cs ias).
Proof.
  unfold addPrefixes. induction cs as [|config cs IH]; intros ias H; [exact H|].
  cbn [fold_left]. apply IH. apply addPrefix_settled. exact H.
Qed.

Lemma Start_bound aRandom c : mSocketBound (Start aRandom c) = true.
Proof.
  unfold Start. destruct (mSocketBound c) eqn:Hb; [exact Hb|].
  unfold ProcessNextIdentityAssociation.
  destruct (currentStatus _) as [[]|]; try destruct (firstSolicit _ _); reflexivity.
Qed.

Lemma same_associations_no_calls c :
  withAssociations (mIdentityAssociations c)
    (withNetifCalls [] (withAssociations (mIdentityAssociations c) c)) = c.
Proof.
  destruct c. unfold withAssociations, withNetifCalls. cbn. rewrite app_nil_r.
  reflexivity.
Qed.

(** C5, amended: with the prefixes of the network data unchanged and their
    lengths at most 128 bits, a second [UpdateAddresses] changes nothing: no
    association, status, lifetime or locator, no interface call, the socket
    and the timer as they are. *)
Theorem UpdateAddresses_idempotent configs aRandom aRandom' c :
  Forall prefixLengthOk configs ->
  UpdateAddresses configs aRandom' (UpdateAddresses configs aRandom c)
  = UpdateAddresses configs aRandom c.
Proof.
  intros Hlen.
  destruct (UpdateAddresses_associations configs aRandom c) as [Hpool _].
  set (c' := UpdateAddresses configs aRandom c) in *.
  set (P1 := fst (removeAddresses configs (mIdentityAssociations c))) in *.
  assert (Forall (settled configs) (mIdentityAssociations c')) as Hset.
  { rewrite Hpool. apply addPrefixes_settled. apply removeAddresses_settled. }
  assert (addPrefixes configs (mIdentityAssociations c') = mIdentityAssociations c')
    as Hadd.
  { rewrite Hpool. apply addPrefixes_again; [assumption|reflexivity|].
    intros i a b f _ Hb Hf. right. congruence. }
  unfold UpdateAddresses at 1.
  rewrite (removeAddresses_of_settled _ _ Hset), Hadd, same_associations_no_calls.
  subst c'. unfold UpdateAddresses.
  destruct (removeAddresses configs (mIdentityAssociations c)) as [ias1 calls].
  destruct (doesAgentExist configs).
  - unfold Start at 1. rewrite Start_bound. reflexivity.
  - reflexivity.
Qed.

Lemma UpdateAddresses_idempotent_witness :
  UpdateAddresses [NetworkData.mkConfig prefixQ true 0x4400;
                   NetworkData.mkConfig prefixB true 0x4400] 9 twoReconfigured
  = twoReconfigured.
Proof.
  apply (UpdateAddresses_idempotent
           [NetworkData.mkConfig prefixQ true 0x4400;
            NetworkData.mkConfig prefixB true 0x4400] 0 9 twoSecondSoliciting).
  repeat constructor; intros _; vm_compute; discriminate.
Defined.

(** Counterexample to C5: a DHCP prefix of 129 bits matches no association,
    not even the slot the first run claims for it; the second run does not
    find that slot and claims the next free one. *)
Lemma UpdateAddresses_twice_overlong_prefix :
  UpdateAddresses overlongConfigs 0 (UpdateAddresses overlongConfigs 0 (Client_init 2 0))
  <> UpdateAddresses overlongConfigs 0 (Client_init 2 0)
  /\ map mStatus (mIdentityAssociations
                    (UpdateAddresses overlongConfigs 0 (Client_init 2 0)))
     = [kIaStatusSolicit; kIaStatusInvalid]
  /\ map mStatus (mIdentityAssociations
                    (UpdateAddresses overlongConfigs 0
                       (UpdateAddresses overlongConfigs 0 (Client_init 2 0))))
     = [kIaStatusSolicit; kIaStatusSolicit].
Proof.
  split; [|split; vm_compute; reflexivity].
  intros E. apply (f_equal (fun c => map mStatus (mIdentityAssociations c))) in E.
  vm_compute in E. discriminate E.
Qed.

(** ** Replies as sequences of options *)

Lemma options_bytes_cons o rest :
  options_bytes (o :: rest) = Option_bytes (fst o) (snd o) ++ options_bytes rest.
Proof. reflexivity. Qed.

Lemma options_bytes_app l1 l2 :
  options_bytes (l1 ++ l2) = options_bytes l1 ++ options_bytes l2.
Proof. unfold options_bytes. apply flat_map_app. Qed.

Lemma Message_Read_at m (A X : list Z) n :
  mData m = A ++ X ->
  Message_Read m (Z.of_nat (length A)) n = firstn (Z.to_nat n) X.
Proof. intros H. unfold Message_Read. rewrite H, Nat2Z.id. apply sub_app_skip. Qed.

Lemma firstn_option_header code payload B :
  firstn 4 (Option_bytes code payload ++ B)
  = be_enc 2 code ++ be_enc 2 (Z.of_nat (length payload)).
Proof. reflexivity. Qed.

Lemma option_header_read m A code payload B :
  mData m = A ++ Option_bytes code payload ++ B ->
  0 <= code < 2 ^ 16 -> Z.of_nat (length payload) < 2 ^ 16 ->
  let o := Message_Read m (Z.of_nat (length A)) sizeof_Option in
  bytesRead o = sizeof_Option /\ Option_GetCode o = code
  /\ Option_GetLength o = Z.of_nat (length payload).
Proof.
  intros Hm Hc Hl o. subst o. rewrite (Message_Read_at m A _ _ Hm).
  change (Z.to_nat sizeof_Option) with 4%nat. rewrite firstn_option_header.
  split; [reflexivity|].
  rewrite <- (app_nil_r (be_enc 2 (Z.of_nat (length payload)))).
  destruct (Option_header_fields code (Z.of_nat (length payload)) []) as [-> ->].
  rewrite !Z.mod_small by lia. split; reflexivity.
Qed.

(** The scan over a sequence of options up to the end of the message. *)
Lemma FindOption_loop_options code opts : forall (A : list Z) n m end_,
  mData m = A ++ options_bytes opts ->
  codesOk opts ->
  GetLength m < 2 ^ 16 ->
  GetLength m <= end_ ->
  (length opts < n)%nat ->
  FindOption_loop n m (Z.of_nat (length A)) end_ code
  = Some (match firstOption code opts with
          | Some (k, _) => Z.of_nat (length A) + k
          | None => 0
          end).
Proof.
  induction opts as [|[c payload] rest IH]; intros A n m end_ Hm Hok Hlen Hend Hn;
    (destruct n as [|n]; [simpl in Hn; lia|]); cbn [FindOption_loop firstOption].
  - assert (Z.of_nat (length A) <= end_) as Hle.
    { unfold GetLength in *. rewrite Hm, length_app in *. lia. }
    destruct (Z.leb_spec (Z.of_nat (length A)) end_); [|lia].
    rewrite (Message_Read_at m A _ _ Hm). reflexivity.
  - rewrite options_bytes_cons in Hm. cbn [fst snd] in *.
    inversion Hok as [|? ? Hc Hok']; subst. cbn [fst] in Hc.
    assert (Z.of_nat (length (A ++ Option_bytes c payload)) <= GetLength m) as Hfit.
    { unfold GetLength. rewrite Hm, !length_app. lia. }
    rewrite length_app, Option_bytes_length in Hfit.
    destruct (Z.leb_spec (Z.of_nat (length A)) end_); [|lia].
    destruct (option_header_read m A c payload (options_bytes rest) Hm Hc)
      as (Hr & Hcode & Hl); [lia|].
    rewrite Hr, Hcode, Hl. change (sizeof_Option =? sizeof_Option) with true. cbv iota.
    destruct (Z.eqb_spec c code) as [->|Hne].
    + f_equal. lia.
    + rewrite u16_small by (unfold sizeof_Option; lia).
      replace (Z.of_nat (length A) + (sizeof_Option + Z.of_nat (length payload)))
        with (Z.of_nat (length (A ++ Option_bytes c payload)))
        by (rewrite length_app, Option_bytes_length; unfold sizeof_Option; lia).
      rewrite (IH (A ++ Option_bytes c payload) n m end_);
        [|rewrite <- app_assoc; exact Hm|assumption|assumption|assumption
         |simpl in Hn; lia].
      destruct (firstOption code rest) as [[k p]|]; [|reflexivity].
      f_equal. rewrite !length_app. lia.
Qed.

Lemma Header_bytes_length type txid : length (Header_bytes type txid) = 4%nat.
Proof. reflexivity. Qed.

Lemma datagram_length pre type txid opts :
  GetLength (datagram pre type txid opts)
  = optionsOffset pre + Z.of_nat (length (options_bytes opts)).
Proof.
  unfold GetLength, datagram, optionsOffset, sizeof_Header. cbn [mData].
  rewrite !length_app, Header_bytes_length. lia.
Qed.

(** [FindOption] as [ProcessReply] calls it, over all the options of the
    datagram. *)
Lemma FindOption_datagram pre type txid opts code n :
  codesOk opts ->
  GetLength (datagram pre type txid opts) < 2 ^ 16 ->
  (length opts < n)%nat ->
  let m := MoveOffset (datagram pre type txid opts) sizeof_Header in
  FindOption n m (GetOffset m) (u16 (GetLength m - GetOffset m)) code
  = Some (match firstOption code opts with
          | Some (k, _) => optionsOffset pre + k
          | None => 0
          end).
Proof.
  intros Hok Hlen Hn m.
  assert (GetLength m = GetLength (datagram pre type txid opts)) as HL by reflexivity.
  assert (GetOffset m = optionsOffset pre) as HO by reflexivity.
  rewrite datagram_length in Hlen.
  unfold FindOption. rewrite HL, HO, datagram_length.
  replace (optionsOffset pre + Z.of_nat (length (options_bytes opts)) - optionsOffset pre)
    with (Z.of_nat (length (options_bytes opts))) by lia.
  unfold optionsOffset, sizeof_Header in *.
  rewrite (u16_small (Z.of_nat (length (options_bytes opts)))) by lia.
  rewrite u16_small by lia.
  replace (Z.of_nat (length pre) + 4)
    with (Z.of_nat (length (pre ++ Header_bytes type txid)))
    by (rewrite length_app, Header_bytes_length; lia).
  apply FindOption_loop_options; try assumption.
  - cbn [m MoveOffset datagram mData]. rewrite <- app_assoc. reflexivity.
  - rewrite HL, datagram_length. unfold optionsOffset, sizeof_Header. lia.
  - rewrite HL, datagram_length. unfold optionsOffset, sizeof_Header.
    rewrite length_app, Header_bytes_length. lia.
Qed.

Lemma firstOption_Some code opts : forall k payload,
  firstOption code opts = Some (k, payload) ->
  exists l1 l2, opts = l1 ++ (code, payload) :: l2
                /\ k = Z.of_nat (length (options_bytes l1)).
Proof.
  induction opts as [|[c p] rest IH]; intros k payload H; [discriminate|].
  cbn [firstOption fst snd] in H.
  destruct (Z.eqb_spec c code) as [->|Hne].
  - injection H as <- <-. exists [], rest. split; reflexivity.
  - destruct (firstOption code rest) as [[k' p']|]; [|discriminate].
    injection H as <- <-. destruct (IH k' p' eq_refl) as (l1 & l2 & -> & ->).
    exists ((c, p) :: l1), l2. split; [reflexivity|].
    rewrite options_bytes_cons, length_app. cbn [fst snd].
    rewrite Option_bytes_length. lia.
Qed.


Lemma firstOption_payload_length pre type txid opts code k payload :
  GetLength (datagram pre type txid opts) < 2 ^ 16 ->
  firstOption code opts = Some (k, payload) ->
  0 <= k /\ Z.of_nat (length payload) < 2 ^ 16.
Proof.
  intros Hlen H. apply firstOption_Some in H as (l1 & l2 & -> & ->).
  rewrite datagram_length, options_bytes_app, options_bytes_cons, !length_app,
    Option_bytes_length in Hlen.
  unfold optionsOffset, sizeof_Header in Hlen. cbn [fst snd] in Hlen. lia.
Qed.

Lemma firstn_option_struct code payload B j :
  (j <= length payload)%nat ->
  firstn (4 + j) (Option_bytes code payload ++ B)
  = be_enc 2 code ++ be_enc 2 (Z.of_nat (length payload)) ++ firstn j payload.
Proof.
  intros Hj. unfold Option_bytes. rewrite <- !app_assoc.
  change (firstn (4 + j) (be_enc 2 code ++ be_enc 2 (Z.of_nat (length payload))
                          ++ payload ++ B))
    with (be_enc 2 code ++ be_enc 2 (Z.of_nat (length payload))
          ++ firstn j (payload ++ B)).
  rewrite firstn_app. replace (j - length payload)%nat with 0%nat by lia.
  rewrite firstn_O, app_nil_r. reflexivity.
Qed.

Lemma sub_firstn (X : list Z) j i n :
  (i + n <= j)%nat -> sub (firstn j X) i n = sub X i n.
Proof.
  intros H. unfold sub. rewrite skipn_firstn_comm, firstn_firstn.
  f_equal. lia.
Qed.

(** *** Rejected datagrams *)








Lemma Duid_fields code len payload :
  GetDuidType (be_enc 2 code ++ be_enc 2 len ++ payload) = be_dec (sub payload 0 2).
Proof. reflexivity. Qed.

Lemma Duid_fields_more code len payload :
  GetDuidHardwareType (be_enc 2 code ++ be_enc 2 len ++ payload)
  = be_dec (sub payload 2 2)
  /\ GetDuidLinkLayerAddress (be_enc 2 code ++ be_enc 2 len ++ payload)
     = be_dec (sub payload 4 8).
Proof. split; reflexivity. Qed.



Lemma optionsOffset_pos pre k : 0 <= k -> (optionsOffset pre + k >? 0) = true.
Proof. intros H. unfold optionsOffset, sizeof_Header. apply Z.gtb_lt. lia. Qed.




(** *** Accepted replies *)

Lemma firstOption_status_success opts k payload :
  Forall (fun o => fst o = kOptionStatusCode -> successStatus (snd o)) opts ->
  firstOption kOptionStatusCode opts = Some (k, payload) ->
  successStatus payload.
Proof.
  intros Hall H. apply firstOption_Some in H as (l1 & l2 & -> & _).
  apply Forall_app in Hall as [_ Hall]. inversion Hall as [|? ? Ho _]; subst.
  apply Ho. reflexivity.
Qed.

Lemma ProcessStatusCode_success m A payload B :
  mData m = A ++ Option_bytes kOptionStatusCode payload ++ B ->
  Z.of_nat (length payload) < 2 ^ 16 ->
  successStatus payload ->
  ProcessStatusCode m (Z.of_nat (length A)) = OT_ERROR_NONE.
Proof.
  intros Hm Hl [Hp Hs]. unfold ProcessStatusCode.
  rewrite (Message_Read_at m A _ _ Hm).
  change (Z.to_nat sizeof_StatusCode) with (4 + 2)%nat.
  rewrite firstn_option_struct by assumption.
  assert (StatusCode_GetStatusCode
            (be_enc 2 kOptionStatusCode ++ be_enc 2 (Z.of_nat (length payload))
             ++ firstn 2 payload) = be_dec (sub payload 0 2)) as ->
    by (rewrite <- (sub_firstn payload 2 0 2) by lia; reflexivity).
  destruct (Option_header_fields kOptionStatusCode (Z.of_nat (length payload))
              (firstn 2 payload)) as [_ ->].
  rewrite Z.mod_small by lia. rewrite Hs.
  assert (bytesRead (be_enc 2 kOptionStatusCode ++ be_enc 2 (Z.of_nat (length payload))
                     ++ firstn 2 payload) = 6) as ->.
  { unfold bytesRead. rewrite !length_app, !be_enc_length, length_firstn. lia. }
  unfold sizeof_StatusCode, sizeof_Option.
  destruct (Z.geb_spec (Z.of_nat (length payload)) (6 - 4)); [reflexivity|lia].
Qed.

Lemma datagram_split pre type txid opts code k payload :
  firstOption code opts = Some (k, payload) ->
  exists A B,
    mData (MoveOffset (datagram pre type txid opts) sizeof_Header)
    = A ++ Option_bytes code payload ++ B
    /\ Z.of_nat (length A) = optionsOffset pre + k
    /\ exists l2, B = options_bytes l2
                  /\ Forall (fun o => In o opts) l2.
Proof.
  intros H. apply firstOption_Some in H as (l1 & l2 & -> & ->).
  exists (pre ++ Header_bytes type txid ++ options_bytes l1), (options_bytes l2).
  split; [|split].
  - cbn [MoveOffset datagram mData].
    rewrite options_bytes_app, options_bytes_cons, <- !app_assoc. reflexivity.
  - unfold optionsOffset, sizeof_Header. rewrite !length_app, Header_bytes_length. lia.
  - exists l2. split; [reflexivity|]. apply Forall_forall. intros o Ho.
    apply list_elem_of_In in Ho. apply in_or_app. right. right. exact Ho.
Qed.

Lemma optionAfter_first code opts k payload :
  firstOption code opts = Some (k, payload) ->
  exists l1 l2, opts = l1 ++ (code, payload) :: l2
                /\ k = Z.of_nat (length (options_bytes l1))
                /\ optionAfter code opts = head l2.
Proof.
  revert k. induction opts as [|[c p] rest IH]; intros k H; [discriminate|].
  cbn [firstOption optionAfter fst snd] in H |- *.
  destruct (Z.eqb_spec c code) as [->|Hne].
  - injection H as <- <-. exists [], rest. repeat split.
  - destruct (firstOption code rest) as [[k' p']|]; [|discriminate].
    injection H as <- <-. destruct (IH k' eq_refl) as (l1 & l2 & -> & -> & Hafter).
    exists ((c, p) :: l1), l2. split; [reflexivity|]. split; [|exact Hafter].
    rewrite options_bytes_cons, length_app. cbn [fst snd].
    rewrite Option_bytes_length. lia.
Qed.

Lemma ProcessReply_status_ok n pre type txid opts :
  codesOk opts ->
  GetLength (datagram pre type txid opts) < 2 ^ 16 ->
  (length opts < n)%nat ->
  firstStatusOk opts ->
  let m := MoveOffset (datagram pre type txid opts) sizeof_Header in
  exists optionOffset,
    FindOption n m (GetOffset m) (u16 (GetLength m - GetOffset m)) kOptionStatusCode
    = Some optionOffset
    /\ (if optionOffset >? 0 then ProcessStatusCode m optionOffset else OT_ERROR_NONE)
       = OT_ERROR_NONE.
Proof.
  intros Hok Hlen Hn Hall m. subst m.
  rewrite FindOption_datagram by assumption.
  destruct (firstOption kOptionStatusCode opts) as [[k payload]|] eqn:Hf.
  - eexists. split; [reflexivity|].
    destruct (firstOption_payload_length _ _ _ _ _ _ _ Hlen Hf) as [Hk Hpl].
    rewrite optionsOffset_pos by assumption.
    destruct (datagram_split pre type txid opts _ k payload Hf)
      as (A & B & Hm & HA & _).
    rewrite <- HA. eapply ProcessStatusCode_success; [exact Hm|assumption|].
    exact (Hall k payload Hf).
  - exists 0. split; reflexivity.
Qed.

Lemma ProcessServerIdentifier_accepted m A payload B :
  mData m = A ++ Option_bytes kOptionServerIdentifier payload ++ B ->
  Z.of_nat (length payload) < 2 ^ 16 ->
  acceptedServerDuid payload ->
  ProcessServerIdentifier m (Z.of_nat (length A)) = OT_ERROR_NONE.
Proof.
  intros Hm Hl [Hp Hforms]. unfold ProcessServerIdentifier.
  rewrite (Message_Read_at m A _ _ Hm).
  change (Z.to_nat sizeof_ServerIdentifier) with (4 + 12)%nat.
  rewrite firstn_option_struct by assumption.
  destruct (_ =? sizeof_ServerIdentifier); [|reflexivity].
  destruct (Option_header_fields kOptionServerIdentifier (Z.of_nat (length payload))
              (firstn 12 payload)) as [_ ->].
  rewrite Z.mod_small by lia.
  rewrite (Duid_fields kOptionServerIdentifier (Z.of_nat (length payload))
             (firstn 12 payload)).
  rewrite (proj1 (Duid_fields_more kOptionServerIdentifier
                    (Z.of_nat (length payload)) (firstn 12 payload))).
  rewrite !sub_firstn by lia.
  destruct Hforms as [[-> ->]|(Hl12 & -> & ->)].
  - reflexivity.
  - rewrite Hl12. rewrite orb_true_r. reflexivity.
Qed.

Lemma ProcessClientIdentifier_own eui64 m A B :
  mData m = A ++ Option_bytes kOptionClientIdentifier (ownDuid eui64) ++ B ->
  0 <= eui64 < 2 ^ 64 ->
  ProcessClientIdentifier eui64 m (Z.of_nat (length A)) = OT_ERROR_NONE.
Proof.
  intros Hm He. unfold ProcessClientIdentifier.
  rewrite (Message_Read_at m A _ _ Hm).
  change (Z.to_nat sizeof_ClientIdentifier) with (4 + 12)%nat.
  rewrite firstn_option_struct by (unfold ownDuid; rewrite !length_app, !be_enc_length; lia).
  assert (firstn 12 (ownDuid eui64) = ownDuid eui64) as -> by reflexivity.
  assert (GetDuidLinkLayerAddress
            (be_enc 2 kOptionClientIdentifier
             ++ be_enc 2 (Z.of_nat (length (ownDuid eui64))) ++ ownDuid eui64)
          = eui64) as ->.
  { unfold GetDuidLinkLayerAddress.
    change (sub _ 8 8) with (be_enc 8 eui64).
    apply (be_dec_be_enc_small 8). exact He. }
  rewrite (Z.eqb_refl eui64). reflexivity.
Qed.

Lemma IaAddress_bytes_option addr preferred valid :
  IaAddress_bytes addr preferred valid
  = Option_bytes kOptionIaAddress (be_enc 16 addr ++ be_enc 4 preferred ++ be_enc 4 valid).
Proof. reflexivity. Qed.

Lemma IaAddress_fields addr preferred valid :
  0 <= addr < 2 ^ 128 -> 0 <= preferred < 2 ^ 32 -> 0 <= valid < 2 ^ 32 ->
  IaAddress_GetAddress (IaAddress_bytes addr preferred valid) = addr
  /\ IaAddress_GetPreferredLifetime (IaAddress_bytes addr preferred valid) = preferred
  /\ IaAddress_GetValidLifetime (IaAddress_bytes addr preferred valid) = valid.
Proof.
  intros Ha Hp Hv.
  unfold IaAddress_GetAddress, IaAddress_GetPreferredLifetime, IaAddress_GetValidLifetime.
  change (sub (IaAddress_bytes addr preferred valid) 4 16) with (be_enc 16 addr).
  change (sub (IaAddress_bytes addr preferred valid) 20 4) with (be_enc 4 preferred).
  change (sub (IaAddress_bytes addr preferred valid) 24 4) with (be_enc 4 valid).
  repeat split.
  - apply (be_dec_be_enc_small 16). exact Ha.
  - apply (be_dec_be_enc_small 4). exact Hp.
  - apply (be_dec_be_enc_small 4). exact Hv.
Qed.

(** The first association that takes the address gets it. *)
Lemma ProcessIaAddress_loop_first option addr preferred valid :
  IaAddress_GetAddress option = addr ->
  IaAddress_GetPreferredLifetime option = preferred ->
  IaAddress_GetValidLifetime option = valid ->
  forall (ias : list IdentityAssociation) idx ia,
  ias !! idx = Some ia ->
  takes addr ia = true ->
  (forall j x, (j < idx)%nat -> ias !! j = Some x -> takes addr x = false) ->
  ProcessIaAddress_loop option ias
  = (<[idx := assigned addr preferred valid ia]> ias,
     [AddUnicastAddress (mNetifAddress (assigned addr preferred valid ia))]).
Proof.
  intros Ha Hp Hv. induction ias as [|x ias IH]; intros idx ia Hi Ht Hbefore;
    [discriminate|].
  cbn [ProcessIaAddress_loop]. rewrite Ha.
  destruct idx as [|idx].
  - injection Hi as ->. unfold takes in Ht.
    destruct (IaStatus_eqb (mStatus ia) kIaStatusInvalid); [discriminate|].
    destruct (mValidLifetime ia =? 0); [|discriminate]. cbn [negb orb andb] in *.
    rewrite Ht. unfold applyIaAddress, assigned. rewrite Ha, Hp, Hv. reflexivity.
  - cbn in Hi.
    rewrite (IH idx ia Hi Ht)
      by (intros j y Hj Hy; apply (Hbefore (S j)); [lia|exact Hy]).
    specialize (Hbefore 0%nat x ltac:(lia) eq_refl). unfold takes in Hbefore.
    destruct (IaStatus_eqb (mStatus x) kIaStatusInvalid); [reflexivity|].
    destruct (mValidLifetime x =? 0); [|reflexivity]. cbn [negb orb andb] in *.
    rewrite Hbefore. reflexivity.
Qed.

Lemma FindOption_IaNa_status n m (A : list Z) addr preferred valid l2 :
  mData m = A ++ IaAddress_bytes addr preferred valid ++ options_bytes l2 ->
  codesOk l2 ->
  GetLength m < 2 ^ 16 ->
  (3 <= n)%nat ->
  FindOption n m (Z.of_nat (length A)) sizeof_IaAddress kOptionStatusCode
  = Some (match l2 with
          | o :: _ => if fst o =? kOptionStatusCode
                      then Z.of_nat (length A) + sizeof_IaAddress else 0
          | [] => 0
          end).
Proof.
  intros Hm Hok Hlen Hn.
  destruct n as [|[|[|n]]]; try lia.
  assert (GetLength m = Z.of_nat (length A) + 28 + Z.of_nat (length (options_bytes l2)))
    as HL.
  { unfold GetLength. rewrite Hm, !length_app, IaAddress_bytes_length. lia. }
  unfold FindOption, sizeof_IaAddress. rewrite u16_small by lia.
  cbn [FindOption_loop].
  destruct (Z.leb_spec (Z.of_nat (length A)) (Z.of_nat (length A) + 28)); [|lia].
  rewrite IaAddress_bytes_option in Hm.
  destruct (option_header_read m A _ _ _ Hm) as (Hr & Hc & Hl);
    [unfold kOptionIaAddress; lia|cbn; lia|].
  rewrite Hr, Hc, Hl. change (sizeof_Option =? sizeof_Option) with true.
  change (kOptionIaAddress =? kOptionStatusCode) with false. cbv iota.
  change (sizeof_Option
          + Z.of_nat (length (be_enc 16 addr ++ be_enc 4 preferred ++ be_enc 4 valid)))
    with 28.
  rewrite u16_small by lia.
  destruct (Z.leb_spec (Z.of_nat (length A) + 28) (Z.of_nat (length A) + 28)); [|lia].
  assert (Z.of_nat (length A) + 28
          = Z.of_nat (length (A ++ Option_bytes kOptionIaAddress
                                     (be_enc 16 addr ++ be_enc 4 preferred
                                      ++ be_enc 4 valid)))) as HA
    by (rewrite length_app, Option_bytes_length; cbn; lia).
  destruct l2 as [|[c2 p2] l2].
  - assert (Message_Read m (Z.of_nat (length A) + 28) sizeof_Option = []) as ->.
    { rewrite HA. rewrite (Message_Read_at m _ []) by (rewrite <- app_assoc; exact Hm).
      reflexivity. }
    reflexivity.
  - rewrite options_bytes_cons, length_app, Option_bytes_length in HL.
    cbn [fst snd] in *. inversion Hok as [|? ? Hc2 _]; subst. cbn [fst] in Hc2.
    assert (bytesRead (Message_Read m (Z.of_nat (length A) + 28) sizeof_Option)
            = sizeof_Option
            /\ Option_GetCode (Message_Read m (Z.of_nat (length A) + 28) sizeof_Option)
               = c2
            /\ Option_GetLength (Message_Read m (Z.of_nat (length A) + 28) sizeof_Option)
               = Z.of_nat (length p2)) as (Hr2 & Hcode2 & Hl2).
    { rewrite HA. apply (option_header_read m _ c2 p2 (options_bytes l2));
        [rewrite <- app_assoc; exact Hm|exact Hc2|lia]. }
    rewrite Hr2, Hcode2, Hl2. change (sizeof_Option =? sizeof_Option) with true.
    cbv iota.
    destruct (Z.eqb_spec c2 kOptionStatusCode); [reflexivity|].
    rewrite u16_small by (unfold sizeof_Option; lia).
    destruct (Z.leb_spec (Z.of_nat (length A) + 28
                          + (sizeof_Option + Z.of_nat (length p2)))
                (Z.of_nat (length A) + 28)); [unfold sizeof_Option in *; lia|].
    reflexivity.
Qed.

Lemma FindOption_IaNa_address n m (A : list Z) addr preferred valid B :
  mData m = A ++ IaAddress_bytes addr preferred valid ++ B ->
  GetLength m < 2 ^ 16 ->
  (1 <= n)%nat ->
  FindOption n m (Z.of_nat (length A)) sizeof_IaAddress kOptionIaAddress
  = Some (Z.of_nat (length A)).
Proof.
  intros Hm Hlen Hn. destruct n as [|n]; [lia|].
  assert (GetLength m = Z.of_nat (length A) + 28 + Z.of_nat (length B)) as HL.
  { unfold GetLength. rewrite Hm, !length_app, IaAddress_bytes_length. lia. }
  unfold FindOption, sizeof_IaAddress. rewrite u16_small by lia.
  cbn [FindOption_loop].
  destruct (Z.leb_spec (Z.of_nat (length A)) (Z.of_nat (length A) + 28)); [|lia].
  rewrite IaAddress_bytes_option in Hm.
  destruct (option_header_read m A _ _ _ Hm) as (Hr & Hc & Hl);
    [unfold kOptionIaAddress; lia|cbn; lia|].
  rewrite Hr, Hc. reflexivity.
Qed.

Lemma ProcessIaAddress_first m (A : list Z) addr preferred valid B c idx ia :
  mData m = A ++ IaAddress_bytes addr preferred valid ++ B ->
  0 <= addr < 2 ^ 128 -> 0 <= preferred < 2 ^ 32 -> 0 <= valid < 2 ^ 32 ->
  mIdentityAssociations c !! idx = Some ia ->
  takes addr ia = true ->
  (forall j x, (j < idx)%nat -> mIdentityAssociations c !! j = Some x ->
               takes addr x = false) ->
  ProcessIaAddress m (Z.of_nat (length A)) c
  = (OT_ERROR_NONE,
     withNetifCalls
       [AddUnicastAddress (mNetifAddress (assigned addr preferred valid ia))]
       (withAssociations
          (<[idx := assigned addr preferred valid ia]> (mIdentityAssociations c)) c)).
Proof.
  intros Hm Ha Hp Hv Hi Ht Hbefore. unfold ProcessIaAddress.
  rewrite (Message_Read_at m A _ _ Hm).
  assert (firstn (Z.to_nat sizeof_IaAddress) (IaAddress_bytes addr preferred valid ++ B)
          = IaAddress_bytes addr preferred valid) as -> by reflexivity.
  assert ((bytesRead (IaAddress_bytes addr preferred valid) =? sizeof_IaAddress)
          && (Option_GetLength (IaAddress_bytes addr preferred valid)
              =? sizeof_IaAddress - sizeof_Option) = true) as -> by reflexivity.
  destruct (IaAddress_fields addr preferred valid Ha Hp Hv) as (Fa & Fp & Fv).
  rewrite (ProcessIaAddress_loop_first _ addr preferred valid Fa Fp Fv _ idx ia Hi Ht Hbefore).
  reflexivity.
Qed.

Lemma IaNa_option_bytes iaid t1 t2 addr preferred valid :
  Option_bytes kOptionIaNa (IaNa_payload iaid t1 t2 addr preferred valid)
  = IaNa_bytes (sizeof_IaNa - sizeof_Option + sizeof_IaAddress) iaid t1 t2
    ++ IaAddress_bytes addr preferred valid.
Proof. reflexivity. Qed.

Lemma IaNa_bytes_length len iaid t1 t2 : length (IaNa_bytes len iaid t1 t2) = 16%nat.
Proof. reflexivity. Qed.

(** [ProcessIaNa] on a container that holds one IaAddress option, followed
    by the options [l2]. *)
Lemma ProcessIaNa_one_address n m (A : list Z) iaid t1 t2 addr preferred valid l2 c idx ia :
  mData m = A ++ Option_bytes kOptionIaNa (IaNa_payload iaid t1 t2 addr preferred valid)
              ++ options_bytes l2 ->
  codesOk l2 ->
  (forall o, head l2 = Some o -> fst o = kOptionStatusCode -> successStatus (snd o)) ->
  GetLength m < 2 ^ 16 ->
  (3 <= n)%nat ->
  0 <= addr < 2 ^ 128 -> 0 <= preferred < 2 ^ 32 -> 0 <= valid < 2 ^ 32 ->
  mIdentityAssociations c !! idx = Some ia ->
  takes addr ia = true ->
  (forall j x, (j < idx)%nat -> mIdentityAssociations c !! j = Some x ->
               takes addr x = false) ->
  ProcessIaNa n m (Z.of_nat (length A)) c
  = Some (OT_ERROR_NONE,
          withNetifCalls
            [AddUnicastAddress (mNetifAddress (assigned addr preferred valid ia))]
            (withAssociations
               (<[idx := assigned addr preferred valid ia]> (mIdentityAssociations c))
               c)).
Proof.
  intros Hm Hok Hall Hlen Hn Ha Hp Hv Hi Ht Hbefore.
  assert (GetLength m = Z.of_nat (length A) + 44 + Z.of_nat (length (options_bytes l2)))
    as HL.
  { unfold GetLength. rewrite Hm, !length_app, Option_bytes_length.
    change (length (IaNa_payload iaid t1 t2 addr preferred valid)) with 40%nat. lia. }
  unfold ProcessIaNa.
  rewrite (Message_Read_at m A _ _ Hm).
  assert (firstn (Z.to_nat sizeof_IaNa)
            (Option_bytes kOptionIaNa (IaNa_payload iaid t1 t2 addr preferred valid)
             ++ options_bytes l2)
          = IaNa_bytes 40 iaid t1 t2) as -> by reflexivity.
  change (bytesRead (IaNa_bytes 40 iaid t1 t2) =? sizeof_IaNa) with true. cbv iota zeta.
  change (IaNa_window (IaNa_bytes 40 iaid t1 t2)) with 28.
  replace (u16 (Z.of_nat (length A) + sizeof_IaNa))
    with (Z.of_nat (length (A ++ IaNa_bytes 40 iaid t1 t2)))
    by (rewrite length_app, IaNa_bytes_length, u16_small; unfold sizeof_IaNa; lia).
  set (A' := A ++ IaNa_bytes 40 iaid t1 t2).
  assert (Z.of_nat (length A') = Z.of_nat (length A) + 16) as HA'
    by (subst A'; rewrite length_app, IaNa_bytes_length; lia).
  assert (mData m = A' ++ IaAddress_bytes addr preferred valid ++ options_bytes l2)
    as Hm'.
  { rewrite Hm, IaNa_option_bytes. subst A'. rewrite <- !app_assoc. reflexivity. }
  destruct (Z.leb_spec 28 (GetLength m - Z.of_nat (length A'))); [|lia].
  unfold ProcessIaNa_options.
  change 28 with sizeof_IaAddress.
  rewrite (FindOption_IaNa_status n m A' addr preferred valid l2 Hm' Hok Hlen Hn).
  cbn [mbind option_bind].
  assert ((if (match l2 with
               | [] => 0
               | o :: _ => if fst o =? kOptionStatusCode
                           then Z.of_nat (length A') + sizeof_IaAddress else 0
               end) >? 0
           then ProcessStatusCode m
                  (match l2 with
                   | [] => 0
                   | o :: _ => if fst o =? kOptionStatusCode
                               then Z.of_nat (length A') + sizeof_IaAddress else 0
                   end)
           else OT_ERROR_NONE) = OT_ERROR_NONE) as ->.
  { destruct l2 as [|[c2 p2] l2]; [reflexivity|]. cbn [fst].
    destruct (Z.eqb_spec c2 kOptionStatusCode) as [->|]; [|reflexivity].
    destruct (_ >? 0); [|reflexivity].
    replace (Z.of_nat (length A') + sizeof_IaAddress)
      with (Z.of_nat (length (A' ++ IaAddress_bytes addr preferred valid)))
      by (rewrite length_app, IaAddress_bytes_length; unfold sizeof_IaAddress; lia).
    apply (ProcessStatusCode_success m _ p2 (options_bytes l2)).
    - rewrite <- app_assoc. exact Hm'.
    - rewrite options_bytes_cons, length_app, Option_bytes_length in HL.
      cbn [fst snd] in HL. lia.
    - exact (Hall (kOptionStatusCode, p2) eq_refl eq_refl). }
  destruct n as [|[|n]]; try lia.
  cbn [ProcessIaNa_loop].
  change (sizeof_IaAddress >? 0) with true. cbv iota.
  rewrite (FindOption_IaNa_address _ m A' addr preferred valid _ Hm' Hlen) by lia.
  cbn [mbind option_bind].
  destruct (Z.eqb_spec (Z.of_nat (length A')) 0); [lia|].
  rewrite (ProcessIaAddress_first m A' addr preferred valid _ c idx ia Hm')
    by assumption.
  replace (u16 (sizeof_IaAddress
                - (Z.of_nat (length A') - Z.of_nat (length A') + sizeof_IaAddress)))
    with 0 by (rewrite Z.sub_diag; reflexivity).
  reflexivity.
Qed.

(** The timer handler leaves the interface table alone, and every
    association that is not waiting to solicit. *)
Lemma HandleTrickleTimer_keeps eui64 env c i ia :
  mIdentityAssociations c !! i = Some ia ->
  mStatus ia <> kIaStatusSolicit ->
  mIdentityAssociations (snd (HandleTrickleTimer eui64 env c)) !! i = Some ia
  /\ netifCalls (snd (HandleTrickleTimer eui64 env c)) = netifCalls c.
Proof.
  intros Hi Hs. unfold HandleTrickleTimer.
  destruct (mIdentityAssociationCurrent c) as [j|]; [|auto].
  destruct (mIdentityAssociations c !! j) as [current|] eqn:Hj; [|auto].
  destruct (mStatus current) eqn:Hc; cbn [snd]; [auto| | |].
  - destruct (Solicit_keeps eui64 env (mPrefixAgentRloc current)
                (withAssociations
                   (alter (setStatus kIaStatusSoliciting) j (mIdentityAssociations c))
                   (withStartTime (eNow env) c))) as (-> & _ & ->).
    split; [|reflexivity]. cbn.
    rewrite list_lookup_alter_ne; [exact Hi|]. intros ->. congruence.
  - destruct (Solicit_keeps eui64 env (mPrefixAgentRloc current) c) as (-> & _ & ->).
    auto.
  - destruct (ProcessNextIdentityAssociation_keeps (eRandom env) (withCurrent None c))
      as (Hp & Hn & _).
    destruct (ProcessNextIdentityAssociation (eRandom env) (withCurrent None c))
      as [next c1]. cbn [snd] in *.
    destruct next; cbn [snd]; rewrite ?Hp, ?Hn; auto.
    cbn. rewrite Hp, Hn. auto.
Qed.

Lemma Forall_In_sub {A} (P : A -> Prop) (l l2 : list A) :
  Forall P l -> Forall (fun o => In o l) l2 -> Forall P l2.
Proof.
  intros Hl Hsub. rewrite Forall_forall in Hl. eapply Forall_impl; [exact Hsub|].
  intros o Ho. apply Hl, list_elem_of_In, Ho.
Qed.

Lemma datagram_header pre type txid opts :
  0 <= type < 256 -> 0 <= txid < 2 ^ 24 ->
  let header := Message_Read (datagram pre type txid opts)
                  (GetOffset (datagram pre type txid opts)) sizeof_Header in
  bytesRead header = sizeof_Header
  /\ Header_GetType header = type
  /\ Header_GetTransactionId header = txid.
Proof.
  intros Ht Hx header. subst header. cbn [GetOffset datagram mOffset].
  rewrite (Message_Read_at _ pre (Header_bytes type txid ++ options_bytes opts))
    by reflexivity.
  assert (firstn (Z.to_nat sizeof_Header) (Header_bytes type txid ++ options_bytes opts)
          = Header_bytes type txid) as -> by reflexivity.
  split; [reflexivity|]. unfold Header_GetType, Header_GetTransactionId. split.
  - change (sub (Header_bytes type txid) 0 1) with (be_enc 1 type).
    apply (be_dec_be_enc_small 1). exact Ht.
  - change (sub (Header_bytes type txid) 1 3) with (be_enc 3 txid).
    apply (be_dec_be_enc_small 3). exact Hx.
Qed.

(** C1, amended: a well-formed Reply with the outstanding transaction id,
    whose StatusCode (the first one, if it has any) says success, with an
    accepted ServerIdentifier, this node's ClientIdentifier, RapidCommit and
    an IA_NA container with one IaAddress, assigns the offered address to
    the first association of the pool that is valid, has
    [mValidLifetime = 0] and matches the address over its prefix length,
    whatever its status: that association becomes replied, takes the address
    and both lifetimes of the option, and is added to the interface.  The
    soliciting association is the one when it matches and no association
    before it in the pool takes the address.  A failing StatusCode directly
    behind the container is left out. *)
Theorem HandleUdpReceive_accepts n eui64 env pre txid opts addr preferred valid c idx ia :
  acceptableReply eui64 n pre txid opts addr preferred valid ->
  mTransactionId c = txid ->
  mIdentityAssociations c !! idx = Some ia ->
  mStatus ia <> kIaStatusInvalid ->
  mValidLifetime ia = 0 ->
  PrefixMatch (mAddress (mNetifAddress ia)) addr >= mPrefixLength (mNetifAddress ia) ->
  (forall j x, (j < idx)%nat -> mIdentityAssociations c !! j = Some x ->
               takes addr x = false) ->
  exists c',
    HandleUdpReceive n eui64 env (datagram pre kTypeReply txid opts) c = Some c'
    /\ mIdentityAssociations c' !! idx = Some (assigned addr preferred valid ia)
    /\ mStatus (assigned addr preferred valid ia) = kIaStatusSolicitReplied
    /\ netifCalls c'
       = netifCalls c
         ++ [AddUnicastAddress (mNetifAddress (assigned addr preferred valid ia))].
Proof.
  intros (Hok & Hlen & Hn & Htx & Hstat & Hbehind & (ks & ps & Hfs & Hsrv) & (kc & Hfc)
          & He & (kr & pr & Hfr) & (ki & iaid & t1 & t2 & Hfi) & Ha & Hp & Hv)
         Htxid Hi Hs Hvl Hpm Hbefore.
  assert (takes addr ia = true) as Ht.
  { unfold takes. rewrite Hvl.
    destruct (mStatus ia); [contradiction| | |]; cbn; apply Z.geb_le; lia. }
  set (c1 := withNetifCalls
               [AddUnicastAddress (mNetifAddress (assigned addr preferred valid ia))]
               (withAssociations
                  (<[idx := assigned addr preferred valid ia]> (mIdentityAssociations c))
                  c)).
  assert (mIdentityAssociations c1 !! idx = Some (assigned addr preferred valid ia))
    as Hi1.
  { cbn. apply list_lookup_insert_eq. eapply lookup_lt_Some. exact Hi. }
  destruct (HandleTrickleTimer_keeps eui64 env c1 idx _ Hi1 ltac:(discriminate))
    as [Hkeep Hcalls].
  exists (snd (HandleTrickleTimer eui64 env c1)).
  split; [|split; [exact Hkeep|split; [reflexivity|exact Hcalls]]].
  unfold HandleUdpReceive.
  destruct (datagram_header pre kTypeReply txid opts ltac:(unfold kTypeReply; lia) Htx)
    as (-> & -> & ->).
  rewrite Htxid, !Z.eqb_refl. cbn [andb].
  unfold ProcessReply.
  assert ((length opts < n)%nat) as Hn' by lia.
  destruct (ProcessReply_status_ok n pre kTypeReply txid opts Hok Hlen Hn' Hstat)
    as (o & Ho1 & Ho2).
  rewrite Ho1. cbn [mbind option_bind]. rewrite Ho2.
  (* ServerIdentifier *)
  rewrite (FindOption_datagram pre kTypeReply txid opts kOptionServerIdentifier n)
    by assumption.
  rewrite Hfs. cbn [mbind option_bind].
  destruct (firstOption_payload_length _ _ _ _ _ _ _ Hlen Hfs) as [Hks Hpsl].
  rewrite optionsOffset_pos by assumption.
  destruct (datagram_split pre kTypeReply txid opts _ ks ps Hfs) as (As & Bs & Hms & <- & _).
  rewrite (ProcessServerIdentifier_accepted _ As ps Bs Hms Hpsl Hsrv).
  (* ClientIdentifier *)
  rewrite (FindOption_datagram pre kTypeReply txid opts kOptionClientIdentifier n)
    by assumption.
  rewrite Hfc. cbn [mbind option_bind].
  destruct (firstOption_payload_length _ _ _ _ _ _ _ Hlen Hfc) as [Hkc _].
  rewrite optionsOffset_pos by assumption.
  destruct (datagram_split pre kTypeReply txid opts _ kc _ Hfc) as (Ac & Bc & Hmc & <- & _).
  rewrite (ProcessClientIdentifier_own eui64 _ Ac Bc Hmc He).
  (* RapidCommit *)
  rewrite (FindOption_datagram pre kTypeReply txid opts kOptionRapidCommit n)
    by assumption.
  rewrite Hfr. cbn [mbind option_bind].
  destruct (firstOption_payload_length _ _ _ _ _ _ _ Hlen Hfr) as [Hkr _].
  rewrite optionsOffset_pos by assumption.
  (* IA_NA *)
  rewrite (FindOption_datagram pre kTypeReply txid opts kOptionIaNa n) by assumption.
  rewrite Hfi. cbn [mbind option_bind].
  destruct (firstOption_payload_length _ _ _ _ _ _ _ Hlen Hfi) as [Hki _].
  rewrite optionsOffset_pos by assumption.
  destruct (optionAfter_first _ _ _ _ Hfi) as (l1 & l2 & Hopts & Hki' & Hafter).
  set (Ai := pre ++ Header_bytes kTypeReply txid ++ options_bytes l1).
  assert (optionsOffset pre + ki = Z.of_nat (length Ai)) as ->.
  { subst Ai. unfold optionsOffset, sizeof_Header.
    rewrite !length_app, Header_bytes_length. lia. }
  rewrite (ProcessIaNa_one_address n _ Ai iaid t1 t2 addr preferred valid l2 c idx ia);
    try assumption; try lia.
  - reflexivity.
  - subst Ai. cbn [MoveOffset datagram mData]. rewrite Hopts.
    rewrite options_bytes_app, options_bytes_cons, <- !app_assoc. reflexivity.
  - unfold codesOk in *. rewrite Hopts in Hok.
    apply Forall_app in Hok as [_ Hok]. inversion Hok; assumption.
  - intros o' Ho'. apply Hbehind. rewrite Hafter. exact Ho'.
Qed.

(** *** Two prefixes, one inside the other *)



Ltac each_element tac :=
  repeat (apply List.Forall_cons; [tac|]); apply List.Forall_nil.

Ltac code_in_range :=
  cbv [fst kOptionServerIdentifier kOptionClientIdentifier kOptionRapidCommit
       kOptionIaNa kOptionStatusCode]; lia.

Lemma replyOptions_acceptable n txid addr preferred valid :
  (7 <= n)%nat -> 0 <= txid < 2 ^ 24 ->
  0 <= addr < 2 ^ 128 -> 0 <= preferred < 2 ^ 32 -> 0 <= valid < 2 ^ 32 ->
  acceptableReply nodeEui64 n pre48 txid (replyOptions addr preferred valid)
    addr preferred valid.
Proof.
  intros Hn Htx Ha Hp Hv. unfold acceptableReply, replyOptions.
  split; [unfold codesOk; each_element code_in_range|].
  split; [rewrite datagram_length; vm_compute; reflexivity|].
  split; [cbn; lia|].
  split; [exact Htx|].
  split; [intros k payload H; discriminate H|].
  split; [intros o H; discriminate H|].
  split.
  { exists 0, (ownDuid 0x00aabbccddeeff00). split; [reflexivity|].
    split; [cbn; lia|]. right. repeat split; vm_compute; reflexivity. }
  split; [exists 16; reflexivity|].
  split; [vm_compute; split; [discriminate|reflexivity]|].
  split; [exists 32, []; reflexivity|].
  split; [exists 36, 0, 0, 0; reflexivity|].
  auto.
Qed.

Lemma twoSecondSoliciting_reachable : reachable nodeEui64 2 twoSecondSoliciting.
Proof.
  apply (reachable_step _ _ twoFirstReplied);
    [|apply (step_HandleTrickleTimer _ _ runEnv)].
  apply (reachable_step _ _ twoFirstSoliciting);
    [|apply (step_HandleUdpReceive _ _ 8%nat runEnv
               (datagram pre48 kTypeReply 0x123456 (replyOptions addressA 1800 3600)));
      vm_compute; reflexivity].
  apply (reachable_step _ _ twoConfigured);
    [|apply (step_HandleTrickleTimer _ _ runEnv)].
  apply (reachable_step _ _ (Client_init 2 0));
    [apply reachable_init|apply step_UpdateAddresses].
Qed.

Lemma twoReconfigured_reachable : reachable nodeEui64 2 twoReconfigured.
Proof.
  apply (reachable_step _ _ twoSecondSoliciting); [|apply step_UpdateAddresses].
  apply twoSecondSoliciting_reachable.
Qed.

(** In the two-slot pool the first slot waits for prefix Q while the second
    solicits for prefix B. *)
Lemma at_most_one_soliciting_witness :
  map mStatus (mIdentityAssociations twoReconfigured)
  = [kIaStatusSolicit; kIaStatusSoliciting]
  /\ (length (List.filter isSoliciting (mIdentityAssociations twoReconfigured)) <= 1)%nat.
Proof.
  split; [vm_compute; reflexivity|].
  apply (at_most_one_soliciting nodeEui64 2 twoReconfigured).
  apply twoReconfigured_reachable.
Defined.

Lemma pending_association_has_no_lifetime_witness :
  map mStatus (mIdentityAssociations twoReconfigured)
  = [kIaStatusSolicit; kIaStatusSoliciting]
  /\ map mValidLifetime (mIdentityAssociations twoReconfigured) = [0; 0].
Proof.
  split; [vm_compute; reflexivity|].
  pose proof (pending_association_has_no_lifetime nodeEui64 2 twoReconfigured
                twoReconfigured_reachable) as H.
  destruct (mIdentityAssociations twoReconfigured) as [|a [|b [|x rest]]] eqn:E;
    try (vm_compute in E; discriminate E).
  assert (mStatus a = kIaStatusSolicit /\ mStatus b = kIaStatusSoliciting) as [Ha Hb]
    by (vm_compute in E; injection E as <- <-; split; reflexivity).
  cbn [map]. rewrite (H 0%nat a eq_refl (or_introl Ha)), (H 1%nat b eq_refl (or_intror Hb)).
  reflexivity.
Defined.

(** Counterexample to C1: in this reachable state the second slot is
    soliciting for prefix B and a well-formed Reply offers an address of B,
    which matches the second slot over its 64 bits.  The first slot, waiting
    for the 16-bit prefix Q with [mValidLifetime = 0], matches the address
    too and comes first: it takes the address, and the soliciting slot stays
    as it was. *)
Lemma earlier_association_takes_address :
  reachable nodeEui64 2 twoReconfigured
  /\ acceptableReply nodeEui64 8 pre48 0xabcdef (replyOptions addressB 1800 3600)
       addressB 1800 3600
  /\ mTransactionId twoReconfigured = 0xabcdef
  /\ (exists ia, mIdentityAssociations twoReconfigured !! 1%nat = Some ia
                 /\ mStatus ia = kIaStatusSoliciting
                 /\ mValidLifetime ia = 0
                 /\ PrefixMatch (mAddress (mNetifAddress ia)) addressB
                    >= mPrefixLength (mNetifAddress ia))
  /\ exists c',
       HandleUdpReceive 8 nodeEui64 runEnv
         (datagram pre48 kTypeReply 0xabcdef (replyOptions addressB 1800 3600))
         twoReconfigured = Some c'
       /\ (mStatus <$> mIdentityAssociations c' !! 1%nat) = Some kIaStatusSoliciting
       /\ (mStatus <$> mIdentityAssociations c' !! 0%nat)
          = Some kIaStatusSolicitReplied
       /\ (mAddress <$> (mNetifAddress <$> mIdentityAssociations c' !! 0%nat))
          = Some addressB
       /\ (mAddress <$> (mNetifAddress <$> mIdentityAssociations c' !! 1%nat))
          = Some (mPrefix prefixB).
Proof.
  split; [apply twoReconfigured_reachable|].
  split; [apply replyOptions_acceptable; vm_compute; (lia || (split; discriminate || reflexivity))|].
  split; [vm_compute; reflexivity|].
  split.
  - exists (setStatus kIaStatusSoliciting
              (served (NetworkData.mkConfig prefixB true 0x4400) zeroAssociation)).
    split; [vm_compute; reflexivity|].
    repeat split; vm_compute; congruence.
  - destruct (HandleUdpReceive 8 nodeEui64 runEnv
                (datagram pre48 kTypeReply 0xabcdef (replyOptions addressB 1800 3600))
                twoReconfigured) as [c'|] eqn:E; [|vm_compute in E; discriminate E].
    exists c'. split; [reflexivity|].
    vm_compute in E. injection E as <-.
    repeat split; reflexivity.
Qed.

Lemma HandleUdpReceive_accepts_witness :
  exists ia c',
    mIdentityAssociations twoReconfigured !! 0%nat = Some ia
    /\ mStatus ia = kIaStatusSolicit
    /\ HandleUdpReceive 10 nodeEui64 runEnv
         (datagram pre48 kTypeReply 0xabcdef
            ((kOptionStatusCode, [0; 0]) :: (kOptionStatusCode, [0; 5])
             :: replyOptions addressB 1800 3600))
         twoReconfigured = Some c'
    /\ mIdentityAssociations c' !! 0%nat = Some (assigned addressB 1800 3600 ia)
    /\ mStatus (assigned addressB 1800 3600 ia) = kIaStatusSolicitReplied
    /\ netifCalls c'
       = netifCalls twoReconfigured
         ++ [AddUnicastAddress (mNetifAddress (assigned addressB 1800 3600 ia))].
Proof.
  destruct (mIdentityAssociations twoReconfigured !! 0%nat) as [ia|] eqn:Hia;
    [|vm_compute in Hia; discriminate Hia].
  exists ia.
  destruct (HandleUdpReceive_accepts 10 nodeEui64 runEnv pre48 0xabcdef
              ((kOptionStatusCode, [0; 0]) :: (kOptionStatusCode, [0; 5])
               :: replyOptions addressB 1800 3600)
              addressB 1800 3600 twoReconfigured 0%nat ia) as (c' & H).
  - unfold acceptableReply, replyOptions.
    split; [unfold codesOk; each_element code_in_range|].
    split; [rewrite datagram_length; vm_compute; reflexivity|].
    split; [cbn; lia|].
    split; [lia|].
    split; [intros k payload Hf; injection Hf as _ <-; split; [cbn; lia|reflexivity]|].
    split; [intros o Ho; discriminate Ho|].
    split.
    { exists 12, (ownDuid 0x00aabbccddeeff00). split; [reflexivity|].
      split; [cbn; lia|]. right. repeat split; vm_compute; reflexivity. }
    split; [exists 28; reflexivity|].
    split; [vm_compute; split; [discriminate|reflexivity]|].
    split; [exists 44, []; reflexivity|].
    split; [exists 48, 0, 0, 0; reflexivity|].
    vm_compute. repeat split; discriminate.
  - reflexivity.
  - exact Hia.
  - vm_compute in Hia. injection Hia as <-. discriminate.
  - vm_compute in Hia. injection Hia as <-. reflexivity.
  - vm_compute in Hia. injection Hia as <-. vm_compute. discriminate.
  - intros j x Hj. lia.
  - exists c'. split; [reflexivity|]. split; [|exact H].
    vm_compute in Hia. injection Hia as <-. reflexivity.
Defined.

(** A failing StatusCode directly behind the IA_NA container is read by the
    scan of the container, whose window includes its end, and the Reply is
    dropped; one option further on it is not read and the Reply is accepted.
    [statusBehindIaNaOk] leaves the first case out of [acceptableReply]. *)
Lemma failing_status_behind_container :
  HandleUdpReceive 10 nodeEui64 runEnv
    (datagram pre48 kTypeReply 0x123456
       ((kOptionStatusCode, [0; 0]) :: replyOptions addressA 1800 3600
        ++ [(kOptionStatusCode, [0; 1])]))
    runSoliciting = Some runSoliciting
  /\ exists c',
       HandleUdpReceive 10 nodeEui64 runEnv
         (datagram pre48 kTypeReply 0x123456
            ((kOptionStatusCode, [0; 0]) :: replyOptions addressA 1800 3600
             ++ [(kOptionRapidCommit, []); (kOptionStatusCode, [0; 1])]))
         runSoliciting = Some c'
       /\ (mStatus <$> mIdentityAssociations c' !! 0%nat) = Some kIaStatusSolicitReplied.
Proof.
  split; [vm_compute; reflexivity|].
  eexists. split; vm_compute; reflexivity.
Qed.



(** * Further properties *)

(** ** The scan for an option *)

Lemma firstOption_absent code opts :
  Forall (fun o => fst o <> code) opts -> firstOption code opts = None.
Proof.
  induction 1 as [|o opts Ho _ IH]; [reflexivity|].
  cbn [firstOption]. destruct (Z.eqb_spec (fst o) code); [contradiction|].
  rewrite IH. reflexivity.
Qed.

Lemma firstOption_first code l1 payload l2 :
  Forall (fun o => fst o <> code) l1 ->
  firstOption code (l1 ++ (code, payload) :: l2)
  = Some (Z.of_nat (length (options_bytes l1)), payload).
Proof.
  induction 1 as [|o l1 Ho _ IH]; cbn [app firstOption fst snd].
  - rewrite Z.eqb_refl. reflexivity.
  - destruct (Z.eqb_spec (fst o) code); [contradiction|].
    rewrite IH, options_bytes_cons, length_app. do 2 f_equal. lia.
Qed.

(** X1: a non-zero result of [FindOption] is the offset of a complete option
    header that carries the code asked for, and lies at or before the end of
    the window (the end included). *)
Theorem FindOption_result_is_option fuel m aOffset aLength aCode r :
  FindOption fuel m aOffset aLength aCode = Some r ->
  r <> 0 ->
  bytesRead (Message_Read m r sizeof_Option) = sizeof_Option
  /\ Option_GetCode (Message_Read m r sizeof_Option) = aCode
  /\ r <= u16 (aOffset + aLength).
Proof.
  unfold FindOption. intros H Hr.
  destruct (FindOption_loop_sound _ _ _ _ _ _ H Hr) as (Hend & Hread & Hcode).
  repeat split; assumption.
Qed.

Lemma FindOption_result_is_option_witness :
  bytesRead (Message_Read replyA 68 sizeof_Option) = sizeof_Option
  /\ Option_GetCode (Message_Read replyA 68 sizeof_Option) = kOptionClientIdentifier
  /\ 68 <= u16 (52 + 80).
Proof.
  apply (FindOption_result_is_option 8 replyA 52 80 kOptionClientIdentifier 68).
  - vm_compute. reflexivity.
  - discriminate.
Defined.

(** X2: over a datagram whose options are well formed, [FindOption] as
    [ProcessReply] calls it steps from option to option by the declared
    lengths and returns the offset of the first option that carries the
    code; it returns 0 when no option carries it. *)
Theorem FindOption_first_match pre type txid opts code n :
  codesOk opts ->
  GetLength (datagram pre type txid opts) < 2 ^ 16 ->
  (length opts < n)%nat ->
  let m := MoveOffset (datagram pre type txid opts) sizeof_Header in
  let found := FindOption n m (GetOffset m) (u16 (GetLength m - GetOffset m)) code in
  (Forall (fun o => fst o <> code) opts -> found = Some 0)
  /\ (forall l1 payload l2,
        opts = l1 ++ (code, payload) :: l2 ->
        Forall (fun o => fst o <> code) l1 ->
        found = Some (optionsOffset pre + Z.of_nat (length (options_bytes l1)))).
Proof.
  intros Hok Hlen Hn m found. subst found m.
  rewrite FindOption_datagram by assumption. split.
  - intros Habs. rewrite (firstOption_absent _ _ Habs). reflexivity.
  - intros l1 payload l2 -> Hl1. rewrite (firstOption_first _ _ _ _ Hl1). reflexivity.
Qed.

Lemma FindOption_first_match_witness :
  FindOption 8 (MoveOffset replyA sizeof_Header) 52 (u16 (132 - 52)) kOptionStatusCode
  = Some 0
  /\ FindOption 8 (MoveOffset replyA sizeof_Header) 52 (u16 (132 - 52)) kOptionRapidCommit
     = Some (52 + 32).
Proof.
  pose proof (FindOption_first_match pre48 kTypeReply 0x123456
                (replyOptions addressA 1800 3600)) as H.
  split.
  - destruct (H kOptionStatusCode 8%nat) as [Habs _].
    + unfold codesOk, replyOptions; each_element code_in_range.
    + vm_compute. reflexivity.
    + cbn. lia.
    + apply Habs. unfold replyOptions.
      each_element ltac:(cbn; discriminate).
  - destruct (H kOptionRapidCommit 8%nat) as [_ Hfirst].
    + unfold codesOk, replyOptions; each_element code_in_range.
    + vm_compute. reflexivity.
    + cbn. lia.
    + apply (Hfirst [ (kOptionServerIdentifier, ownDuid 0x00aabbccddeeff00);
                      (kOptionClientIdentifier, ownDuid nodeEui64) ]
                    [] [ (kOptionIaNa, IaNa_payload 0 0 0 addressA 1800 3600) ]).
      * reflexivity.
      * each_element ltac:(cbn; discriminate).
Defined.

(** ** The Solicit as a whole *)

Lemma Message_Append_cases room m bs :
  (Message_Append room m bs = (OT_ERROR_NONE, appended m bs)
   /\ GetLength m + Z.of_nat (length bs) <= room)
  \/ (Message_Append room m bs = (OT_ERROR_NO_BUFS, m)
      /\ room < GetLength m + Z.of_nat (length bs)).
Proof.
  unfold Message_Append.
  destruct (Z.leb_spec (GetLength m + Z.of_nat (length bs)) room); [left|right];
    split; (reflexivity || assumption).
Qed.

Lemma appended_length m bs :
  GetLength (appended m bs) = GetLength m + Z.of_nat (length bs).
Proof. unfold GetLength, appended. cbn [mData]. rewrite length_app. lia. Qed.

Lemma AppendIaAddress_loop_short room aRloc16 ias : forall m,
  GetLength m <= room ->
  room < GetLength m + Z.of_nat (length (IaAddress_options aRloc16 ias)) ->
  exists m', AppendIaAddress_loop room aRloc16 ias m = (OT_ERROR_NO_BUFS, m').
Proof.
  unfold IaAddress_options.
  induction ias as [|ia ias IH]; intros m Hm H;
    cbn [AppendIaAddress_loop List.filter] in *.
  - simpl in H. lia.
  - unfold solicited at 1 in H.
    assert (IaStatus_eqb (mStatus ia) kIaStatusSolicit
            || IaStatus_eqb (mStatus ia) kIaStatusSoliciting
            = negb (IaStatus_eqb (mStatus ia) kIaStatusInvalid)
              && negb (IaStatus_eqb (mStatus ia) kIaStatusSolicitReplied)) as ->
      by (destruct (mStatus ia); reflexivity).
    destruct (negb (IaStatus_eqb (mStatus ia) kIaStatusInvalid)
              && negb (IaStatus_eqb (mStatus ia) kIaStatusSolicitReplied)
              && (mPrefixAgentRloc ia =? aRloc16)); [|apply IH; assumption].
    cbn [flat_map] in H. rewrite length_app in H.
    destruct (Message_Append_cases room m
                (IaAddress_bytes (mAddress (mNetifAddress ia)) 0 0)) as [[-> Hfit]|[-> _]].
    + cbn [andThen]. apply IH; rewrite appended_length; lia.
    + cbn [andThen]. eauto.
Qed.

Lemma Solicit_bytes_length eui64 now aRloc16 c :
  Z.of_nat (length (Solicit_bytes eui64 now aRloc16 c)) = 46 + 28 * askedFor aRloc16 c.
Proof.
  unfold Solicit_bytes, askedFor.
  rewrite !length_app, IaAddress_options_length, IaNa_bytes_length, Header_bytes_length.
  change (length (ElapsedTime_bytes _)) with 6%nat.
  change (length (Duid_bytes _ _ _ _)) with 16%nat.
  change (length RapidCommit_bytes) with 4%nat. lia.
Qed.

(** The datagram did not fit: whatever the socket would say, nothing is
    sent. *)
Ltac no_room :=
  match goal with
  | |- context [eSendTo ?env] => destruct (eSendTo env); try reflexivity
  end;
  match goal with
  | |- context [?need <=? ?room] => destruct (Z.leb_spec need room); [lia|reflexivity]
  end.

(** [Solicit] by cases: the datagram goes out when a buffer is there, an
    association is current, everything fits and the socket takes it;
    otherwise nothing happens. *)
Lemma Solicit_cases eui64 env aRloc16 c :
  Solicit eui64 env aRloc16 c
  = match eNewMessage env, mIdentityAssociationCurrent c, eSendTo env with
    | Some room, Some _, OT_ERROR_NONE =>
        if 46 + 28 * askedFor aRloc16 c <=? room
        then withSent (aRloc16, Solicit_bytes eui64 (eNowSolicit env) aRloc16 c) c
        else c
    | _, _, _ => c
    end.
Proof.
  unfold Solicit. destruct (eNewMessage env) as [room|]; [|reflexivity].
  pose proof (IaAddress_options_length aRloc16 (mIdentityAssociations c)) as Hopt.
  assert (Z.of_nat (length (IaAddress_options aRloc16 (mIdentityAssociations c)))
          = 28 * askedFor aRloc16 c) as Hk by (unfold askedFor; lia).
  assert (0 <= askedFor aRloc16 c) as Hk0 by (unfold askedFor; lia).
  clear Hopt.
  unfold AppendHeader, AppendElapsedTime, AppendClientIdentifier, AppendRapidCommit.
  set (m0 := mkMessage [] 0).
  assert (GetLength m0 = 0) as H0 by reflexivity.
  destruct (Message_Append_cases room m0 (Header_bytes kTypeSolicit (mTransactionId c)))
    as [[-> F1]|[-> F1]]; rewrite Header_bytes_length, H0 in F1; cbn [andThen].
  2:{ destruct (mIdentityAssociationCurrent c); [|reflexivity]. no_room. }
  set (m1 := appended m0 _).
  assert (GetLength m1 = 4) as H1 by reflexivity.
  destruct (Message_Append_cases room m1
              (ElapsedTime_bytes (u16 (u32 (eNowSolicit env - mStartTime c) / 1000))))
    as [[-> F2]|[-> F2]]; rewrite H1 in F2;
    change (length (ElapsedTime_bytes _)) with 6%nat in F2; cbn [andThen].
  2:{ destruct (mIdentityAssociationCurrent c); [|reflexivity]. no_room. }
  set (m2 := appended m1 _).
  assert (GetLength m2 = 10) as H2 by reflexivity.
  destruct (Message_Append_cases room m2
              (Duid_bytes kOptionClientIdentifier kDuidLinkLayerAddress
                 kHardwareTypeEui64 eui64))
    as [[-> F3]|[-> F3]]; rewrite H2 in F3;
    change (length (Duid_bytes _ _ _ _)) with 16%nat in F3; cbn [andThen].
  2:{ destruct (mIdentityAssociationCurrent c); [|reflexivity]. no_room. }
  set (m3 := appended m2 _).
  assert (GetLength m3 = 26) as H3 by reflexivity.
  unfold AppendIaNa, AppendIaAddress.
  destruct (mIdentityAssociationCurrent c) as [cur|]; [|reflexivity].
  destruct (Message_Append_cases room m3
              (IaNa_bytes (IaNa_length aRloc16 (mIdentityAssociations c)) 0 0 0))
    as [[-> F4]|[-> F4]]; rewrite H3, IaNa_bytes_length in F4; cbn [andThen].
  2:{ no_room. }
  set (m4 := appended m3 _).
  assert (GetLength m4 = 42) as H4 by reflexivity.
  destruct (Z.le_gt_cases (GetLength m4
                           + Z.of_nat (length (IaAddress_options aRloc16
                                                 (mIdentityAssociations c)))) room)
    as [F5|F5].
  2:{ destruct (AppendIaAddress_loop_short room aRloc16 (mIdentityAssociations c) m4)
        as [m' ->]; [lia|lia|]. cbn [andThen].
      destruct (eSendTo env); try reflexivity.
      destruct (Z.leb_spec (46 + 28 * askedFor aRloc16 c) room); [lia|reflexivity]. }
  rewrite (AppendIaAddress_loop_fits room aRloc16 (mIdentityAssociations c) m4 F5).
  cbn [andThen].
  set (m5 := appended m4 _).
  assert (GetLength m5 = 42 + 28 * askedFor aRloc16 c) as H5
    by (subst m5; rewrite appended_length; lia).
  destruct (Message_Append_cases room m5 RapidCommit_bytes) as [[-> F6]|[-> F6]];
    rewrite H5 in F6; change (length RapidCommit_bytes) with 4%nat in F6.
  2:{ no_room. }
  destruct (eSendTo env); try reflexivity.
  destruct (Z.leb_spec (46 + 28 * askedFor aRloc16 c) room); [|lia].
  reflexivity.
Qed.

Lemma IaNa_length_asked aRloc16 c :
  askedFor aRloc16 c <= 255 ->
  IaNa_length aRloc16 (mIdentityAssociations c) = 12 + 28 * askedFor aRloc16 c.
Proof.
  unfold askedFor. intros Hk. unfold IaNa_length.
  rewrite countAssociations_filter by lia.
  unfold sizeof_IaNa, sizeof_IaAddress, sizeof_Option. rewrite u16_small; lia.
Qed.

Lemma Solicit_bytes_options eui64 now aRloc16 c :
  askedFor aRloc16 c <= 255 ->
  Solicit_bytes eui64 now aRloc16 c
  = mData (datagram [] kTypeSolicit (mTransactionId c)
             (solicitOptions eui64 now aRloc16 c)).
Proof.
  intros Hk. unfold Solicit_bytes, datagram, solicitOptions, options_bytes.
  cbn [mData app flat_map fst snd]. rewrite app_nil_r. f_equal.
  change (Option_bytes kOptionElapsedTime
            (be_enc 2 (u16 (u32 (now - mStartTime c) / 1000))))
    with (ElapsedTime_bytes (u16 (u32 (now - mStartTime c) / 1000))).
  change (Option_bytes kOptionClientIdentifier (ownDuid eui64))
    with (Duid_bytes kOptionClientIdentifier kDuidLinkLayerAddress kHardwareTypeEui64
            eui64).
  change (Option_bytes kOptionRapidCommit []) with RapidCommit_bytes.
  do 2 f_equal. rewrite app_assoc. f_equal.
  rewrite IaNa_length_asked by assumption.
  unfold Option_bytes, IaNa_bytes. rewrite <- !app_assoc. do 2 f_equal.
  rewrite !length_app, !be_enc_length, IaAddress_options_length.
  unfold askedFor. f_equal. lia.
Qed.

(** X3: when a buffer is available, an association is current, the datagram
    fits and the socket accepts it, [Solicit] sends exactly one datagram to
    the agent: a Solicit header with the transaction id, then the
    ElapsedTime, ClientIdentifier, IA_NA and RapidCommit options, the IA_NA
    container holding one IaAddress option for each association asked for. *)
Theorem Solicit_datagram eui64 env aRloc16 c room :
  eNewMessage env = Some room ->
  eSendTo env = OT_ERROR_NONE ->
  mIdentityAssociationCurrent c <> None ->
  askedFor aRloc16 c <= 255 ->
  46 + 28 * askedFor aRloc16 c <= room ->
  Solicit eui64 env aRloc16 c
  = withSent (aRloc16,
              mData (datagram [] kTypeSolicit (mTransactionId c)
                       (solicitOptions eui64 (eNowSolicit env) aRloc16 c))) c.
Proof.
  intros Hbuf Hsend Hcur Hk Hroom. rewrite Solicit_cases, Hbuf, Hsend.
  destruct (mIdentityAssociationCurrent c); [|congruence].
  destruct (Z.leb_spec (46 + 28 * askedFor aRloc16 c) room); [|lia].
  rewrite Solicit_bytes_options by assumption. reflexivity.
Qed.

Lemma Solicit_datagram_witness :
  sentMessages (Solicit nodeEui64 runEnv 0x4400 solicitClient)
  = [(0x4400, mData (datagram [] kTypeSolicit 1
                       (solicitOptions nodeEui64 1000 0x4400 solicitClient)))].
Proof.
  rewrite (Solicit_datagram nodeEui64 runEnv 0x4400 solicitClient 1280).
  - reflexivity.
  - reflexivity.
  - reflexivity.
  - discriminate.
  - vm_compute. discriminate.
  - vm_compute. discriminate.
Defined.

(** X4: [Solicit] has no partial effect.  Without a buffer, without a
    current association, when the datagram of 46 bytes plus 28 for each
    association asked for does not fit, or when the socket refuses it, the
    client is left exactly as it was and nothing is sent. *)
Theorem Solicit_sends_nothing eui64 env aRloc16 c :
  eNewMessage env = None
  \/ mIdentityAssociationCurrent c = None
  \/ eSendTo env <> OT_ERROR_NONE
  \/ (exists room, eNewMessage env = Some room
                   /\ room < 46 + 28 * askedFor aRloc16 c) ->
  Solicit eui64 env aRloc16 c = c.
Proof.
  intros H. rewrite Solicit_cases.
  destruct (eNewMessage env) as [room|] eqn:Hbuf; [|reflexivity].
  destruct (mIdentityAssociationCurrent c) as [cur|] eqn:Hcur; [|reflexivity].
  destruct (eSendTo env) eqn:Hsend; try reflexivity.
  destruct H as [H|[H|[H|(room' & [= <-] & H)]]]; try congruence.
  destruct (Z.leb_spec (46 + 28 * askedFor aRloc16 c) room); [lia|reflexivity].
Qed.

Lemma Solicit_sends_nothing_witness :
  Solicit nodeEui64
    {| eNow := 1000; eNowSolicit := 1000; eRandom := 7;
       eNewMessage := Some 100; eSendTo := OT_ERROR_NONE |}
    0x4400 solicitClient
  = solicitClient.
Proof.
  apply Solicit_sends_nothing. right. right. right.
  exists 100. split; [reflexivity|]. vm_compute. reflexivity.
Defined.

Lemma solicitOptions_length eui64 now aRloc16 c :
  GetLength (datagram [] kTypeSolicit (mTransactionId c)
               (solicitOptions eui64 now aRloc16 c))
  = 46 + 28 * askedFor aRloc16 c.
Proof.
  rewrite datagram_length. unfold solicitOptions, options_bytes, optionsOffset.
  cbn [flat_map fst snd length]. rewrite !length_app, !Option_bytes_length, !length_app,
    !be_enc_length, IaAddress_options_length.
  unfold askedFor, ownDuid, sizeof_Header. rewrite !length_app, !be_enc_length.
  cbn [length]. lia.
Qed.

(** X5: the Solicit the client builds can be walked by [FindOption]: the
    length written into the IA_NA container lets the scan step over the
    nested IaAddress options, so the RapidCommit option behind them is
    found, and the nested options are not seen at the top level. *)
Theorem Solicit_options_are_found eui64 now aRloc16 c n :
  askedFor aRloc16 c <= 255 ->
  (5 <= n)%nat ->
  let m := MoveOffset (datagram [] kTypeSolicit (mTransactionId c)
                         (solicitOptions eui64 now aRloc16 c)) sizeof_Header in
  let find := FindOption n m (GetOffset m) (u16 (GetLength m - GetOffset m)) in
  mData m = Solicit_bytes eui64 now aRloc16 c
  /\ find kOptionElapsedTime = Some 4
  /\ find kOptionClientIdentifier = Some 10
  /\ find kOptionIaNa = Some 26
  /\ find kOptionRapidCommit = Some (42 + 28 * askedFor aRloc16 c)
  /\ find kOptionIaAddress = Some 0.
Proof.
  intros Hk Hn m find.
  assert (codesOk (solicitOptions eui64 now aRloc16 c)) as Hok
    by (unfold codesOk, solicitOptions;
        repeat (apply List.Forall_cons; [cbv [fst kOptionElapsedTime
          kOptionClientIdentifier kOptionIaNa kOptionRapidCommit]; lia|]);
        apply List.Forall_nil).
  assert (0 <= askedFor aRloc16 c) as Hk0 by (unfold askedFor; lia).
  assert (GetLength (datagram [] kTypeSolicit (mTransactionId c)
                       (solicitOptions eui64 now aRloc16 c)) < 2 ^ 16) as Hlen
    by (rewrite solicitOptions_length; lia).
  assert ((length (solicitOptions eui64 now aRloc16 c) < n)%nat) as Hfuel
    by (cbn [solicitOptions length]; lia).
  assert (forall code,
            find code
            = Some (match firstOption code (solicitOptions eui64 now aRloc16 c) with
                    | Some (k, _) => optionsOffset [] + k
                    | None => 0
                    end)) as Hfind.
  { intros code. subst find m. apply FindOption_datagram; assumption. }
  split; [symmetry; apply Solicit_bytes_options; assumption|].
  rewrite !Hfind. repeat split; try reflexivity.
  unfold solicitOptions. cbn [firstOption fst snd]. 
  change (kOptionElapsedTime =? kOptionRapidCommit) with false.
  change (kOptionClientIdentifier =? kOptionRapidCommit) with false.
  change (kOptionIaNa =? kOptionRapidCommit) with false.
  change (kOptionRapidCommit =? kOptionRapidCommit) with true. cbv iota.
  rewrite !Option_bytes_length, !length_app, !be_enc_length, IaAddress_options_length.
  unfold optionsOffset, askedFor, ownDuid, sizeof_Header.
  rewrite !length_app, !be_enc_length. cbn [length]. f_equal. lia.
Qed.

Lemma Solicit_options_are_found_witness :
  FindOption 5 (mkMessage (Solicit_bytes nodeEui64 1000 0x4400 solicitClient) 4) 4
    (u16 (102 - 4)) kOptionRapidCommit = Some 98.
Proof.
  pose proof (Solicit_options_are_found nodeEui64 1000 0x4400 solicitClient 5) as H.
  cbv zeta in H. destruct H as (Hbytes & _ & _ & _ & Hrc & _).
  - vm_compute. discriminate.
  - lia.
  - exact Hrc.
Defined.

(** ** The client identifier *)

(** X6: the ClientIdentifier option that [AppendClientIdentifier] writes for
    an EUI-64 is accepted by [ProcessClientIdentifier] exactly when it is
    checked against the same EUI-64. *)
Theorem ClientIdentifier_round_trip room eui64 eui64' m :
  0 <= eui64 < 2 ^ 64 ->
  GetLength m + sizeof_ClientIdentifier <= room ->
  ProcessClientIdentifier eui64' (snd (AppendClientIdentifier room eui64 m)) (GetLength m)
  = if eui64 =? eui64' then OT_ERROR_NONE else OT_ERROR_PARSE.
Proof.
  intros He Hroom. unfold AppendClientIdentifier.
  rewrite Message_Append_fits by exact Hroom. cbn [snd].
  unfold ProcessClientIdentifier.
  rewrite (Message_Read_at _ (mData m)
             (Duid_bytes kOptionClientIdentifier kDuidLinkLayerAddress
                kHardwareTypeEui64 eui64 ++ [])) by (rewrite app_nil_r; reflexivity).
  rewrite app_nil_r.
  assert (firstn (Z.to_nat sizeof_ClientIdentifier)
            (Duid_bytes kOptionClientIdentifier kDuidLinkLayerAddress
               kHardwareTypeEui64 eui64)
          = Duid_bytes kOptionClientIdentifier kDuidLinkLayerAddress
              kHardwareTypeEui64 eui64) as -> by reflexivity.
  assert (GetDuidLinkLayerAddress
            (Duid_bytes kOptionClientIdentifier kDuidLinkLayerAddress
               kHardwareTypeEui64 eui64) = eui64) as ->.
  { unfold GetDuidLinkLayerAddress.
    change (sub _ 8 8) with (be_enc 8 eui64).
    apply (be_dec_be_enc_small 8). exact He. }
  destruct (eui64 =? eui64'); reflexivity.
Qed.

Lemma ClientIdentifier_round_trip_witness :
  ProcessClientIdentifier nodeEui64
    (snd (AppendClientIdentifier 1280 nodeEui64 (mkMessage [1; 0; 0; 1] 0))) 4
  = OT_ERROR_NONE
  /\ ProcessClientIdentifier (nodeEui64 + 1)
       (snd (AppendClientIdentifier 1280 nodeEui64 (mkMessage [1; 0; 0; 1] 0))) 4
     = OT_ERROR_PARSE.
Proof.
  split.
  - apply (ClientIdentifier_round_trip 1280 nodeEui64 nodeEui64 (mkMessage [1; 0; 0; 1] 0)).
    + vm_compute. split; [discriminate|reflexivity].
    + vm_compute. discriminate.
  - apply (ClientIdentifier_round_trip 1280 nodeEui64 (nodeEui64 + 1)
             (mkMessage [1; 0; 0; 1] 0)).
    + vm_compute. split; [discriminate|reflexivity].
    + vm_compute. discriminate.
Defined.

(** ** The elapsed time *)

(** X7: the ElapsedTime option carries the whole seconds between the start
    of the solicitation and now, modulo 2^16; the 32-bit subtraction keeps
    this right when the millisecond clock has wrapped around in between. *)
Theorem AppendElapsedTime_seconds room c m elapsed :
  0 <= mStartTime c < 2 ^ 32 ->
  0 <= elapsed < 2 ^ 32 ->
  GetLength m + sizeof_ElapsedTime <= room ->
  let now := u32 (mStartTime c + elapsed) in
  exists m',
    AppendElapsedTime room now c m = (OT_ERROR_NONE, m')
    /\ GetLength m' = GetLength m + sizeof_ElapsedTime
    /\ Option_GetCode (Message_Read m' (GetLength m) sizeof_ElapsedTime)
       = kOptionElapsedTime
    /\ Option_GetLength (Message_Read m' (GetLength m) sizeof_ElapsedTime) = 2
    /\ be_dec (sub (Message_Read m' (GetLength m) sizeof_ElapsedTime) 4 2)
       = (elapsed / 1000) mod 2 ^ 16.
Proof.
  intros Hs He Hroom now. unfold AppendElapsedTime.
  rewrite Message_Append_fits by exact Hroom.
  eexists. split; [reflexivity|].
  assert (u32 (now - mStartTime c) = elapsed) as ->.
  { subst now. unfold u32.
    rewrite Zminus_mod_idemp_l.
    replace (mStartTime c + elapsed - mStartTime c) with elapsed by ring.
    apply Z.mod_small. exact He. }
  split; [apply appended_length|].
  rewrite (Message_Read_at _ (mData m)
             (ElapsedTime_bytes (u16 (elapsed / 1000)) ++ [])) by
    (rewrite app_nil_r; reflexivity).
  rewrite app_nil_r.
  assert (firstn (Z.to_nat sizeof_ElapsedTime) (ElapsedTime_bytes (u16 (elapsed / 1000)))
          = ElapsedTime_bytes (u16 (elapsed / 1000))) as -> by reflexivity.
  split; [reflexivity|]. split; [reflexivity|].
  change (sub (ElapsedTime_bytes (u16 (elapsed / 1000))) 4 2)
    with (be_enc 2 (u16 (elapsed / 1000))).
  rewrite (be_dec_be_enc 2). unfold u16.
  change (256 ^ Z.of_nat 2) with (2 ^ 16). apply Z.mod_mod. lia.
Qed.

Lemma AppendElapsedTime_seconds_witness :
  exists m',
    AppendElapsedTime 1280 (u32 (4294967000 + 5000))
      (withStartTime 4294967000 runConfigured) (mkMessage [1; 0; 0; 1] 0)
    = (OT_ERROR_NONE, m')
    /\ be_dec (sub (Message_Read m' 4 sizeof_ElapsedTime) 4 2) = 5.
Proof.
  destruct (AppendElapsedTime_seconds 1280 (withStartTime 4294967000 runConfigured)
              (mkMessage [1; 0; 0; 1] 0) 5000) as (m' & H & _ & _ & _ & Hf).
  - vm_compute. split; [discriminate|reflexivity].
  - lia.
  - vm_compute. discriminate.
  - exists m'. split; [exact H|exact Hf].
Defined.

(** ** Induction over the events *)

(** A property that the handling of one IaAddress option and the timer
    handler keep is kept by the handling of a datagram. *)
Section Events.

Variable P : Client -> Prop.
Variable eui64 : Z.

Hypothesis P_ProcessIaAddress :
  forall m off c, P c -> P (snd (ProcessIaAddress m off c)).
Hypothesis P_HandleTrickleTimer :
  forall env c, P c -> P (snd (HandleTrickleTimer eui64 env c)).

Lemma ProcessIaNa_loop_preserves n m : forall fuel off len c r,
  ProcessIaNa_loop n fuel m off len c = Some r -> P c -> P (snd r).
Proof.
  induction fuel as [|fuel IH]; intros off len c r H HP; [discriminate|].
  cbn [ProcessIaNa_loop] in H.
  destruct (len >? 0); [|injection H as <-; exact HP].
  destruct (FindOption n m off len kOptionIaAddress) as [o|]; [|discriminate].
  cbn in H. destruct (o =? 0); [injection H as <-; exact HP|].
  pose proof (P_ProcessIaAddress m o c HP) as H1.
  destruct (ProcessIaAddress m o c) as [e c1]. cbn [snd] in H1.
  destruct e; try (injection H as <-; exact H1).
  eapply IH; eassumption.
Qed.

Lemma ProcessIaNa_preserves n m off c r :
  ProcessIaNa n m off c = Some r -> P c -> P (snd r).
Proof.
  intros H HP. unfold ProcessIaNa, ProcessIaNa_options in H.
  destruct (_ =? _); [|injection H as <-; exact HP].
  destruct (_ <=? _); [|injection H as <-; exact HP].
  destruct (FindOption _ _ _ _ _) as [o|]; [|discriminate]. cbn in H.
  destruct (if o >? 0 then _ else _);
    try (injection H as <-; exact HP).
  eapply ProcessIaNa_loop_preserves; eassumption.
Qed.

Lemma HandleUdpReceive_preserves n env m c c' :
  HandleUdpReceive n eui64 env m c = Some c' -> P c -> P c'.
Proof.
  unfold HandleUdpReceive, ProcessReply. intros H HP.
  repeat match type of H with
  | Some _ = Some _ => injection H as <-; exact HP
  | None = Some _ => discriminate H
  | (if ?b then _ else _) = Some _ => destruct b eqn:?
  | (match (if ?b then _ else _) with _ => _ end) = Some _ => destruct b eqn:?
  | (match ?e with _ => _ end) = Some _ =>
      match e with
      | ProcessIaNa _ _ _ _ => fail 1
      | _ => destruct e eqn:?
      end
  | (mbind _ ?e) = Some _ =>
      match e with
      | ProcessIaNa _ _ _ _ => fail 1
      | _ => destruct e eqn:?; cbn [mbind option_bind] in H
      end
  end.
  all: destruct (ProcessIaNa _ _ _ _) as [[e c1]|] eqn:Hna; [|discriminate].
  all: apply ProcessIaNa_preserves in Hna; [|exact HP].
  all: cbn [snd] in Hna; cbn in H; destruct e; injection H as <-; try exact Hna.
  all: apply P_HandleTrickleTimer; exact Hna.
Qed.

End Events.

(** Induction over the reachable states, event by event. *)
Lemma reachable_preserves (P : Client -> Prop) eui64 n :
  (forall txid, P (Client_init n txid)) ->
  (forall configs aRandom c, P c -> P (UpdateAddresses configs aRandom c)) ->
  (forall env c, P c -> P (snd (HandleTrickleTimer eui64 env c))) ->
  (forall m off c, P c -> P (snd (ProcessIaAddress m off c))) ->
  forall c, reachable eui64 n c -> P c.
Proof.
  intros Hinit HU HT HA c. induction 1 as [txid|c c' _ IH Hstep]; [apply Hinit|].
  destruct Hstep.
  - apply HU. exact IH.
  - apply HT. exact IH.
  - eapply (HandleUdpReceive_preserves P eui64); eassumption.
Qed.

(** ** The two loops of UpdateAddresses, slot by slot *)

Lemma removeAddresses_spec configs ias :
  removeAddresses configs ias
  = (map (fun ia => if stale configs ia then setStatus kIaStatusInvalid ia else ia) ias,
     map (fun ia => RemoveUnicastAddress (mNetifAddress ia))
       (List.filter (stale configs) ias)).
Proof.
  induction ias as [|ia ias IH]; [reflexivity|].
  cbn [removeAddresses map List.filter]. rewrite IH.
  assert (stale configs ia
          = negb (IaStatus_eqb (mStatus ia) kIaStatusInvalid || (mValidLifetime ia =? 0))
            && negb (prefixInNetworkData ia configs)) as ->
    by (unfold stale; rewrite negb_orb; reflexivity).
  destruct (IaStatus_eqb (mStatus ia) kIaStatusInvalid || (mValidLifetime ia =? 0));
    [reflexivity|].
  destruct (prefixInNetworkData ia configs); reflexivity.
Qed.

Lemma removeAddresses_Forall (P : IdentityAssociation -> Prop) configs ias :
  (forall ia, P ia -> P (setStatus kIaStatusInvalid ia)) ->
  Forall P ias -> Forall P (fst (removeAddresses configs ias)).
Proof.
  intros HP H. rewrite removeAddresses_spec. cbn [fst].
  induction H as [|ia ias Hia _ IH]; cbn [map]; constructor; [|exact IH].
  destruct (stale configs ia); auto.
Qed.

Lemma addPrefix_Forall (P : IdentityAssociation -> Prop) config ias :
  (forall p ia, P ia -> P (claim p ia)) ->
  (forall r ia, P ia -> P (setPrefixAgentRloc r ia)) ->
  Forall P ias -> Forall P (addPrefix ias config).
Proof.
  intros Hc Hr H. unfold addPrefix. destruct (negb (NetworkData.mDhcp config)); [exact H|].
  destruct (findAssociation _ _ _ _) as [found [i|]]; [|exact H].
  apply Forall_alter; [|intros x _; apply Hr].
  destruct found; [exact H|]. apply Forall_alter; [exact H|]. intros x _. apply Hc.
Qed.

Lemma addPrefixes_Forall (P : IdentityAssociation -> Prop) configs :
  (forall p ia, P ia -> P (claim p ia)) ->
  (forall r ia, P ia -> P (setPrefixAgentRloc r ia)) ->
  forall ias, Forall P ias -> Forall P (addPrefixes configs ias).
Proof.
  intros Hc Hr. unfold addPrefixes.
  induction configs as [|config configs IH]; intros ias H; [exact H|].
  cbn [fold_left]. apply IH. apply addPrefix_Forall; assumption.
Qed.

Lemma UpdateAddresses_Forall (P : IdentityAssociation -> Prop) configs aRandom c :
  (forall ia, P ia -> P (setStatus kIaStatusInvalid ia)) ->
  (forall p ia, P ia -> P (claim p ia)) ->
  (forall r ia, P ia -> P (setPrefixAgentRloc r ia)) ->
  Forall P (mIdentityAssociations c) ->
  Forall P (mIdentityAssociations (UpdateAddresses configs aRandom c)).
Proof.
  intros Hi Hc Hr H.
  rewrite (proj1 (UpdateAddresses_associations configs aRandom c)).
  apply addPrefixes_Forall; [assumption..|]. apply removeAddresses_Forall; assumption.
Qed.

Lemma ProcessIaAddress_loop_Forall (P : IdentityAssociation -> Prop) o ias :
  (forall ia, P ia -> P (applyIaAddress o ia)) ->
  Forall P ias -> Forall P (fst (ProcessIaAddress_loop o ias)).
Proof.
  intros HP. induction 1 as [|ia ias Hia Hias IH]; [constructor|].
  cbn [ProcessIaAddress_loop]. destruct (ProcessIaAddress_loop o ias) as [rest calls].
  cbn [fst] in IH.
  destruct (_ || _); [constructor; assumption|].
  destruct (_ >=? _); constructor; auto.
Qed.

Lemma ProcessIaAddress_Forall (P : IdentityAssociation -> Prop) m off c :
  (forall o ia, P ia -> P (applyIaAddress o ia)) ->
  Forall P (mIdentityAssociations c) ->
  Forall P (mIdentityAssociations (snd (ProcessIaAddress m off c))).
Proof.
  intros HP H. unfold ProcessIaAddress. destruct (_ && _); [|exact H].
  pose proof (ProcessIaAddress_loop_Forall P (Message_Read m off sizeof_IaAddress)
                (mIdentityAssociations c) (HP _) H) as H1.
  destruct (ProcessIaAddress_loop _ _) as [ias calls]. exact H1.
Qed.

(** The timer handler changes a slot only from waiting to soliciting. *)
Lemma HandleTrickleTimer_Forall (P : IdentityAssociation -> Prop) eui64 env c :
  (forall ia, P ia -> mStatus ia = kIaStatusSolicit ->
              P (setStatus kIaStatusSoliciting ia)) ->
  Forall P (mIdentityAssociations c) ->
  Forall P (mIdentityAssociations (snd (HandleTrickleTimer eui64 env c))).
Proof.
  intros HP H. unfold HandleTrickleTimer.
  destruct (mIdentityAssociationCurrent c) as [i|]; [|exact H].
  destruct (mIdentityAssociations c !! i) as [current|] eqn:Hi; [|exact H].
  destruct (mStatus current) eqn:Hs; cbn [snd]; [exact H| | |].
  - rewrite (proj1 (Solicit_keeps _ _ _ _)). cbn.
    apply Forall_alter; [exact H|]. intros x Hx Px. apply HP; [exact Px|].
    rewrite Hi in Hx. injection Hx as <-. exact Hs.
  - rewrite (proj1 (Solicit_keeps _ _ _ _)). exact H.
  - pose proof (proj1 (ProcessNextIdentityAssociation_keeps (eRandom env)
                         (withCurrent None c))) as Hp.
    destruct (ProcessNextIdentityAssociation (eRandom env) (withCurrent None c))
      as [next c1]. cbn [snd] in Hp.
    destruct next; cbn [snd]; [rewrite Hp; exact H|]. cbn. rewrite Hp. exact H.
Qed.

(** ** Invariants of the reachable states *)

Lemma firstSolicit_bound ias : forall i j,
  firstSolicit ias i = Some j -> (i <= j < i + length ias)%nat.
Proof.
  induction ias as [|ia ias IH]; intros i j H; [discriminate|].
  cbn [firstSolicit length] in *.
  destruct (IaStatus_eqb (mStatus ia) kIaStatusSolicit).
  - injection H as <-. lia.
  - apply IH in H. lia.
Qed.

Lemma u24_range x : 0 <= u24 x < 2 ^ 24.
Proof. unfold u24. apply Z.mod_pos_bound. lia. Qed.

Lemma ProcessNextIdentityAssociation_wellFormed n aRandom c :
  wellFormed n c -> wellFormed n (snd (ProcessNextIdentityAssociation aRandom c)).
Proof.
  intros [Hlen Hcur]. unfold ProcessNextIdentityAssociation.
  destruct (currentStatus c) as [[]|]; try (split; assumption);
    (destruct (firstSolicit (mIdentityAssociations (withTrickleTimer false c)) 0%nat)
       as [j|] eqn:Hj; cbn [snd]; [|split; assumption];
     split; [exact Hlen|]; intros i [= <-]; cbn;
     apply firstSolicit_bound in Hj; cbn in Hj;
     split; [lia|apply u24_range]).
Qed.

Lemma Solicit_frame eui64 env aRloc16 c :
  Solicit eui64 env aRloc16 c = c
  \/ Solicit eui64 env aRloc16 c
     = withSent (aRloc16, Solicit_bytes eui64 (eNowSolicit env) aRloc16 c) c.
Proof.
  rewrite Solicit_cases.
  destruct (eNewMessage env); [|auto].
  destruct (mIdentityAssociationCurrent c); [|auto].
  destruct (eSendTo env); auto. destruct (_ <=? _); auto.
Qed.

Lemma UpdateAddresses_length configs aRandom c :
  length (mIdentityAssociations (UpdateAddresses configs aRandom c))
  = length (mIdentityAssociations c).
Proof.
  rewrite (proj1 (UpdateAddresses_associations configs aRandom c)).
  symmetry. eapply Forall2_length.
  eapply Forall2_quiet_trans; [apply removeAddresses_quiet|apply addPrefixes_quiet].
Qed.

Lemma UpdateAddresses_wellFormed n configs aRandom c :
  wellFormed n c -> wellFormed n (UpdateAddresses configs aRandom c).
Proof.
  intros [Hlen Hcur].
  pose proof (UpdateAddresses_length configs aRandom c) as HL.
  unfold UpdateAddresses in *.
  destruct (removeAddresses configs (mIdentityAssociations c)) as [ias1 calls].
  set (c2 := withAssociations (addPrefixes configs ias1)
               (withNetifCalls calls (withAssociations ias1 c))) in *.
  assert (length (mIdentityAssociations c2) = n) as Hlen2.
  { destruct (doesAgentExist configs).
    - rewrite (proj1 (Start_keeps aRandom c2)) in HL. congruence.
    - cbn in HL |- *. congruence. }
  assert (wellFormed n c2) as H2 by (split; [exact Hlen2|exact Hcur]).
  destruct (doesAgentExist configs).
  - unfold Start. destruct (mSocketBound c2); [exact H2|].
    apply ProcessNextIdentityAssociation_wellFormed. exact H2.
  - exact H2.
Qed.

Lemma HandleTrickleTimer_wellFormed n eui64 env c :
  wellFormed n c -> wellFormed n (snd (HandleTrickleTimer eui64 env c)).
Proof.
  intros Hwf. pose proof Hwf as [Hlen Hcur]. unfold HandleTrickleTimer.
  destruct (mIdentityAssociationCurrent c) as [i|] eqn:Hc; [|exact Hwf].
  destruct (mIdentityAssociations c !! i) as [current|]; [|exact Hwf].
  destruct (mStatus current); cbn [snd]; [exact Hwf| | |].
  - match goal with |- wellFormed n (Solicit ?e ?v ?r ?c1) =>
      assert (wellFormed n c1) as H1
        by (split; [cbn; rewrite length_alter; exact Hlen|cbn; rewrite Hc; exact Hcur]);
      destruct (Solicit_frame e v r c1) as [->| ->]; exact H1
    end.
  - destruct (Solicit_frame eui64 env (mPrefixAgentRloc current) c) as [->| ->];
      exact Hwf.
  - assert (wellFormed n (withCurrent None c)) as H0
      by (split; [exact Hlen|intros j Hj; discriminate Hj]).
    pose proof (ProcessNextIdentityAssociation_wellFormed n (eRandom env) _ H0) as H1.
    destruct (ProcessNextIdentityAssociation (eRandom env) (withCurrent None c))
      as [next c1]. cbn [snd] in H1.
    destruct next; cbn [snd]; exact H1.
Qed.

Lemma ProcessIaAddress_wellFormed n m off c :
  wellFormed n c -> wellFormed n (snd (ProcessIaAddress m off c)).
Proof.
  intros [Hlen Hcur].
  pose proof (ProcessIaAddress_quietly m off c) as [Hc Hq].
  apply Forall2_length in Hq. split; [congruence|].
  rewrite Hc.
  assert (mTransactionId (snd (ProcessIaAddress m off c)) = mTransactionId c) as ->.
  { unfold ProcessIaAddress. destruct (_ && _); [|reflexivity].
    destruct (ProcessIaAddress_loop _ _). reflexivity. }
  exact Hcur.
Qed.

(** X8: in every state reached from the initial one the pool still has its
    [n] slots, the current association, when there is one, is a slot of the
    pool, and the transaction id then in use fits the 24 bits it has in the
    header. *)
Theorem reachable_wellFormed eui64 n c :
  reachable eui64 n c ->
  length (mIdentityAssociations c) = n
  /\ forall i, mIdentityAssociationCurrent c = Some i ->
       is_Some (mIdentityAssociations c !! i) /\ 0 <= mTransactionId c < 2 ^ 24.
Proof.
  intros Hr.
  assert (wellFormed n c) as [Hlen Hcur].
  { revert c Hr. apply reachable_preserves.
    - intros txid. split; [apply length_replicate|]. intros i Hi. discriminate Hi.
    - intros. apply UpdateAddresses_wellFormed. assumption.
    - intros. apply HandleTrickleTimer_wellFormed. assumption.
    - intros. apply ProcessIaAddress_wellFormed. assumption. }
  split; [exact Hlen|]. intros i Hi. destruct (Hcur i Hi) as [Hlt Htx].
  split; [|exact Htx]. apply lookup_lt_is_Some. lia.
Qed.

Lemma reachable_wellFormed_witness :
  length (mIdentityAssociations runSoliciting) = 1%nat
  /\ forall i, mIdentityAssociationCurrent runSoliciting = Some i ->
       is_Some (mIdentityAssociations runSoliciting !! i)
       /\ 0 <= mTransactionId runSoliciting < 2 ^ 24.
Proof.
  apply (reachable_wellFormed nodeEui64 1 runSoliciting).
  apply runSoliciting_reachable.
Defined.

Lemma HandleTrickleTimer_netifCalls eui64 env c :
  netifCalls (snd (HandleTrickleTimer eui64 env c)) = netifCalls c.
Proof.
  unfold HandleTrickleTimer.
  destruct (mIdentityAssociationCurrent c) as [i|]; [|reflexivity].
  destruct (mIdentityAssociations c !! i) as [current|]; [|reflexivity].
  destruct (mStatus current); cbn [snd]; [reflexivity| | |].
  - rewrite (proj2 (proj2 (Solicit_keeps _ _ _ _))). reflexivity.
  - rewrite (proj2 (proj2 (Solicit_keeps _ _ _ _))). reflexivity.
  - pose proof (proj1 (proj2 (ProcessNextIdentityAssociation_keeps (eRandom env)
                                (withCurrent None c)))) as Hn.
    destruct (ProcessNextIdentityAssociation (eRandom env) (withCurrent None c))
      as [next c1]. cbn [snd] in Hn.
    destruct next; cbn [snd]; [exact Hn|]. cbn. exact Hn.
Qed.

Lemma installedBy_more calls more ia :
  installedBy calls ia -> installedBy (calls ++ more) ia.
Proof. intros H Hs Hv. apply in_or_app. left. apply H; assumption. Qed.

Lemma ProcessIaAddress_loop_installed calls o ias :
  Forall (installedBy calls) ias ->
  Forall (installedBy (calls ++ snd (ProcessIaAddress_loop o ias)))
    (fst (ProcessIaAddress_loop o ias))
  /\ forall a, ~ In (RemoveUnicastAddress a) (snd (ProcessIaAddress_loop o ias)).
Proof.
  induction 1 as [|ia ias Hia Hias [IH1 IH2]].
  - split; [constructor|]. intros a [].
  - cbn [ProcessIaAddress_loop]. destruct (ProcessIaAddress_loop o ias) as [rest new].
    cbn [fst snd] in *.
    destruct (_ || _).
    + cbn [fst snd]. split; [|exact IH2].
      constructor; [apply installedBy_more; exact Hia|exact IH1].
    + destruct (_ >=? _); cbn [fst snd].
      * split.
        -- constructor.
           ++ intros _ _. apply in_or_app. right. left. reflexivity.
           ++ eapply Forall_impl; [exact Hias|]. intros x Hx.
              apply installedBy_more. exact Hx.
        -- intros a [Ha|[]]. discriminate Ha.
      * split; [|exact IH2].
        constructor; [apply installedBy_more; exact Hia|exact IH1].
Qed.

Lemma removalsFollowAdditions_app calls new :
  removalsFollowAdditions calls ->
  (forall a, In (RemoveUnicastAddress a) new -> In (AddUnicastAddress a) calls) ->
  removalsFollowAdditions (calls ++ new).
Proof.
  intros Hold Hnew i a Hi.
  apply lookup_app_Some in Hi as [Hi|[Hge Hi]].
  - destruct (Hold i a Hi) as (j & Hj & Hl). exists j. split; [exact Hj|].
    apply lookup_app_l_Some. exact Hl.
  - assert (In (RemoveUnicastAddress a) new) as Hin
      by (apply list_elem_of_In, list_elem_of_lookup; eauto).
    apply Hnew, list_elem_of_In, list_elem_of_lookup in Hin as [j Hj].
    exists j. split; [apply lookup_lt_Some in Hj; lia|].
    apply lookup_app_l_Some. exact Hj.
Qed.

Lemma stale_installed calls configs ias a :
  Forall (installedBy calls) ias ->
  In (RemoveUnicastAddress a)
    (map (fun ia => RemoveUnicastAddress (mNetifAddress ia))
       (List.filter (stale configs) ias)) ->
  In (AddUnicastAddress a) calls.
Proof.
  intros Hall Hin. apply in_map_iff in Hin as (ia & [= <-] & Hia).
  apply filter_In in Hia as [Hia Hst].
  rewrite Forall_forall in Hall. apply list_elem_of_In in Hia.
  unfold stale in Hst. apply andb_prop in Hst as [[Hs Hv]%andb_prop _].
  apply (Hall ia Hia).
  - intros E. rewrite E in Hs. discriminate Hs.
  - intros E. rewrite E in Hv. discriminate Hv.
Qed.

(** X9: the client never removes from the interface an address it has not
    added before: in the log of interface calls of a reachable state every
    [RemoveUnicastAddress] comes after an [AddUnicastAddress] of the same
    address record. *)
Theorem removals_follow_additions eui64 n c :
  reachable eui64 n c ->
  forall i a, netifCalls c !! i = Some (RemoveUnicastAddress a) ->
  exists j, (j < i)%nat /\ netifCalls c !! j = Some (AddUnicastAddress a).
Proof.
  intros Hr.
  assert (Forall (installedBy (netifCalls c)) (mIdentityAssociations c)
          /\ removalsFollowAdditions (netifCalls c)) as [_ H]; [|exact H].
  revert c Hr. apply reachable_preserves.
  - intros txid. split.
    + apply Forall_replicate. intros Hs. contradiction Hs. reflexivity.
    + intros i a Hi. discriminate Hi.
  - intros configs aRandom c [Hpool Hlog].
    destruct (UpdateAddresses_associations configs aRandom c) as [_ Hcalls].
    rewrite removeAddresses_spec in Hcalls. cbn [snd] in Hcalls. split.
    + apply UpdateAddresses_Forall.
      * intros ia _ Hs. contradiction Hs. reflexivity.
      * intros p ia _ _ Hv. contradiction Hv. reflexivity.
      * intros r ia Hia. exact Hia.
      * rewrite Hcalls. eapply Forall_impl; [exact Hpool|].
        intros ia Hia. apply installedBy_more. exact Hia.
    + rewrite Hcalls. apply removalsFollowAdditions_app; [exact Hlog|].
      intros a Ha. eapply stale_installed; eassumption.
  - intros env c [Hpool Hlog]. rewrite HandleTrickleTimer_netifCalls.
    split; [|exact Hlog]. apply HandleTrickleTimer_Forall; [|exact Hpool].
    intros ia Hia Hsol _ Hv. apply Hia; [rewrite Hsol; discriminate|exact Hv].
  - intros m off c [Hpool Hlog]. unfold ProcessIaAddress.
    destruct (_ && _); [|split; assumption].
    destruct (ProcessIaAddress_loop_installed (netifCalls c)
                (Message_Read m off sizeof_IaAddress) _ Hpool) as [H1 H2].
    destruct (ProcessIaAddress_loop _ _) as [ias new]. cbn [fst snd] in *.
    split; [exact H1|].
    apply removalsFollowAdditions_app; [exact Hlog|].
    intros a Ha. destruct (H2 a Ha).
Qed.

Lemma removals_follow_additions_witness :
  exists j, (j < 1)%nat
            /\ netifCalls runWithdrawn !! j
               = Some (AddUnicastAddress
                         {| mAddress := addressA; mPrefixLength := 64;
                            mAddressOrigin := OT_ADDRESS_ORIGIN_DHCPV6;
                            mPreferred := true; mValid := true |}).
Proof.
  apply (removals_follow_additions nodeEui64 1 runWithdrawn runWithdrawn_reachable 1%nat).
  vm_compute. reflexivity.
Defined.

(** X10: in every reachable state a replied association carries an address
    of DHCPv6 origin whose valid and preferred flags say whether the valid
    and the preferred lifetime it was given are non-zero. *)
Theorem replied_flags_agree eui64 n c :
  reachable eui64 n c ->
  forall i ia, mIdentityAssociations c !! i = Some ia ->
  mStatus ia = kIaStatusSolicitReplied ->
  mAddressOrigin (mNetifAddress ia) = OT_ADDRESS_ORIGIN_DHCPV6
  /\ mValid (mNetifAddress ia) = negb (mValidLifetime ia =? 0)
  /\ mPreferred (mNetifAddress ia) = negb (mPreferredLifetime ia =? 0).
Proof.
  intros Hr.
  assert (Forall flagsAgree (mIdentityAssociations c)) as H.
  { revert c Hr. apply reachable_preserves.
    - intros txid. apply Forall_replicate. intros Hs. discriminate Hs.
    - intros configs aRandom c H. apply UpdateAddresses_Forall; [| | |exact H].
      + intros ia _ Hs. discriminate Hs.
      + intros p ia _ Hs. discriminate Hs.
      + intros r ia Hia. exact Hia.
    - intros env c H. apply HandleTrickleTimer_Forall; [|exact H].
      intros ia _ _ Hs. discriminate Hs.
    - intros m off c H. apply ProcessIaAddress_Forall; [|exact H].
      intros o ia _ _. repeat split. }
  intros i ia Hi Hs. rewrite Forall_lookup in H. exact (H i ia Hi Hs).
Qed.

Lemma runReplied_reachable : reachable nodeEui64 1 runReplied.
Proof.
  apply (reachable_step _ _ runSoliciting); [apply runSoliciting_reachable|].
  apply (step_HandleUdpReceive _ _ 8%nat runEnv replyA). vm_compute. reflexivity.
Qed.

Lemma replied_flags_agree_witness :
  mAddressOrigin (mNetifAddress (assigned addressA 1800 3600
    (setStatus kIaStatusSoliciting
       (served (NetworkData.mkConfig prefixA true 0x4400) zeroAssociation))))
  = OT_ADDRESS_ORIGIN_DHCPV6.
Proof.
  refine (proj1 (replied_flags_agree nodeEui64 1 runReplied runReplied_reachable
                   0%nat _ _ _)).
  - vm_compute. reflexivity.
  - reflexivity.
Defined.

Lemma Solicit_bytes_type eui64 now aRloc16 c :
  Header_GetType (Solicit_bytes eui64 now aRloc16 c) = kTypeSolicit.
Proof. reflexivity. Qed.

Lemma UpdateAddresses_sentMessages configs aRandom c :
  sentMessages (UpdateAddresses configs aRandom c) = sentMessages c.
Proof.
  unfold UpdateAddresses.
  destruct (removeAddresses configs (mIdentityAssociations c)) as [ias1 calls].
  destruct (doesAgentExist configs); [|reflexivity].
  rewrite (proj2 (proj2 (Start_keeps _ _))). reflexivity.
Qed.

(** X11: the client sends nothing but Solicit messages: every datagram in
    the send log of a reachable state starts with the message type
    Solicit. *)
Theorem only_solicits_are_sent eui64 n c :
  reachable eui64 n c ->
  forall i aRloc16 bytes, sentMessages c !! i = Some (aRloc16, bytes) ->
  Header_GetType bytes = kTypeSolicit.
Proof.
  intros Hr.
  assert (Forall isSolicit (sentMessages c)) as H.
  { revert c Hr. apply reachable_preserves.
    - intros txid. constructor.
    - intros configs aRandom c H. rewrite UpdateAddresses_sentMessages. exact H.
    - intros env c H. unfold HandleTrickleTimer.
      destruct (mIdentityAssociationCurrent c) as [i|]; [|exact H].
      destruct (mIdentityAssociations c !! i) as [current|]; [|exact H].
      destruct (mStatus current); cbn [snd]; [exact H| | |].
      + match goal with |- Forall _ (sentMessages (Solicit ?e ?v ?r ?c1)) =>
          destruct (Solicit_frame e v r c1) as [->| ->]
        end; [exact H|].
        cbn [sentMessages withSent]. apply Forall_app. split; [exact H|].
        constructor; [|constructor]. unfold isSolicit. cbn [snd]. apply Solicit_bytes_type.
      + destruct (Solicit_frame eui64 env (mPrefixAgentRloc current) c) as [->| ->];
          [exact H|].
        cbn [sentMessages withSent]. apply Forall_app. split; [exact H|].
        constructor; [|constructor]. unfold isSolicit. cbn [snd]. apply Solicit_bytes_type.
      + pose proof (proj2 (proj2 (ProcessNextIdentityAssociation_keeps (eRandom env)
                                    (withCurrent None c)))) as Hs.
        destruct (ProcessNextIdentityAssociation (eRandom env) (withCurrent None c))
          as [next c1]. cbn [snd] in Hs.
        destruct next; cbn [snd]; [rewrite Hs; exact H|]. cbn. rewrite Hs. exact H.
    - intros m off c H. unfold ProcessIaAddress. destruct (_ && _); [|exact H].
      destruct (ProcessIaAddress_loop _ _). exact H. }
  intros i aRloc16 bytes Hi. rewrite Forall_lookup in H. exact (H i _ Hi).
Qed.

Lemma only_solicits_are_sent_witness :
  Header_GetType (Solicit_bytes nodeEui64 1000 0x4400
                    (withAssociations
                       [setStatus kIaStatusSoliciting
                          (served (NetworkData.mkConfig prefixA true 0x4400)
                             zeroAssociation)]
                       (withStartTime 1000 runConfigured)))
  = kTypeSolicit.
Proof.
  apply (only_solicits_are_sent nodeEui64 1 runSoliciting runSoliciting_reachable
           0%nat 0x4400).
  vm_compute. reflexivity.
Defined.

(** ** Reconciliation, further *)

Lemma prefixInNetworkData_filter ia configs :
  prefixInNetworkData ia (List.filter NetworkData.mDhcp configs)
  = prefixInNetworkData ia configs.
Proof.
  induction configs as [|config configs IH]; [reflexivity|].
  cbn [List.filter prefixInNetworkData].
  destruct (NetworkData.mDhcp config) eqn:Hd; cbn [negb prefixInNetworkData].
  - rewrite Hd, IH. reflexivity.
  - exact IH.
Qed.

Lemma removeAddresses_filter configs ias :
  removeAddresses (List.filter NetworkData.mDhcp configs) ias
  = removeAddresses configs ias.
Proof.
  induction ias as [|ia ias IH]; [reflexivity|].
  cbn [removeAddresses]. rewrite IH, prefixInNetworkData_filter. reflexivity.
Qed.

Lemma addPrefixes_filter configs : forall ias,
  addPrefixes (List.filter NetworkData.mDhcp configs) ias = addPrefixes configs ias.
Proof.
  unfold addPrefixes. induction configs as [|config configs IH]; intros ias;
    [reflexivity|].
  cbn [List.filter fold_left].
  destruct (NetworkData.mDhcp config) eqn:Hd; cbn [fold_left].
  - apply IH.
  - assert (addPrefix ias config = ias) as ->
      by (unfold addPrefix; rewrite Hd; reflexivity).
    apply IH.
Qed.

Lemma doesAgentExist_filter configs :
  doesAgentExist (List.filter NetworkData.mDhcp configs) = doesAgentExist configs.
Proof.
  unfold doesAgentExist. induction configs as [|config configs IH]; [reflexivity|].
  cbn [List.filter existsb]. destruct (NetworkData.mDhcp config) eqn:Hd;
    cbn [existsb orb]; [rewrite Hd|]; exact IH || (rewrite IH; reflexivity).
Qed.

(** X12: the entries of the network data that are not flagged DHCP have no
    effect on the reconciliation: dropping them gives the same client. *)
Theorem UpdateAddresses_ignores_other_prefixes configs aRandom c :
  UpdateAddresses (List.filter NetworkData.mDhcp configs) aRandom c
  = UpdateAddresses configs aRandom c.
Proof.
  unfold UpdateAddresses.
  rewrite removeAddresses_filter, doesAgentExist_filter.
  destruct (removeAddresses configs (mIdentityAssociations c)) as [ias1 calls].
  rewrite addPrefixes_filter. reflexivity.
Qed.

(** X13: what a reconciliation does to the outside: it removes from the
    interface the addresses of exactly the associations that are valid, have
    a lifetime and match no DHCP prefix any more, in pool order, and makes
    no other interface call; it sends nothing; the pool keeps its size; and
    the socket is bound afterwards exactly when the network data holds a
    DHCP prefix. *)
Theorem UpdateAddresses_effects configs aRandom c :
  let c' := UpdateAddresses configs aRandom c in
  netifCalls c'
  = netifCalls c
    ++ map (fun ia => RemoveUnicastAddress (mNetifAddress ia))
         (List.filter (stale configs) (mIdentityAssociations c))
  /\ sentMessages c' = sentMessages c
  /\ length (mIdentityAssociations c') = length (mIdentityAssociations c)
  /\ mSocketBound c' = doesAgentExist configs.
Proof.
  intros c'. subst c'.
  split; [|split; [|split]].
  - rewrite (proj2 (UpdateAddresses_associations configs aRandom c)),
      removeAddresses_spec. reflexivity.
  - apply UpdateAddresses_sentMessages.
  - apply UpdateAddresses_length.
  - unfold UpdateAddresses.
    destruct (removeAddresses configs (mIdentityAssociations c)) as [ias1 calls].
    destruct (doesAgentExist configs); [apply Start_bound|reflexivity].
Qed.

Lemma addPrefix_keeps_live config (ias : list IdentityAssociation) i ia rloc :
  ias !! i = Some (setPrefixAgentRloc rloc ia) ->
  mStatus ia <> kIaStatusInvalid ->
  addPrefix ias config !! i = Some (setPrefixAgentRloc rloc ia)
  \/ (NetworkData.mDhcp config = true
      /\ MatchNetifAddressWithPrefix (mNetifAddress ia) (NetworkData.mPrefix config) = true
      /\ addPrefix ias config !! i
         = Some (setPrefixAgentRloc (NetworkData.mRloc16 config) ia)).
Proof.
  intros Hi Hs.
  destruct (NetworkData.mDhcp config) eqn:Hd;
    [|left; unfold addPrefix; rewrite Hd; exact Hi].
  rewrite addPrefix_cases by assumption.
  destruct (target (NetworkData.mPrefix config) ias) as [t|] eqn:Ht.
  - destruct (decide (t = i)) as [->|Hne].
    + right. split; [reflexivity|].
      apply target_Some in Ht as [(a & Ha & _ & Hm) _].
      rewrite Hi in Ha. injection Ha as <-. split; [exact Hm|].
      rewrite list_lookup_alter_eq, Hi. reflexivity.
    + left. rewrite list_lookup_alter_ne by assumption. exact Hi.
  - destruct (freeSlot ias) as [f|] eqn:Hf; [|left; exact Hi].
    left. apply freeSlot_Some in Hf as (x & Hx & Hinv).
    rewrite list_lookup_alter_ne; [exact Hi|].
    intros ->. rewrite Hi in Hx. injection Hx as <-. apply Hs. exact Hinv.
Qed.

Lemma addPrefixes_keeps_live configs ia i :
  mStatus ia <> kIaStatusInvalid ->
  forall (ias : list IdentityAssociation) rloc,
  ias !! i = Some (setPrefixAgentRloc rloc ia) ->
  exists rloc',
    addPrefixes configs ias !! i = Some (setPrefixAgentRloc rloc' ia)
    /\ (rloc' = rloc
        \/ exists config, In config configs
             /\ NetworkData.mDhcp config = true
             /\ MatchNetifAddressWithPrefix (mNetifAddress ia)
                  (NetworkData.mPrefix config) = true
             /\ rloc' = NetworkData.mRloc16 config).
Proof.
  intros Hs. unfold addPrefixes.
  induction configs as [|config configs IH]; intros ias rloc Hi.
  - exists rloc. split; [exact Hi|left; reflexivity].
  - cbn [fold_left].
    destruct (addPrefix_keeps_live config ias i ia rloc Hi Hs) as [H|(Hd & Hm & H)].
    + destruct (IH _ _ H) as (rloc' & Hl & [->|(cfg & Hin & Hrest)]).
      * exists rloc. split; [exact Hl|left; reflexivity].
      * exists rloc'. split; [exact Hl|]. right. exists cfg.
        split; [right; exact Hin|exact Hrest].
    + destruct (IH _ _ H) as (rloc' & Hl & [->|(cfg & Hin & Hrest)]).
      * exists (NetworkData.mRloc16 config). split; [exact Hl|]. right.
        exists config. split; [left; reflexivity|]. auto.
      * exists rloc'. split; [exact Hl|]. right. exists cfg.
        split; [right; exact Hin|exact Hrest].
Qed.

(** X14: a reconciliation leaves a valid association alone unless it is
    stale: its address, prefix length, lifetimes and status stay, and only
    its agent locator may change, to the locator of a DHCP prefix of the
    network data that the association matches. *)
Theorem UpdateAddresses_keeps_live_association configs aRandom c i ia :
  mIdentityAssociations c !! i = Some ia ->
  mStatus ia <> kIaStatusInvalid ->
  stale configs ia = false ->
  exists rloc,
    mIdentityAssociations (UpdateAddresses configs aRandom c) !! i
    = Some (setPrefixAgentRloc rloc ia)
    /\ (rloc = mPrefixAgentRloc ia
        \/ exists config, In config configs
             /\ NetworkData.mDhcp config = true
             /\ MatchNetifAddressWithPrefix (mNetifAddress ia)
                  (NetworkData.mPrefix config) = true
             /\ rloc = NetworkData.mRloc16 config).
Proof.
  intros Hi Hs Hst.
  rewrite (proj1 (UpdateAddresses_associations configs aRandom c)),
    removeAddresses_spec. cbn [fst].
  apply addPrefixes_keeps_live; [exact Hs|].
  rewrite list_lookup_fmap, Hi. cbn. rewrite Hst. destruct ia. reflexivity.
Qed.

Lemma UpdateAddresses_keeps_live_association_witness :
  exists rloc,
    mIdentityAssociations (UpdateAddresses exhaustionConfigs 7 runReplied) !! 0%nat
    = Some (setPrefixAgentRloc rloc
              (assigned addressA 1800 3600
                 (setStatus kIaStatusSoliciting
                    (served (NetworkData.mkConfig prefixA true 0x4400)
                       zeroAssociation)))).
Proof.
  destruct (UpdateAddresses_keeps_live_association exhaustionConfigs 7 runReplied 0%nat
              (assigned addressA 1800 3600
                 (setStatus kIaStatusSoliciting
                    (served (NetworkData.mkConfig prefixA true 0x4400)
                       zeroAssociation)))) as (rloc & H & _).
  - vm_compute. reflexivity.
  - discriminate.
  - vm_compute. reflexivity.
  - exists rloc. exact H.
Defined.

Lemma target_exists p (ias : list IdentityAssociation) i a :
  ias !! i = Some a -> matches p a -> exists t, target p ias = Some t.
Proof.
  intros Hi Hm. destruct (target p ias) as [t|] eqn:Ht; [eauto|].
  apply target_None in Ht. rewrite Forall_lookup in Ht.
  destruct (Ht i a Hi Hm).
Qed.

Lemma freeSlot_None (ias : list IdentityAssociation) :
  freeSlot ias = None -> Forall (fun ia => mStatus ia <> kIaStatusInvalid) ias.
Proof.
  unfold freeSlot. destruct (list_find isInvalid ias) as [[k x]|] eqn:E; [discriminate|].
  intros _. apply (list_find_None isInvalid) in E. exact E.
Qed.

Lemma full_stays_full configs (ias : list IdentityAssociation) :
  freeSlot ias = None -> freeSlot (addPrefixes configs ias) = None.
Proof.
  intros Hf. rewrite <- freeSlot_shapeOf, full_shape, freeSlot_shapeOf; assumption.
Qed.

(** X15: a reconciliation leaves no DHCP prefix unserved while a slot is
    free: afterwards every DHCP prefix of the network data (of at most 128
    bits) is matched by a valid association, or else the pool has no invalid
    slot left. *)
Theorem UpdateAddresses_serves_or_full configs aRandom c config :
  In config configs ->
  NetworkData.mDhcp config = true ->
  mLength (NetworkData.mPrefix config) <= 128 ->
  let pool := mIdentityAssociations (UpdateAddresses configs aRandom c) in
  (exists i ia, pool !! i = Some ia
                /\ mStatus ia <> kIaStatusInvalid
                /\ MatchNetifAddressWithPrefix (mNetifAddress ia)
                     (NetworkData.mPrefix config) = true)
  \/ Forall (fun ia => mStatus ia <> kIaStatusInvalid) pool.
Proof.
  intros Hin Hd Hlen pool. subst pool.
  rewrite (proj1 (UpdateAddresses_associations configs aRandom c)).
  set (P1 := fst (removeAddresses configs (mIdentityAssociations c))).
  apply in_split in Hin as (l1 & l2 & ->).
  unfold addPrefixes. rewrite fold_left_app. cbn [fold_left].
  fold (addPrefixes l1 P1). set (Q := addPrefixes l1 P1).
  fold (addPrefixes l2 (addPrefix Q config)).
  assert (forall t, target (NetworkData.mPrefix config) (addPrefix Q config) = Some t ->
            exists i ia, addPrefixes l2 (addPrefix Q config) !! i = Some ia
                         /\ mStatus ia <> kIaStatusInvalid
                         /\ MatchNetifAddressWithPrefix (mNetifAddress ia)
                              (NetworkData.mPrefix config) = true) as Hserved.
  { intros t Ht. apply (target_stable _ l2) in Ht.
    apply target_Some in Ht as [(a & Ha & Hs & Hm) _]. eauto. }
  rewrite addPrefix_cases in * by assumption.
  destruct (target (NetworkData.mPrefix config) Q) as [t|] eqn:Ht.
  - left. apply (Hserved t).
    rewrite <- target_shapeOf, shapeOf_alter_rloc, target_shapeOf. exact Ht.
  - destruct (freeSlot Q) as [f|] eqn:Hf.
    + left. destruct (freeSlot_Some _ _ Hf) as (x & Hx & _).
      destruct (target_exists (NetworkData.mPrefix config)
                  (alter (served config) f Q) f (served config x)) as [t' Ht'].
      * rewrite list_lookup_alter_eq, Hx. reflexivity.
      * apply served_matches. exact Hlen.
      * apply (Hserved t'). exact Ht'.
    + right. apply freeSlot_None, full_stays_full. exact Hf.
Qed.

Lemma UpdateAddresses_serves_or_full_witness :
  (exists i ia,
     mIdentityAssociations (UpdateAddresses exhaustionConfigs 7 (Client_init 2 0)) !! i
     = Some ia
     /\ mStatus ia <> kIaStatusInvalid
     /\ MatchNetifAddressWithPrefix (mNetifAddress ia)
          (mkIp6Prefix 0xfd000db8000000030000000000000000 64) = true)
  \/ Forall (fun ia => mStatus ia <> kIaStatusInvalid)
       (mIdentityAssociations (UpdateAddresses exhaustionConfigs 7 (Client_init 2 0))).
Proof.
  apply (UpdateAddresses_serves_or_full exhaustionConfigs 7 (Client_init 2 0)
           (NetworkData.mkConfig (mkIp6Prefix 0xfd000db8000000030000000000000000 64)
              true 0x5800)).
  - right. right. left. reflexivity.
  - reflexivity.
  - vm_compute. discriminate.
Defined.

Lemma PrefixMatch_sym a b : PrefixMatch a b = PrefixMatch b a.
Proof. unfold PrefixMatch. rewrite Z.lxor_comm. reflexivity. Qed.

Lemma PrefixMatch_le a b : PrefixMatch a b <= 128.
Proof. unfold PrefixMatch. pose proof (bit_length_nonneg (Z.lxor (u128 a) (u128 b))). lia. Qed.

(** An address handed to an association lies in the prefix the association
    was claimed for: the association still matches every prefix it matched
    before. *)
Lemma applyIaAddress_keeps_match option ia p :
  takes (IaAddress_GetAddress option) ia = true ->
  MatchNetifAddressWithPrefix (mNetifAddress ia) p = true ->
  MatchNetifAddressWithPrefix (mNetifAddress (applyIaAddress option ia)) p = true.
Proof.
  intros Ht Hm. unfold takes in Ht. apply andb_prop in Ht as [_ Ht].
  apply Z.geb_le in Ht.
  unfold MatchNetifAddressWithPrefix in *. cbn.
  apply andb_prop in Hm as [Hl Hm]. rewrite Hl. cbn [andb].
  apply Z.eqb_eq in Hl. apply Z.geb_le in Hm. apply Z.geb_le.
  apply (PrefixMatch_trans _ _ (mAddress (mNetifAddress ia))).
  - rewrite PrefixMatch_sym. lia.
  - rewrite PrefixMatch_sym. exact Hm.
Qed.

Lemma applyIaAddress_in_network_data option ia configs :
  takes (IaAddress_GetAddress option) ia = true ->
  prefixInNetworkData ia configs = true ->
  prefixInNetworkData (applyIaAddress option ia) configs = true.
Proof.
  intros Ht Hin. induction configs as [|config configs IH]; [discriminate|].
  cbn [prefixInNetworkData] in Hin |- *.
  destruct (negb (NetworkData.mDhcp config)); [apply IH; exact Hin|].
  pose proof (applyIaAddress_keeps_match option ia (NetworkData.mPrefix config) Ht) as Hk.
  destruct (MatchNetifAddressWithPrefix (mNetifAddress ia)
              (NetworkData.mPrefix config)).
  - rewrite Hk by reflexivity. reflexivity.
  - destruct (MatchNetifAddressWithPrefix _ _); [reflexivity|]. apply IH. exact Hin.
Qed.

(** X16: a prefix longer than the 128 bits of an address matches no
    association, not even the one claimed for it; the second loop therefore
    never finds it and gives it the first free slot each time. *)
Theorem addPrefix_overlong_prefix (ias : list IdentityAssociation) config :
  NetworkData.mDhcp config = true ->
  128 < mLength (NetworkData.mPrefix config) ->
  (forall a, MatchNetifAddressWithPrefix a (NetworkData.mPrefix config) = false)
  /\ addPrefix ias config
     = match freeSlot ias with
       | Some f => alter (served config) f ias
       | None => ias
       end.
Proof.
  intros Hd Hlen.
  assert (forall a, MatchNetifAddressWithPrefix a (NetworkData.mPrefix config) = false)
    as Hno.
  { intros a. unfold MatchNetifAddressWithPrefix. apply andb_false_iff. right.
    destruct (Z.geb_spec (PrefixMatch (mAddress a) (mPrefix (NetworkData.mPrefix config)))
                (mLength (NetworkData.mPrefix config))) as [H|H]; [|reflexivity].
    pose proof (PrefixMatch_le (mAddress a) (mPrefix (NetworkData.mPrefix config))). lia. }
  split; [exact Hno|].
  rewrite addPrefix_cases by assumption.
  assert (target (NetworkData.mPrefix config) ias = None) as ->; [|reflexivity].
  apply target_None. apply Forall_forall. intros a _ [_ Hm].
  rewrite Hno in Hm. discriminate Hm.
Qed.

Lemma addPrefix_overlong_prefix_witness :
  addPrefix
    (addPrefix (replicate 2 zeroAssociation)
       (NetworkData.mkConfig (mkIp6Prefix 0 129) true 0x4400))
    (NetworkData.mkConfig (mkIp6Prefix 0 129) true 0x4400)
  = [ served (NetworkData.mkConfig (mkIp6Prefix 0 129) true 0x4400) zeroAssociation;
      served (NetworkData.mkConfig (mkIp6Prefix 0 129) true 0x4400) zeroAssociation ].
Proof.
  rewrite (proj2 (addPrefix_overlong_prefix
                    (addPrefix (replicate 2 zeroAssociation)
                       (NetworkData.mkConfig (mkIp6Prefix 0 129) true 0x4400))
                    (NetworkData.mkConfig (mkIp6Prefix 0 129) true 0x4400)
                    eq_refl ltac:(vm_compute; reflexivity))).
  rewrite (proj2 (addPrefix_overlong_prefix (replicate 2 zeroAssociation)
                    (NetworkData.mkConfig (mkIp6Prefix 0 129) true 0x4400)
                    eq_refl ltac:(vm_compute; reflexivity))).
  reflexivity.
Defined.

(** ** The timer handler *)

Lemma firstSolicit_Some ias : forall i j,
  firstSolicit ias i = Some j ->
  exists waiting, ias !! (j - i)%nat = Some waiting
    /\ mStatus waiting = kIaStatusSolicit
    /\ (i <= j)%nat
    /\ forall k x, (k < j - i)%nat -> ias !! k = Some x -> mStatus x <> kIaStatusSolicit.
Proof.
  induction ias as [|ia ias IH]; intros i j H; [discriminate|].
  cbn [firstSolicit] in H.
  destruct (IaStatus_eqb (mStatus ia) kIaStatusSolicit) eqn:Hs.
  - injection H as <-. exists ia. rewrite Nat.sub_diag.
    split; [reflexivity|]. split; [destruct (mStatus ia); (reflexivity || discriminate)|].
    split; [lia|]. intros k x Hk. lia.
  - destruct (IH _ _ H) as (w & Hw & Hsw & Hle & Hbefore).
    exists w. replace (j - i)%nat with (S (j - S i)) by lia.
    split; [exact Hw|]. split; [exact Hsw|]. split; [lia|].
    intros [|k] x Hk Hx.
    + injection Hx as <-. intros E. rewrite E in Hs. discriminate Hs.
    + apply (Hbefore k x); [lia|exact Hx].
Qed.

Lemma firstSolicit_None ias : forall i,
  firstSolicit ias i = None -> Forall (fun x => mStatus x <> kIaStatusSolicit) ias.
Proof.
  induction ias as [|ia ias IH]; intros i H; [constructor|].
  cbn [firstSolicit] in H.
  destruct (IaStatus_eqb (mStatus ia) kIaStatusSolicit) eqn:Hs; [discriminate|].
  constructor; [|eapply IH; exact H].
  intros E. rewrite E in Hs. discriminate Hs.
Qed.

(** X17: when the timer fires after the current association was replied
    to, the handler moves on: the first association of the pool that waits
    becomes current with a fresh transaction id and a restarted timer, and
    the handler returns true; when none waits, no association is current,
    the timer is stopped, the socket is closed and the handler returns
    false.  The pool, the interface and the send log are not touched. *)
Theorem HandleTrickleTimer_after_reply eui64 env c i ia :
  mIdentityAssociationCurrent c = Some i ->
  mIdentityAssociations c !! i = Some ia ->
  mStatus ia = kIaStatusSolicitReplied ->
  let rval := fst (HandleTrickleTimer eui64 env c) in
  let c' := snd (HandleTrickleTimer eui64 env c) in
  mIdentityAssociations c' = mIdentityAssociations c
  /\ netifCalls c' = netifCalls c
  /\ sentMessages c' = sentMessages c
  /\ ((exists j waiting,
         mIdentityAssociations c !! j = Some waiting
         /\ mStatus waiting = kIaStatusSolicit
         /\ (forall k x, (k < j)%nat -> mIdentityAssociations c !! k = Some x ->
                         mStatus x <> kIaStatusSolicit)
         /\ rval = true
         /\ mIdentityAssociationCurrent c' = Some j
         /\ mTransactionId c' = u24 (eRandom env)
         /\ mTrickleTimerRunning c' = true
         /\ mSocketBound c' = mSocketBound c)
      \/ (Forall (fun x => mStatus x <> kIaStatusSolicit) (mIdentityAssociations c)
          /\ rval = false
          /\ mIdentityAssociationCurrent c' = None
          /\ mTransactionId c' = mTransactionId c
          /\ mTrickleTimerRunning c' = false
          /\ mSocketBound c' = false)).
Proof.
  intros Hcur Hi Hs rval c'. subst rval c'.
  unfold HandleTrickleTimer. rewrite Hcur, Hi, Hs.
  unfold ProcessNextIdentityAssociation.
  change (currentStatus (withCurrent None c)) with (@None IaStatus). cbv iota.
  change (mIdentityAssociations (withTrickleTimer false (withCurrent None c)))
    with (mIdentityAssociations c).
  destruct (firstSolicit (mIdentityAssociations c) 0%nat) as [j|] eqn:Hj; cbn [fst snd].
  - repeat split. left.
    destruct (firstSolicit_Some _ _ _ Hj) as (w & Hw & Hsw & _ & Hbefore).
    rewrite Nat.sub_0_r in Hw, Hbefore.
    exists j, w. repeat split; assumption.
  - repeat split. right. repeat split.
    eapply firstSolicit_None. exact Hj.
Qed.

Lemma HandleTrickleTimer_after_reply_witness :
  fst (HandleTrickleTimer nodeEui64 runEnv repliedClient) = false
  /\ mSocketBound (snd (HandleTrickleTimer nodeEui64 runEnv repliedClient)) = false.
Proof.
  destruct (HandleTrickleTimer_after_reply nodeEui64 runEnv repliedClient 0%nat
              {| mNetifAddress :=
                   {| mAddress := 0xfd000db8000000010000000000001234;
                      mPrefixLength := 64;
                      mAddressOrigin := OT_ADDRESS_ORIGIN_DHCPV6;
                      mPreferred := true; mValid := true |};
                 mPreferredLifetime := 1800; mValidLifetime := 3600;
                 mPrefixAgentRloc := 0x4400; mStatus := kIaStatusSolicitReplied |})
    as (_ & _ & _ & [(j & w & Hw & Hsw & _)|(_ & Hr & _ & _ & _ & Hsock)]).
  - reflexivity.
  - reflexivity.
  - reflexivity.
  - destruct j as [|j]; [|discriminate Hw].
    injection Hw as <-. discriminate Hsw.
  - split; [exact Hr|exact Hsock].
Defined.

Lemma askedFor_le aRloc16 c :
  0 <= askedFor aRloc16 c <= Z.of_nat (length (mIdentityAssociations c)).
Proof.
  unfold askedFor. pose proof (filter_length_le (solicited aRloc16) (mIdentityAssociations c)).
  lia.
Qed.

(** X18: when the timer fires while the current association waits or
    solicits, and a buffer with room for 46 bytes plus 28 for each slot of
    the pool is there, the handler returns true and sends exactly one
    Solicit to the agent of the current association; the association is
    soliciting afterwards and is among those the datagram asks for, the
    other slots and the transaction id stay as they are (so a retransmission
    carries the same transaction id), and the start time is set only when
    the association was still waiting. *)
Theorem HandleTrickleTimer_solicits eui64 env c i ia room :
  mIdentityAssociationCurrent c = Some i ->
  mIdentityAssociations c !! i = Some ia ->
  mStatus ia = kIaStatusSolicit \/ mStatus ia = kIaStatusSoliciting ->
  eNewMessage env = Some room ->
  eSendTo env = OT_ERROR_NONE ->
  46 + 28 * Z.of_nat (length (mIdentityAssociations c)) <= room ->
  let c1 := match mStatus ia with
            | kIaStatusSolicit =>
                withAssociations
                  (alter (setStatus kIaStatusSoliciting) i (mIdentityAssociations c))
                  (withStartTime (eNow env) c)
            | _ => c
            end in
  HandleTrickleTimer eui64 env c
  = (true, withSent (mPrefixAgentRloc ia,
                     Solicit_bytes eui64 (eNowSolicit env) (mPrefixAgentRloc ia) c1) c1)
  /\ (mStatus <$> mIdentityAssociations c1 !! i) = Some kIaStatusSoliciting
  /\ (forall j, j <> i -> mIdentityAssociations c1 !! j = mIdentityAssociations c !! j)
  /\ mTransactionId c1 = mTransactionId c
  /\ (exists asked, In asked (List.filter (solicited (mPrefixAgentRloc ia))
                                (mIdentityAssociations c1))
                    /\ mNetifAddress asked = mNetifAddress ia).
Proof.
  intros Hcur Hi Hs Hbuf Hsend Hroom c1.
  assert (mIdentityAssociationCurrent c1 = Some i) as Hcur1
    by (subst c1; destruct (mStatus ia); exact Hcur).
  assert (length (mIdentityAssociations c1) = length (mIdentityAssociations c)) as Hlen1
    by (subst c1; destruct (mStatus ia); try reflexivity; cbn; apply length_alter).
  assert (mIdentityAssociations c1 !! i = Some (setStatus kIaStatusSoliciting ia)) as Hi1.
  { subst c1. destruct Hs as [Hs|Hs]; rewrite Hs.
    - cbn. rewrite list_lookup_alter_eq, Hi. reflexivity.
    - rewrite Hi. f_equal. destruct ia. cbn in Hs. subst. reflexivity. }
  split; [|split; [|split; [|split]]].
  - unfold HandleTrickleTimer. rewrite Hcur, Hi.
    assert (Solicit eui64 env (mPrefixAgentRloc ia) c1
            = withSent (mPrefixAgentRloc ia,
                        Solicit_bytes eui64 (eNowSolicit env) (mPrefixAgentRloc ia) c1) c1)
      as HS.
    { rewrite Solicit_cases, Hbuf, Hsend, Hcur1.
      pose proof (askedFor_le (mPrefixAgentRloc ia) c1) as Hk. rewrite Hlen1 in Hk.
      destruct (Z.leb_spec (46 + 28 * askedFor (mPrefixAgentRloc ia) c1) room);
        [reflexivity|lia]. }
    subst c1. destruct Hs as [Hs|Hs]; rewrite Hs in *; rewrite HS; reflexivity.
  - rewrite Hi1. reflexivity.
  - intros j Hne. subst c1. destruct (mStatus ia); try reflexivity.
    cbn. apply list_lookup_alter_ne. congruence.
  - subst c1. destruct (mStatus ia); reflexivity.
  - exists (setStatus kIaStatusSoliciting ia). split; [|reflexivity].
    apply filter_In. split.
    + apply list_elem_of_In, list_elem_of_lookup. eauto.
    + unfold solicited. cbn. apply Z.eqb_refl.
Qed.

Lemma HandleTrickleTimer_solicits_witness :
  fst (HandleTrickleTimer nodeEui64 runEnv runConfigured) = true
  /\ length (sentMessages (snd (HandleTrickleTimer nodeEui64 runEnv runConfigured)))
     = 1%nat.
Proof.
  destruct (HandleTrickleTimer_solicits nodeEui64 runEnv runConfigured 0%nat
              (served (NetworkData.mkConfig prefixA true 0x4400) zeroAssociation) 1280)
    as [H _].
  - reflexivity.
  - reflexivity.
  - left. reflexivity.
  - reflexivity.
  - reflexivity.
  - vm_compute. discriminate.
  - rewrite H. split; reflexivity.
Defined.

(** ** Starting the retry engine *)

Lemma UpdateAddresses_not_soliciting configs aRandom c i :
  (mStatus <$> mIdentityAssociations c !! i) <> Some kIaStatusSoliciting ->
  (mStatus <$> mIdentityAssociations (UpdateAddresses configs aRandom c) !! i)
  <> Some kIaStatusSoliciting.
Proof.
  intros H E. apply H.
  rewrite (proj1 (UpdateAddresses_associations configs aRandom c)) in E.
  assert (Forall2 quiet (mIdentityAssociations c)
            (addPrefixes configs (fst (removeAddresses configs (mIdentityAssociations c)))))
    as HF by (eapply Forall2_quiet_trans;
              [apply removeAddresses_quiet|apply addPrefixes_quiet]).
  destruct (addPrefixes configs _ !! i) as [b|] eqn:Hb; [|discriminate E].
  destruct (Forall2_lookup_r _ _ _ _ _ HF Hb) as (a & Ha & [Hq _]).
  rewrite Ha. cbn in E |- *. injection E as E. f_equal. apply Hq. exact E.
Qed.

(** X19: how a reconciliation that finds a DHCP prefix starts the retry
    engine.  With the socket bound already, the current association, the
    transaction id and the timer are left as they are.  With the socket
    closed and no solicitation in flight, the first association of the new
    pool that waits becomes current with a fresh transaction id and the
    timer started; when none waits, the timer is stopped. *)
Theorem UpdateAddresses_starts_solicitation configs aRandom c :
  doesAgentExist configs = true ->
  let c' := UpdateAddresses configs aRandom c in
  (mSocketBound c = true ->
   mIdentityAssociationCurrent c' = mIdentityAssociationCurrent c
   /\ mTransactionId c' = mTransactionId c
   /\ mTrickleTimerRunning c' = mTrickleTimerRunning c)
  /\ (mSocketBound c = false ->
      currentStatus c <> Some kIaStatusSoliciting ->
      (exists j waiting,
         mIdentityAssociations c' !! j = Some waiting
         /\ mStatus waiting = kIaStatusSolicit
         /\ (forall k x, (k < j)%nat -> mIdentityAssociations c' !! k = Some x ->
                         mStatus x <> kIaStatusSolicit)
         /\ mIdentityAssociationCurrent c' = Some j
         /\ mTransactionId c' = u24 aRandom
         /\ mTrickleTimerRunning c' = true)
      \/ (Forall (fun x => mStatus x <> kIaStatusSolicit) (mIdentityAssociations c')
          /\ mIdentityAssociationCurrent c' = mIdentityAssociationCurrent c
          /\ mTransactionId c' = mTransactionId c
          /\ mTrickleTimerRunning c' = false)).
Proof.
  intros Hagent c'.
  pose proof (proj1 (UpdateAddresses_associations configs aRandom c)) as Hpool.
  fold c' in Hpool.
  assert (forall i, (mStatus <$> mIdentityAssociations c !! i) <> Some kIaStatusSoliciting ->
            (mStatus <$> mIdentityAssociations c' !! i) <> Some kIaStatusSoliciting)
    as Hquiet by (intros i; apply UpdateAddresses_not_soliciting).
  subst c'. unfold UpdateAddresses in *.
  destruct (removeAddresses configs (mIdentityAssociations c)) as [ias1 calls].
  rewrite Hagent in *.
  set (c2 := withAssociations (addPrefixes configs ias1)
               (withNetifCalls calls (withAssociations ias1 c))) in *.
  unfold Start in *. change (mSocketBound c2) with (mSocketBound c) in *.
  split; intros Hb; rewrite Hb in *.
  - repeat split.
  - intros Hcur.
    assert (currentStatus (withSocketBound true c2) <> Some kIaStatusSoliciting) as Hcur2.
    { unfold currentStatus in *. cbn [mIdentityAssociationCurrent withSocketBound c2
        withAssociations withNetifCalls] in *.
      destruct (mIdentityAssociationCurrent c) as [i|]; [|discriminate].
      specialize (Hquiet i Hcur).
      rewrite (proj1 (ProcessNextIdentityAssociation_keeps aRandom
                        (withSocketBound true c2))) in Hquiet.
      exact Hquiet. }
    rewrite (proj1 (ProcessNextIdentityAssociation_keeps aRandom
                      (withSocketBound true c2))).
    unfold ProcessNextIdentityAssociation.
    change (mIdentityAssociations (withSocketBound true c2))
      with (addPrefixes configs ias1).
    change (mIdentityAssociations (withTrickleTimer false (withSocketBound true c2)))
      with (addPrefixes configs ias1).
    destruct (currentStatus (withSocketBound true c2)) as [[]|];
      try (contradiction Hcur2; reflexivity);
      (destruct (firstSolicit (addPrefixes configs ias1) 0%nat) as [j|] eqn:Hj;
       cbn [snd];
       [left; destruct (firstSolicit_Some _ _ _ Hj) as (w & Hw & Hsw & _ & Hbefore);
        rewrite Nat.sub_0_r in Hw, Hbefore;
        exists j, w; repeat split; assumption
       |right; repeat split; eapply firstSolicit_None; exact Hj]).
Qed.

Lemma UpdateAddresses_starts_solicitation_witness :
  mIdentityAssociationCurrent runConfigured = Some 0%nat
  /\ mTransactionId runConfigured = 0x123456.
Proof.
  destruct (UpdateAddresses_starts_solicitation
              [NetworkData.mkConfig prefixA true 0x4400] 0x123456 (Client_init 1 0))
    as [_ H]; [reflexivity|].
  destruct H as [(j & w & Hw & _ & _ & Hc & Ht & _)|(Hnone & _)].
  - reflexivity.
  - discriminate.
  - destruct j as [|j]; [|discriminate Hw]. split; [exact Hc|exact Ht].
  - exfalso. inversion Hnone as [|? ? Hs _]. apply Hs. reflexivity.
Defined.

(** ** Offers and the pool *)

Lemma with_nothing_new c :
  withNetifCalls [] (withAssociations (mIdentityAssociations c) c) = c.
Proof.
  destruct c. unfold withAssociations, withNetifCalls. cbn. rewrite app_nil_r.
  reflexivity.
Qed.

Lemma takes_cases addr ia :
  takes addr ia
  = if IaStatus_eqb (mStatus ia) kIaStatusInvalid || negb (mValidLifetime ia =? 0)
    then false
    else PrefixMatch (mAddress (mNetifAddress ia)) addr >=? mPrefixLength (mNetifAddress ia).
Proof.
  unfold takes. destruct (IaStatus_eqb _ _); [reflexivity|].
  destruct (mValidLifetime ia =? 0); reflexivity.
Qed.

Lemma ProcessIaAddress_loop_find option ias :
  ProcessIaAddress_loop option ias
  = match firstTaker (IaAddress_GetAddress option) ias with
    | Some (idx, ia) =>
        (<[idx := applyIaAddress option ia]> ias,
         [AddUnicastAddress (mNetifAddress (applyIaAddress option ia))])
    | None => (ias, [])
    end.
Proof.
  unfold firstTaker. induction ias as [|ia ias IH]; [reflexivity|].
  cbn [ProcessIaAddress_loop list_find]. rewrite IH.
  destruct (decide (takes (IaAddress_GetAddress option) ia = true)) as [Ht|Ht];
    rewrite takes_cases in Ht.
  - destruct (_ || _); [discriminate Ht|]. rewrite Ht. reflexivity.
  - destruct (list_find _ ias) as [[idx x]|]; cbn [fmap option_fmap option_map prod_map];
      (destruct (_ || _); [reflexivity|]);
      (destruct (_ >=? _); [contradiction Ht; reflexivity|reflexivity]).
Qed.

(** X20: a well-formed IaAddress option goes to the first association, in
    pool order, that takes the address (valid, no lifetime yet, address
    matching over its prefix length): that association alone changes and is
    added to the interface.  When no association takes it, the option is
    passed over without an error and the client stays as it is. *)
Theorem ProcessIaAddress_first_taker m aOffset c :
  let option := Message_Read m aOffset sizeof_IaAddress in
  bytesRead option = sizeof_IaAddress ->
  Option_GetLength option = sizeof_IaAddress - sizeof_Option ->
  ProcessIaAddress m aOffset c
  = (OT_ERROR_NONE,
     match firstTaker (IaAddress_GetAddress option) (mIdentityAssociations c) with
     | Some (idx, ia) =>
         withNetifCalls [AddUnicastAddress (mNetifAddress (applyIaAddress option ia))]
           (withAssociations
              (<[idx := applyIaAddress option ia]> (mIdentityAssociations c)) c)
     | None => c
     end).
Proof.
  intros option Hread Hlen. unfold ProcessIaAddress. fold option.
  rewrite Hread, Hlen, !Z.eqb_refl. cbn [andb].
  rewrite ProcessIaAddress_loop_find.
  destruct (firstTaker _ _) as [[idx ia]|]; [reflexivity|].
  rewrite with_nothing_new. reflexivity.
Qed.

Lemma ProcessIaAddress_first_taker_witness :
  ProcessIaAddress (mkMessage (IaAddress_bytes addressB 1800 3600) 0) 0 runSoliciting
  = (OT_ERROR_NONE, runSoliciting).
Proof.
  rewrite (ProcessIaAddress_first_taker
             (mkMessage (IaAddress_bytes addressB 1800 3600) 0) 0 runSoliciting).
  - reflexivity.
  - reflexivity.
  - reflexivity.
Defined.

(** ** A container with any number of offers *)

Lemma offers_bytes_length offers :
  Z.of_nat (length (offers_bytes offers)) = 28 * Z.of_nat (length offers).
Proof.
  unfold offers_bytes. induction offers as [|o offers IH]; [reflexivity|].
  cbn [flat_map length]. rewrite length_app, IaAddress_bytes_length. lia.
Qed.

(** The scan for another code steps over the offers one by one. *)
Lemma FindOption_loop_over_offers code offers : forall (A : list Z) n m end_ B,
  mData m = A ++ offers_bytes offers ++ B ->
  code <> kOptionIaAddress ->
  GetLength m < 2 ^ 16 ->
  Z.of_nat (length A) + 28 * Z.of_nat (length offers) <= end_ ->
  FindOption_loop (length offers + n) m (Z.of_nat (length A)) end_ code
  = FindOption_loop n m (Z.of_nat (length A) + 28 * Z.of_nat (length offers)) end_ code.
Proof.
  induction offers as [|[[a p] v] offers IH]; intros A n m end_ B Hm Hc Hlen Hend.
  - cbn [length Nat.add]. f_equal. lia.
  - cbn [offers_bytes flat_map fst snd] in Hm. fold (offers_bytes offers) in Hm.
    rewrite <- app_assoc in Hm.
    assert (GetLength m = Z.of_nat (length A) + 28
                          + Z.of_nat (length (offers_bytes offers ++ B))) as HL.
    { unfold GetLength. rewrite Hm, !length_app, IaAddress_bytes_length. lia. }
    cbn [length Nat.add FindOption_loop]. cbn [length] in Hend.
    rewrite Nat2Z.inj_succ in Hend |- *.
    destruct (Z.leb_spec (Z.of_nat (length A)) end_); [|lia].
    rewrite IaAddress_bytes_option in Hm.
    destruct (option_header_read m A _ _ _ Hm) as (Hr & Hcode & Hl);
      [unfold kOptionIaAddress; lia|cbn; lia|].
    rewrite Hr, Hcode, Hl. change (sizeof_Option =? sizeof_Option) with true. cbv iota.
    destruct (Z.eqb_spec kOptionIaAddress code) as [E|_]; [congruence|].
    change (sizeof_Option
            + Z.of_nat (length (be_enc 16 a ++ be_enc 4 p ++ be_enc 4 v))) with 28.
    rewrite u16_small by lia.
    replace (Z.of_nat (length A) + 28)
      with (Z.of_nat (length (A ++ Option_bytes kOptionIaAddress
                                     (be_enc 16 a ++ be_enc 4 p ++ be_enc 4 v))))
      by (rewrite length_app, Option_bytes_length; cbn; lia).
    rewrite (IH _ n m end_ B);
      [|rewrite <- app_assoc; exact Hm|assumption|assumption
       |rewrite length_app, Option_bytes_length; cbn [length]; cbn; lia].
    f_equal. rewrite length_app, Option_bytes_length. cbn [length].
    rewrite !length_app, !be_enc_length. lia.
Qed.

(** The scan when it stands at the end of its window, where the loop
    condition [aOffset <= end] still holds: it looks at the option that
    follows the window. *)
Lemma FindOption_loop_at_end code n m (A : list Z) l2 :
  mData m = A ++ options_bytes l2 ->
  codesOk l2 ->
  GetLength m < 2 ^ 16 ->
  (2 <= n)%nat ->
  FindOption_loop n m (Z.of_nat (length A)) (Z.of_nat (length A)) code
  = Some (match l2 with
          | o :: _ => if fst o =? code then Z.of_nat (length A) else 0
          | [] => 0
          end).
Proof.
  intros Hm Hok Hlen Hn. destruct n as [|[|n]]; try lia.
  cbn [FindOption_loop]. rewrite Z.leb_refl.
  destruct l2 as [|[c2 p2] l2].
  - rewrite (Message_Read_at m A [] _) by exact Hm. reflexivity.
  - rewrite options_bytes_cons in Hm. cbn [fst snd] in *.
    inversion Hok as [|? ? Hc2 _]; subst. cbn [fst] in Hc2.
    assert (GetLength m = Z.of_nat (length A) + 4 + Z.of_nat (length p2)
                          + Z.of_nat (length (options_bytes l2))) as HL.
    { unfold GetLength. rewrite Hm, !length_app, Option_bytes_length. lia. }
    destruct (option_header_read m A c2 p2 (options_bytes l2) Hm Hc2)
      as (Hr & Hcode & Hl); [lia|].
    rewrite Hr, Hcode, Hl. change (sizeof_Option =? sizeof_Option) with true. cbv iota.
    destruct (Z.eqb_spec c2 code); [reflexivity|].
    rewrite u16_small by (unfold sizeof_Option; lia).
    destruct (Z.leb_spec (Z.of_nat (length A) + (sizeof_Option + Z.of_nat (length p2)))
                (Z.of_nat (length A))); [unfold sizeof_Option in *; lia|].
    reflexivity.
Qed.

Lemma FindOption_at_offer n m (A : list Z) a p v B len :
  mData m = A ++ IaAddress_bytes a p v ++ B ->
  GetLength m < 2 ^ 16 ->
  0 <= len -> Z.of_nat (length A) + len < 2 ^ 16 ->
  (1 <= n)%nat ->
  FindOption n m (Z.of_nat (length A)) len kOptionIaAddress = Some (Z.of_nat (length A)).
Proof.
  intros Hm Hlen Hl0 Hl Hn. destruct n as [|n]; [lia|].
  assert (GetLength m = Z.of_nat (length A) + 28 + Z.of_nat (length B)) as HL.
  { unfold GetLength. rewrite Hm, !length_app, IaAddress_bytes_length. lia. }
  unfold FindOption. rewrite u16_small by lia.
  cbn [FindOption_loop].
  destruct (Z.leb_spec (Z.of_nat (length A)) (Z.of_nat (length A) + len)); [|lia].
  rewrite IaAddress_bytes_option in Hm.
  destruct (option_header_read m A _ _ _ Hm) as (Hr & Hc & _);
    [unfold kOptionIaAddress; lia|cbn; lia|].
  rewrite Hr, Hc. reflexivity.
Qed.

Lemma ProcessIaAddress_offer m (A : list Z) a p v B c :
  mData m = A ++ IaAddress_bytes a p v ++ B ->
  ProcessIaAddress m (Z.of_nat (length A)) c
  = (OT_ERROR_NONE, grant (IaAddress_bytes a p v) c).
Proof.
  intros Hm. unfold ProcessIaAddress, grant.
  rewrite (Message_Read_at m A _ _ Hm).
  assert (firstn (Z.to_nat sizeof_IaAddress) (IaAddress_bytes a p v ++ B)
          = IaAddress_bytes a p v) as -> by reflexivity.
  assert ((bytesRead (IaAddress_bytes a p v) =? sizeof_IaAddress)
          && (Option_GetLength (IaAddress_bytes a p v)
              =? sizeof_IaAddress - sizeof_Option) = true) as -> by reflexivity.
  destruct (ProcessIaAddress_loop _ _). reflexivity.
Qed.

(** The loop of [ProcessIaNa] over a window that holds offers only. *)
Lemma ProcessIaNa_loop_offers n m : forall offers (A : list Z) fuel c B,
  mData m = A ++ offers_bytes offers ++ B ->
  GetLength m < 2 ^ 16 ->
  (1 <= n)%nat -> (length offers < fuel)%nat -> (0 < length A)%nat ->
  ProcessIaNa_loop n fuel m (Z.of_nat (length A)) (28 * Z.of_nat (length offers)) c
  = Some (OT_ERROR_NONE, grantAll offers c).
Proof.
  induction offers as [|[[a p] v] offers IH]; intros A fuel c B Hm Hlen Hn Hfuel HA;
    (destruct fuel as [|fuel]; [simpl in Hfuel; lia|]); cbn [ProcessIaNa_loop].
  - reflexivity.
  - cbn [offers_bytes flat_map fst snd] in Hm. fold (offers_bytes offers) in Hm.
    rewrite <- app_assoc in Hm.
    assert (GetLength m = Z.of_nat (length A) + 28
                          + Z.of_nat (length (offers_bytes offers))
                          + Z.of_nat (length B)) as HL.
    { unfold GetLength. rewrite Hm, !length_app, IaAddress_bytes_length. lia. }
    rewrite offers_bytes_length in HL.
    cbn [length] in *. rewrite Nat2Z.inj_succ.
    destruct (Z.gtb_spec (28 * Z.succ (Z.of_nat (length offers))) 0); [|lia].
    rewrite (FindOption_at_offer n m A a p v _ _ Hm) by lia.
    cbn [mbind option_bind].
    destruct (Z.eqb_spec (Z.of_nat (length A)) 0); [lia|].
    rewrite (ProcessIaAddress_offer m A a p v _ c Hm).
    unfold sizeof_IaAddress.
    replace (u16 (28 * Z.succ (Z.of_nat (length offers))
                  - (Z.of_nat (length A) - Z.of_nat (length A) + 28)))
      with (28 * Z.of_nat (length offers)) by (rewrite u16_small; lia).
    replace (u16 (Z.of_nat (length A) + 28))
      with (Z.of_nat (length (A ++ IaAddress_bytes a p v)))
      by (rewrite length_app, IaAddress_bytes_length, u16_small; lia).
    rewrite (IH (A ++ IaAddress_bytes a p v) fuel _ B);
      [reflexivity|rewrite <- app_assoc; exact Hm|assumption|assumption|lia
      |rewrite length_app; lia].
Qed.

Lemma IaNa_container_bytes iaid t1 t2 offers :
  Option_bytes kOptionIaNa
    (be_enc 4 iaid ++ be_enc 4 t1 ++ be_enc 4 t2 ++ offers_bytes offers)
  = IaNa_bytes (12 + 28 * Z.of_nat (length offers)) iaid t1 t2 ++ offers_bytes offers.
Proof.
  unfold Option_bytes, IaNa_bytes. rewrite <- !app_assoc. do 2 f_equal.
  rewrite !length_app, !be_enc_length. f_equal.
  pose proof (offers_bytes_length offers). lia.
Qed.

(** [ProcessIaNa] on a container that holds offers only, followed by the
    options [l2] of the Reply. *)
Lemma ProcessIaNa_offers n m (A : list Z) iaid t1 t2 offers l2 c :
  mData m = A ++ Option_bytes kOptionIaNa
                   (be_enc 4 iaid ++ be_enc 4 t1 ++ be_enc 4 t2 ++ offers_bytes offers)
              ++ options_bytes l2 ->
  codesOk l2 ->
  Forall (fun o => fst o = kOptionStatusCode -> successStatus (snd o)) l2 ->
  GetLength m < 2 ^ 16 ->
  (length offers + 2 <= n)%nat ->
  ProcessIaNa n m (Z.of_nat (length A)) c = Some (OT_ERROR_NONE, grantAll offers c).
Proof.
  intros Hm Hok Hall Hlen Hn.
  rewrite IaNa_container_bytes, <- app_assoc in Hm.
  set (k := Z.of_nat (length offers)) in *.
  assert (GetLength m = Z.of_nat (length A) + 16 + 28 * k
                        + Z.of_nat (length (options_bytes l2))) as HL.
  { unfold GetLength. rewrite Hm, !length_app, IaNa_bytes_length.
    pose proof (offers_bytes_length offers). lia. }
  assert (0 <= k) as Hk0 by (subst k; lia).
  unfold ProcessIaNa.
  rewrite (Message_Read_at m A _ _ Hm).
  assert (firstn (Z.to_nat sizeof_IaNa)
            (IaNa_bytes (12 + 28 * k) iaid t1 t2 ++ offers_bytes offers ++ options_bytes l2)
          = IaNa_bytes (12 + 28 * k) iaid t1 t2) as -> by reflexivity.
  change (bytesRead (IaNa_bytes (12 + 28 * k) iaid t1 t2) =? sizeof_IaNa) with true.
  cbv iota zeta.
  assert (IaNa_window (IaNa_bytes (12 + 28 * k) iaid t1 t2) = 28 * k) as ->.
  { unfold IaNa_window, IaNa_bytes.
    destruct (Option_header_fields kOptionIaNa (12 + 28 * k)
                (be_enc 4 iaid ++ be_enc 4 t1 ++ be_enc 4 t2)) as [_ ->].
    rewrite Z.mod_small by lia. unfold sizeof_IaNa, sizeof_Option.
    rewrite u16_small; lia. }
  replace (u16 (Z.of_nat (length A) + sizeof_IaNa))
    with (Z.of_nat (length (A ++ IaNa_bytes (12 + 28 * k) iaid t1 t2)))
    by (rewrite length_app, IaNa_bytes_length, u16_small; unfold sizeof_IaNa; lia).
  set (A' := A ++ IaNa_bytes (12 + 28 * k) iaid t1 t2).
  assert (Z.of_nat (length A') = Z.of_nat (length A) + 16) as HA'
    by (subst A'; rewrite length_app, IaNa_bytes_length; lia).
  assert (mData m = A' ++ offers_bytes offers ++ options_bytes l2) as Hm'
    by (subst A'; rewrite <- app_assoc; exact Hm).
  destruct (Z.leb_spec (28 * k) (GetLength m - Z.of_nat (length A'))); [|lia].
  unfold ProcessIaNa_options.
  (* the nested status code *)
  assert (FindOption n m (Z.of_nat (length A')) (28 * k) kOptionStatusCode
          = Some (match l2 with
                  | o :: _ => if fst o =? kOptionStatusCode
                              then Z.of_nat (length A') + 28 * k else 0
                  | [] => 0
                  end)) as ->.
  { unfold FindOption. rewrite u16_small by lia.
    replace n with (length offers + (n - length offers))%nat by lia.
    rewrite (FindOption_loop_over_offers kOptionStatusCode offers A' _ m _
               (options_bytes l2) Hm') by (discriminate || lia).
    fold k.
    replace (Z.of_nat (length A') + 28 * k)
      with (Z.of_nat (length (A' ++ offers_bytes offers)))
      by (rewrite length_app; pose proof (offers_bytes_length offers); lia).
    apply FindOption_loop_at_end; [rewrite <- app_assoc; exact Hm'|assumption..|lia]. }
  cbn [mbind option_bind].
  assert ((if (match l2 with
               | [] => 0
               | o :: _ => if fst o =? kOptionStatusCode
                           then Z.of_nat (length A') + 28 * k else 0
               end) >? 0
           then ProcessStatusCode m
                  (match l2 with
                   | [] => 0
                   | o :: _ => if fst o =? kOptionStatusCode
                               then Z.of_nat (length A') + 28 * k else 0
                   end)
           else OT_ERROR_NONE) = OT_ERROR_NONE) as ->.
  { destruct l2 as [|[c2 p2] l2]; [reflexivity|]. cbn [fst].
    destruct (Z.eqb_spec c2 kOptionStatusCode) as [->|]; [|reflexivity].
    destruct (_ >? 0); [|reflexivity].
    replace (Z.of_nat (length A') + 28 * k)
      with (Z.of_nat (length (A' ++ offers_bytes offers)))
      by (rewrite length_app; pose proof (offers_bytes_length offers); lia).
    inversion Hall as [|? ? Hs _]; subst.
    apply (ProcessStatusCode_success m _ p2 (options_bytes l2)).
    - rewrite <- app_assoc. exact Hm'.
    - rewrite options_bytes_cons, length_app, Option_bytes_length in HL.
      cbn [fst snd] in HL. lia.
    - apply Hs. reflexivity. }
  apply (ProcessIaNa_loop_offers n m offers A' n c (options_bytes l2) Hm' Hlen); lia.
Qed.

(** What granting offers leaves alone. *)
Lemma grant_frame option c :
  mIdentityAssociationCurrent (grant option c) = mIdentityAssociationCurrent c
  /\ mTransactionId (grant option c) = mTransactionId c
  /\ sentMessages (grant option c) = sentMessages c
  /\ length (mIdentityAssociations (grant option c)) = length (mIdentityAssociations c)
  /\ exists adds, netifCalls (grant option c) = netifCalls c ++ adds
                  /\ (length adds <= 1)%nat
                  /\ Forall (fun call => exists a, call = AddUnicastAddress a) adds.
Proof.
  unfold grant. rewrite ProcessIaAddress_loop_find.
  destruct (firstTaker _ _) as [[idx ia]|]; cbn.
  - repeat split; [apply length_insert|].
    eexists. split; [reflexivity|]. split; [cbn; lia|].
    constructor; [eauto|constructor].
  - repeat split. exists []. split; [reflexivity|]. split; [cbn; lia|constructor].
Qed.

Lemma grantAll_frame offers : forall c,
  mIdentityAssociationCurrent (grantAll offers c) = mIdentityAssociationCurrent c
  /\ mTransactionId (grantAll offers c) = mTransactionId c
  /\ sentMessages (grantAll offers c) = sentMessages c
  /\ length (mIdentityAssociations (grantAll offers c))
     = length (mIdentityAssociations c)
  /\ exists adds, netifCalls (grantAll offers c) = netifCalls c ++ adds
                  /\ (length adds <= length offers)%nat
                  /\ Forall (fun call => exists a, call = AddUnicastAddress a) adds.
Proof.
  unfold grantAll. induction offers as [|o offers IH]; intros c; cbn [fold_left length].
  - repeat split. exists []. split; [symmetry; apply app_nil_r|].
    split; [cbn; lia|constructor].
  - destruct (grant_frame (IaAddress_bytes (fst (fst o)) (snd (fst o)) (snd o)) c)
      as (Hc & Ht & Hs & Hl & adds1 & Ha1 & Hn1 & Hf1).
    destruct (IH (grant (IaAddress_bytes (fst (fst o)) (snd (fst o)) (snd o)) c))
      as (Hc' & Ht' & Hs' & Hl' & adds2 & Ha2 & Hn2 & Hf2).
    repeat split; try congruence.
    exists (adds1 ++ adds2). split; [rewrite Ha2, Ha1, app_assoc; reflexivity|].
    split; [rewrite length_app; lia|apply Forall_app; split; assumption].
Qed.

(** X21: [ProcessIaNa] on a container that holds any number of IaAddress
    options, none included, hands them to the pool one after the other, in
    the order of the container, and returns without an error.  It makes at
    most one interface call for each offer, an addition, and leaves the
    current association, the transaction id, the send log and the size of
    the pool as they are. *)
Theorem ProcessIaNa_grants_every_offer n m (A : list Z) iaid t1 t2 offers l2 c :
  mData m = A ++ Option_bytes kOptionIaNa
                   (be_enc 4 iaid ++ be_enc 4 t1 ++ be_enc 4 t2 ++ offers_bytes offers)
              ++ options_bytes l2 ->
  codesOk l2 ->
  Forall (fun o => fst o = kOptionStatusCode -> successStatus (snd o)) l2 ->
  GetLength m < 2 ^ 16 ->
  (length offers + 2 <= n)%nat ->
  exists c',
    ProcessIaNa n m (Z.of_nat (length A)) c = Some (OT_ERROR_NONE, c')
    /\ c' = grantAll offers c
    /\ mIdentityAssociationCurrent c' = mIdentityAssociationCurrent c
    /\ mTransactionId c' = mTransactionId c
    /\ sentMessages c' = sentMessages c
    /\ length (mIdentityAssociations c') = length (mIdentityAssociations c)
    /\ exists adds, netifCalls c' = netifCalls c ++ adds
                    /\ (length adds <= length offers)%nat
                    /\ Forall (fun call => exists a, call = AddUnicastAddress a) adds.
Proof.
  intros Hm Hok Hall Hlen Hn. exists (grantAll offers c).
  split; [apply (ProcessIaNa_offers n m A iaid t1 t2 offers l2 c); assumption|].
  split; [reflexivity|]. apply grantAll_frame.
Qed.

Lemma ProcessIaNa_grants_every_offer_witness :
  ProcessIaNa 4
    (mkMessage (Header_bytes kTypeReply 1
                ++ Option_bytes kOptionIaNa
                     (be_enc 4 0 ++ be_enc 4 0 ++ be_enc 4 0
                      ++ offers_bytes [(addressB, 1800, 3600); (addressA, 1800, 3600)])
                ++ options_bytes []) 4)
    4 runSoliciting
  = Some (OT_ERROR_NONE,
          grantAll [(addressB, 1800, 3600); (addressA, 1800, 3600)] runSoliciting).
Proof.
  destruct (ProcessIaNa_grants_every_offer 4
              (mkMessage (Header_bytes kTypeReply 1
                          ++ Option_bytes kOptionIaNa
                               (be_enc 4 0 ++ be_enc 4 0 ++ be_enc 4 0
                                ++ offers_bytes [(addressB, 1800, 3600);
                                                 (addressA, 1800, 3600)])
                          ++ options_bytes []) 4)
              (Header_bytes kTypeReply 1) 0 0 0
              [(addressB, 1800, 3600); (addressA, 1800, 3600)] [] runSoliciting)
    as (c' & H & -> & _).
  - reflexivity.
  - constructor.
  - constructor.
  - vm_compute. reflexivity.
  - cbn. lia.
  - exact H.
Defined.

(** ** The checks before the container *)

(** A Reply that passes the checks is processed as its first IA_NA
    container is; the timer handler runs when the container parsed. *)
Lemma HandleUdpReceive_reaches_IaNa n eui64 env pre txid opts ki payload c :
  passesChecks eui64 n pre txid opts ki payload ->
  mTransactionId c = txid ->
  HandleUdpReceive n eui64 env (datagram pre kTypeReply txid opts) c
  = match ProcessIaNa n (MoveOffset (datagram pre kTypeReply txid opts) sizeof_Header)
            (optionsOffset pre + ki) c with
    | Some (OT_ERROR_NONE, c') => Some (snd (HandleTrickleTimer eui64 env c'))
    | Some (_, c') => Some c'
    | None => None
    end.
Proof.
  intros (Hok & Hlen & Hn & Htx & Hstat & (ks & ps & Hfs & Hsrv) & (kc & Hfc) & He
          & (kr & pr & Hfr) & Hfi) Htxid.
  unfold HandleUdpReceive.
  destruct (datagram_header pre kTypeReply txid opts ltac:(unfold kTypeReply; lia) Htx)
    as (-> & -> & ->).
  rewrite Htxid, !Z.eqb_refl. cbn [andb].
  unfold ProcessReply.
  destruct (ProcessReply_status_ok n pre kTypeReply txid opts Hok Hlen Hn
              (fun k p => firstOption_status_success opts k p Hstat))
    as (o & Ho1 & Ho2).
  rewrite Ho1. cbn [mbind option_bind]. rewrite Ho2.
  rewrite (FindOption_datagram pre kTypeReply txid opts kOptionServerIdentifier n)
    by assumption.
  rewrite Hfs. cbn [mbind option_bind].
  destruct (firstOption_payload_length _ _ _ _ _ _ _ Hlen Hfs) as [Hks Hpsl].
  rewrite optionsOffset_pos by assumption.
  destruct (datagram_split pre kTypeReply txid opts _ ks ps Hfs) as (As & Bs & Hms & <- & _).
  rewrite (ProcessServerIdentifier_accepted _ As ps Bs Hms Hpsl Hsrv).
  rewrite (FindOption_datagram pre kTypeReply txid opts kOptionClientIdentifier n)
    by assumption.
  rewrite Hfc. cbn [mbind option_bind].
  destruct (firstOption_payload_length _ _ _ _ _ _ _ Hlen Hfc) as [Hkc _].
  rewrite optionsOffset_pos by assumption.
  destruct (datagram_split pre kTypeReply txid opts _ kc _ Hfc) as (Ac & Bc & Hmc & <- & _).
  rewrite (ProcessClientIdentifier_own eui64 _ Ac Bc Hmc He).
  rewrite (FindOption_datagram pre kTypeReply txid opts kOptionRapidCommit n)
    by assumption.
  rewrite Hfr. cbn [mbind option_bind].
  destruct (firstOption_payload_length _ _ _ _ _ _ _ Hlen Hfr) as [Hkr _].
  rewrite optionsOffset_pos by assumption.
  rewrite (FindOption_datagram pre kTypeReply txid opts kOptionIaNa n) by assumption.
  rewrite Hfi. cbn [mbind option_bind].
  destruct (firstOption_payload_length _ _ _ _ _ _ _ Hlen Hfi) as [Hki _].
  rewrite optionsOffset_pos by assumption.
  destruct (ProcessIaNa _ _ _ _) as [[[] c']|]; reflexivity.
Qed.

(** X22: a Reply with the outstanding transaction id that passes the
    checks and whose IA_NA container holds any number of IaAddress options
    gives every offered address to the pool, in the order of the container,
    and then runs the timer handler once. *)
Theorem HandleUdpReceive_grants_offers n eui64 env pre txid opts ki iaid t1 t2 offers c :
  passesChecks eui64 n pre txid opts ki
    (be_enc 4 iaid ++ be_enc 4 t1 ++ be_enc 4 t2 ++ offers_bytes offers) ->
  (length offers + 2 <= n)%nat ->
  mTransactionId c = txid ->
  HandleUdpReceive n eui64 env (datagram pre kTypeReply txid opts) c
  = Some (snd (HandleTrickleTimer eui64 env (grantAll offers c))).
Proof.
  intros Hchecks Hn Htxid.
  rewrite (HandleUdpReceive_reaches_IaNa n eui64 env pre txid opts ki _ c Hchecks Htxid).
  destruct Hchecks as (Hok & Hlen & _ & _ & Hstat & _ & _ & _ & _ & Hfi).
  destruct (datagram_split pre kTypeReply txid opts _ ki _ Hfi)
    as (Ai & Bi & Hmi & <- & l2 & -> & Hl2).
  rewrite (ProcessIaNa_offers n _ Ai iaid t1 t2 offers l2 c Hmi);
    [reflexivity| | |exact Hlen|exact Hn].
  - eapply Forall_In_sub; [exact Hok|exact Hl2].
  - eapply Forall_In_sub; [exact Hstat|exact Hl2].
Qed.

(** X23: an address that [ProcessIaAddress] gives to an association lies in
    the prefix the association was claimed for, so the association is not
    stale for network data that holds that prefix: the next reconciliation
    against such network data keeps the assigned address, its lifetimes and
    its replied status, and may only change the agent locator. *)
Theorem assigned_address_survives_reconciliation m aOffset c configs aRandom idx ia :
  let option := Message_Read m aOffset sizeof_IaAddress in
  bytesRead option = sizeof_IaAddress ->
  Option_GetLength option = sizeof_IaAddress - sizeof_Option ->
  mIdentityAssociations c !! idx = Some ia ->
  takes (IaAddress_GetAddress option) ia = true ->
  (forall j x, (j < idx)%nat -> mIdentityAssociations c !! j = Some x ->
               takes (IaAddress_GetAddress option) x = false) ->
  prefixInNetworkData ia configs = true ->
  let c1 := snd (ProcessIaAddress m aOffset c) in
  mIdentityAssociations c1 !! idx = Some (applyIaAddress option ia)
  /\ stale configs (applyIaAddress option ia) = false
  /\ exists rloc,
       mIdentityAssociations (UpdateAddresses configs aRandom c1) !! idx
       = Some (setPrefixAgentRloc rloc (applyIaAddress option ia)).
Proof.
  intros option Hread Hlen Hi Ht Hbefore Hin c1.
  assert (firstTaker (IaAddress_GetAddress option) (mIdentityAssociations c)
          = Some (idx, ia)) as Hf.
  { unfold firstTaker. apply list_find_Some. split; [exact Hi|]. split; [exact Ht|].
    intros j x Hx Hlt E. rewrite (Hbefore j x Hlt Hx) in E. discriminate E. }
  assert (mIdentityAssociations c1 !! idx = Some (applyIaAddress option ia)) as Hi1.
  { subst c1. unfold ProcessIaAddress. fold option.
    rewrite Hread, Hlen, !Z.eqb_refl. cbn [andb].
    rewrite ProcessIaAddress_loop_find, Hf. cbn.
    apply list_lookup_insert_eq. eapply lookup_lt_Some. exact Hi. }
  assert (stale configs (applyIaAddress option ia) = false) as Hst.
  { unfold stale. rewrite (applyIaAddress_in_network_data option ia configs Ht Hin).
    apply andb_false_r. }
  split; [exact Hi1|]. split; [exact Hst|].
  rewrite (proj1 (UpdateAddresses_associations configs aRandom c1)),
    removeAddresses_spec. cbn [fst].
  destruct (addPrefixes_keeps_live configs (applyIaAddress option ia) idx
              ltac:(discriminate)
              (map (fun ia0 => if stale configs ia0
                               then setStatus kIaStatusInvalid ia0 else ia0)
                 (mIdentityAssociations c1))
              (mPrefixAgentRloc ia)) as (rloc & Hl & _).
  - rewrite list_lookup_fmap, Hi1. cbn [fmap option_fmap option_map]. rewrite Hst.
    reflexivity.
  - exists rloc. exact Hl.
Qed.

Lemma assigned_address_survives_reconciliation_witness :
  exists rloc,
    mIdentityAssociations
      (UpdateAddresses [NetworkData.mkConfig prefixA true 0x5800] 9
         (snd (ProcessIaAddress (mkMessage (IaAddress_bytes addressA 1800 3600) 0) 0
                 runSoliciting))) !! 0%nat
    = Some (setPrefixAgentRloc rloc
              (applyIaAddress (IaAddress_bytes addressA 1800 3600)
                 (setStatus kIaStatusSoliciting
                    (served (NetworkData.mkConfig prefixA true 0x4400)
                       zeroAssociation)))).
Proof.
  destruct (assigned_address_survives_reconciliation
              (mkMessage (IaAddress_bytes addressA 1800 3600) 0) 0 runSoliciting
              [NetworkData.mkConfig prefixA true 0x5800] 9 0%nat
              (setStatus kIaStatusSoliciting
                 (served (NetworkData.mkConfig prefixA true 0x4400) zeroAssociation)))
    as (_ & _ & rloc & H).
  - reflexivity.
  - reflexivity.
  - vm_compute. reflexivity.
  - vm_compute. reflexivity.
  - intros j x Hj. lia.
  - vm_compute. reflexivity.
  - exists rloc. exact H.
Defined.

(** The checks of [passesChecks] for the options of [replyWith] and their
    like: a server DUID, this node's DUID, RapidCommit, then the container
    at offset 36. *)
Ltac checks_pass :=
  unfold passesChecks;
  split; [unfold codesOk; each_element code_in_range|];
  split; [rewrite datagram_length; vm_compute; reflexivity|];
  split; [cbn; lia|];
  split; [lia|];
  split; [each_element ltac:(cbn; intros H; discriminate H)|];
  split;
  [exists 0, (ownDuid 0x00aabbccddeeff00); split; [reflexivity|];
   split; [cbn; lia|]; right; repeat split; vm_compute; reflexivity|];
  split; [exists 16; reflexivity|];
  split; [vm_compute; split; [discriminate|reflexivity]|];
  split; [exists 32, []; reflexivity|];
  reflexivity.

Lemma HandleUdpReceive_grants_offers_witness :
  HandleUdpReceive 8 nodeEui64 runEnv
    (datagram pre48 kTypeReply 0x123456
       (replyWith [(addressA, 1800, 3600); (addressB, 900, 1800)]))
    twoFirstSoliciting
  = Some (snd (HandleTrickleTimer nodeEui64 runEnv
                 (grantAll [(addressA, 1800, 3600); (addressB, 900, 1800)]
                    twoFirstSoliciting)))
  /\ map mStatus (mIdentityAssociations twoFirstSoliciting)
     = [kIaStatusSoliciting; kIaStatusSolicit]
  /\ map (fun ia => (mStatus ia, mAddress (mNetifAddress ia), mValidLifetime ia))
       (mIdentityAssociations
          (grantAll [(addressA, 1800, 3600); (addressB, 900, 1800)] twoFirstSoliciting))
     = [(kIaStatusSolicitReplied, addressA, 3600);
        (kIaStatusSolicitReplied, addressB, 1800)].
Proof.
  split; [|split; vm_compute; reflexivity].
  apply (HandleUdpReceive_grants_offers 8 nodeEui64 runEnv pre48 0x123456
           (replyWith [(addressA, 1800, 3600); (addressB, 900, 1800)]) 36 0 0 0
           [(addressA, 1800, 3600); (addressB, 900, 1800)] twoFirstSoliciting).
  - unfold replyWith. checks_pass.
  - cbn. lia.
  - vm_compute. reflexivity.
Defined.

(** ** Replies that lack an option *)

Lemma firstOption_missing code opts :
  ~ In code (map fst opts) -> firstOption code opts = None.
Proof.
  intros H. apply firstOption_absent. apply Forall_forall. intros o Ho E.
  apply H. apply in_map_iff. exists o. split; [exact E|].
  apply list_elem_of_In. exact Ho.
Qed.

(** X24: a datagram whose options are well formed and lack the
    ServerIdentifier, the ClientIdentifier, RapidCommit or the IA_NA
    container is dropped before any association is looked at: the client
    stays exactly as it was. *)
Theorem HandleUdpReceive_missing_option n eui64 env pre type txid opts c code :
  codesOk opts ->
  GetLength (datagram pre type txid opts) < 2 ^ 16 ->
  (length opts < n)%nat ->
  In code mandatoryOptions ->
  ~ In code (map fst opts) ->
  HandleUdpReceive n eui64 env (datagram pre type txid opts) c = Some c.
Proof.
  intros Hok Hlen Hn Hcode Hmiss. unfold HandleUdpReceive.
  destruct (bytesRead _ =? sizeof_Header); [|reflexivity].
  destruct (_ && _); [|reflexivity].
  unfold ProcessReply. rewrite !FindOption_datagram by assumption.
  cbn [mbind option_bind].
  destruct (if _ >? 0 then ProcessStatusCode _ _ else OT_ERROR_NONE); try reflexivity.
  pose proof (firstOption_missing code opts Hmiss) as Hnone.
  destruct Hcode as [<-|[<-|[<-|[<-|[]]]]].
  - rewrite Hnone. reflexivity.
  - destruct (_ >? 0); [|reflexivity].
    destruct (ProcessServerIdentifier _ _); try reflexivity.
    rewrite Hnone. reflexivity.
  - destruct (_ >? 0); [|reflexivity].
    destruct (ProcessServerIdentifier _ _); try reflexivity.
    destruct (_ >? 0); [|reflexivity].
    destruct (ProcessClientIdentifier _ _ _); try reflexivity.
    rewrite Hnone. reflexivity.
  - destruct (_ >? 0); [|reflexivity].
    destruct (ProcessServerIdentifier _ _); try reflexivity.
    destruct (_ >? 0); [|reflexivity].
    destruct (ProcessClientIdentifier _ _ _); try reflexivity.
    destruct (_ >? 0); [|reflexivity].
    rewrite Hnone. reflexivity.
Qed.

Lemma HandleUdpReceive_missing_option_witness :
  HandleUdpReceive 8 nodeEui64 runEnv
    (datagram pre48 kTypeReply 0x123456
       [ (kOptionServerIdentifier, ownDuid 0x00aabbccddeeff00);
         (kOptionClientIdentifier, ownDuid nodeEui64);
         (kOptionIaNa, IaNa_payload 0 0 0 addressA 1800 3600) ])
    runSoliciting
  = Some runSoliciting.
Proof.
  apply (HandleUdpReceive_missing_option 8 nodeEui64 runEnv pre48 kTypeReply 0x123456
           _ runSoliciting kOptionRapidCommit).
  - unfold codesOk; each_element code_in_range.
  - vm_compute. reflexivity.
  - cbn. lia.
  - right. right. left. reflexivity.
  - cbn. intros [H|[H|[H|[]]]]; discriminate H.
Defined.

(** ** Datagrams that find nothing to do *)

Lemma nothing_takes addr (ias : list IdentityAssociation) :
  Forall (fun ia => ~ pending ia) ias -> firstTaker addr ias = None.
Proof.
  intros H. unfold firstTaker. apply list_find_None.
  eapply Forall_impl; [exact H|]. intros ia Hia Ht. apply Hia.
  unfold takes in Ht. apply andb_prop in Ht as [[Hs Hv]%andb_prop _].
  split.
  - intros E. rewrite E in Hs. discriminate Hs.
  - apply Z.eqb_eq. exact Hv.
Qed.

Lemma ProcessIaAddress_nothing_pending m off c :
  Forall (fun ia => ~ pending ia) (mIdentityAssociations c) ->
  snd (ProcessIaAddress m off c) = c.
Proof.
  intros H. unfold ProcessIaAddress. destruct (_ && _); [|reflexivity].
  rewrite ProcessIaAddress_loop_find, nothing_takes by exact H.
  apply with_nothing_new.
Qed.

(** X25: a client that waits for nothing ignores every datagram: when no
    association is pending (valid and without a lifetime) and none is
    current, whatever arrives, a well-formed Reply with the right
    transaction id included, leaves the client exactly as it was.  This
    holds for every datagram whose handling comes to an end (the scan of
    [FindOption] does not end on every input). *)
Theorem HandleUdpReceive_nothing_pending n eui64 env m c c' :
  Forall (fun ia => ~ pending ia) (mIdentityAssociations c) ->
  mIdentityAssociationCurrent c = None ->
  HandleUdpReceive n eui64 env m c = Some c' ->
  c' = c.
Proof.
  intros Hpool Hcur H.
  assert (forall m0 off x, x = c -> snd (ProcessIaAddress m0 off x) = c) as HA
    by (intros m0 off x ->; apply ProcessIaAddress_nothing_pending; exact Hpool).
  assert (forall env0 x, x = c -> snd (HandleTrickleTimer eui64 env0 x) = c) as HT
    by (intros env0 x ->; unfold HandleTrickleTimer; rewrite Hcur; reflexivity).
  exact (HandleUdpReceive_preserves (fun x => x = c) eui64 HA HT n env m c c' H eq_refl).
Qed.

Lemma HandleUdpReceive_nothing_pending_witness :
  HandleUdpReceive 8 nodeEui64 runEnv
    (datagram pre48 kTypeReply 0 (replyOptions addressA 1800 3600)) (Client_init 1 0)
  = Some (Client_init 1 0).
Proof.
  destruct (HandleUdpReceive 8 nodeEui64 runEnv
              (datagram pre48 kTypeReply 0 (replyOptions addressA 1800 3600))
              (Client_init 1 0)) as [c'|] eqn:E; [|vm_compute in E; discriminate E].
  f_equal.
  apply (HandleUdpReceive_nothing_pending 8 nodeEui64 runEnv
           (datagram pre48 kTypeReply 0 (replyOptions addressA 1800 3600))
           (Client_init 1 0) c').
  - repeat constructor. intros [Hs _]. apply Hs. reflexivity.
  - reflexivity.
  - exact E.
Defined.

Lemma ProcessIaAddress_loop_keeps_assigned o (ias : list IdentityAssociation) i ia :
  ias !! i = Some ia -> mValidLifetime ia <> 0 ->
  fst (ProcessIaAddress_loop o ias) !! i = Some ia.
Proof.
  intros Hi Hv. rewrite ProcessIaAddress_loop_find.
  destruct (firstTaker _ ias) as [[idx x]|] eqn:Hf; cbn [fst]; [|exact Hi].
  apply list_find_Some in Hf as (Hx & Ht & _).
  rewrite list_lookup_insert_ne; [exact Hi|].
  intros ->. rewrite Hi in Hx. injection Hx as <-.
  unfold takes in Ht. apply andb_prop in Ht as [[_ Hz]%andb_prop _].
  apply Z.eqb_eq in Hz. contradiction.
Qed.

(** X26: no datagram takes an assigned address away or changes it: in a
    reachable state an association with a non-zero valid lifetime is the
    same after any datagram was handled, whatever the datagram holds (for
    every datagram whose handling comes to an end). *)
Theorem HandleUdpReceive_keeps_assigned eui64 n c fuel env m c' i ia :
  reachable eui64 n c ->
  mIdentityAssociations c !! i = Some ia ->
  mValidLifetime ia <> 0 ->
  HandleUdpReceive fuel eui64 env m c = Some c' ->
  mIdentityAssociations c' !! i = Some ia.
Proof.
  intros Hr Hi Hv H.
  assert (mStatus ia <> kIaStatusSolicit) as Hs.
  { apply reachable_invariant in Hr as [_ Hun]. rewrite Forall_lookup in Hun.
    intros E. apply Hv. apply (Hun i ia Hi). left. exact E. }
  refine (HandleUdpReceive_preserves
            (fun x => mIdentityAssociations x !! i = Some ia) eui64 _ _
            fuel env m c c' H Hi).
  - intros m0 off x Hx. unfold ProcessIaAddress. destruct (_ && _); [|exact Hx].
    pose proof (ProcessIaAddress_loop_keeps_assigned
                  (Message_Read m0 off sizeof_IaAddress) _ i ia Hx Hv) as Hk.
    destruct (ProcessIaAddress_loop _ _). exact Hk.
  - intros env0 x Hx.
    exact (proj1 (HandleTrickleTimer_keeps eui64 env0 x i ia Hx Hs)).
Qed.

Lemma HandleUdpReceive_keeps_assigned_witness :
  exists c',
    HandleUdpReceive 8 nodeEui64 runEnv
      (datagram pre48 kTypeReply 0x123456 (replyOptions (addressA + 1) 60 120))
      runReplied = Some c'
    /\ (mAddress <$> (mNetifAddress <$> mIdentityAssociations c' !! 0%nat))
       = Some addressA.
Proof.
  destruct (HandleUdpReceive 8 nodeEui64 runEnv
              (datagram pre48 kTypeReply 0x123456 (replyOptions (addressA + 1) 60 120))
              runReplied) as [c'|] eqn:E; [|vm_compute in E; discriminate E].
  exists c'. split; [reflexivity|].
  rewrite (HandleUdpReceive_keeps_assigned nodeEui64 1 runReplied 8 runEnv
             (datagram pre48 kTypeReply 0x123456 (replyOptions (addressA + 1) 60 120))
             c' 0%nat
             (assigned addressA 1800 3600
                (setStatus kIaStatusSoliciting
                   (served (NetworkData.mkConfig prefixA true 0x4400) zeroAssociation)))
             runReplied_reachable).
  - reflexivity.
  - vm_compute. reflexivity.
  - vm_compute. discriminate.
  - exact E.
Defined.

(** ** Reads that come back short *)

Lemma Message_Read_short m aOffset size :
  0 <= aOffset -> 0 < size -> GetLength m < aOffset + size ->
  bytesRead (Message_Read m aOffset size) < size.
Proof.
  intros Hoff Hsize Hlen. unfold bytesRead, Message_Read, GetLength in *.
  pose proof (sub_short (mData m) (Z.to_nat aOffset) (Z.to_nat size)) as H.
  lia.
Qed.

(** X27: what each step of the parser does when the message ends before the
    structure it reads: [FindOption] reports that it found nothing,
    [ProcessStatusCode], [ProcessClientIdentifier], [ProcessIaNa] and
    [ProcessIaAddress] return a parse error and leave the client as it is,
    [HandleUdpReceive] drops a datagram shorter than a header, and
    [ProcessServerIdentifier] alone accepts the truncated option. *)
Theorem short_reads n eui64 env m aOffset c :
  0 <= aOffset ->
  (GetLength m < aOffset + sizeof_Option ->
   forall fuel aLength aCode, FindOption (S fuel) m aOffset aLength aCode = Some 0)
  /\ (GetLength m < aOffset + sizeof_StatusCode ->
      ProcessStatusCode m aOffset = OT_ERROR_PARSE)
  /\ (GetLength m < aOffset + sizeof_ServerIdentifier ->
      ProcessServerIdentifier m aOffset = OT_ERROR_NONE)
  /\ (GetLength m < aOffset + sizeof_ClientIdentifier ->
      ProcessClientIdentifier eui64 m aOffset = OT_ERROR_PARSE)
  /\ (GetLength m < aOffset + sizeof_IaNa ->
      ProcessIaNa n m aOffset c = Some (OT_ERROR_PARSE, c))
  /\ (GetLength m < aOffset + sizeof_IaAddress ->
      ProcessIaAddress m aOffset c = (OT_ERROR_PARSE, c))
  /\ (GetOffset m = aOffset -> GetLength m < aOffset + sizeof_Header ->
      HandleUdpReceive n eui64 env m c = Some c).
Proof.
  intros Hoff. repeat split.
  - intros H fuel aLength aCode.
    pose proof (Message_Read_short m aOffset sizeof_Option Hoff eq_refl H) as Hr.
    unfold FindOption. cbn [FindOption_loop].
    destruct (_ <=? _); [|reflexivity].
    destruct (Z.eqb_spec (bytesRead (Message_Read m aOffset sizeof_Option)) sizeof_Option);
      [lia|reflexivity].
  - intros H.
    pose proof (Message_Read_short m aOffset sizeof_StatusCode Hoff eq_refl H) as Hr.
    unfold ProcessStatusCode.
    destruct (Z.geb_spec (bytesRead (Message_Read m aOffset sizeof_StatusCode))
                sizeof_StatusCode); [lia|reflexivity].
  - intros H.
    pose proof (Message_Read_short m aOffset sizeof_ServerIdentifier Hoff eq_refl H) as Hr.
    unfold ProcessServerIdentifier.
    destruct (Z.eqb_spec (bytesRead (Message_Read m aOffset sizeof_ServerIdentifier))
                sizeof_ServerIdentifier); [lia|reflexivity].
  - intros H.
    pose proof (Message_Read_short m aOffset sizeof_ClientIdentifier Hoff eq_refl H) as Hr.
    unfold ProcessClientIdentifier.
    destruct (Z.eqb_spec (bytesRead (Message_Read m aOffset sizeof_ClientIdentifier))
                sizeof_ClientIdentifier); [lia|reflexivity].
  - intros H.
    pose proof (Message_Read_short m aOffset sizeof_IaNa Hoff eq_refl H) as Hr.
    unfold ProcessIaNa.
    destruct (Z.eqb_spec (bytesRead (Message_Read m aOffset sizeof_IaNa)) sizeof_IaNa);
      [lia|reflexivity].
  - intros H.
    pose proof (Message_Read_short m aOffset sizeof_IaAddress Hoff eq_refl H) as Hr.
    unfold ProcessIaAddress.
    destruct (Z.eqb_spec (bytesRead (Message_Read m aOffset sizeof_IaAddress))
                sizeof_IaAddress); [lia|reflexivity].
  - intros Ho H. unfold HandleUdpReceive. rewrite Ho.
    pose proof (Message_Read_short m aOffset sizeof_Header Hoff eq_refl H) as Hr.
    destruct (Z.eqb_spec (bytesRead (Message_Read m aOffset sizeof_Header)) sizeof_Header);
      [lia|reflexivity].
Qed.

Lemma short_reads_witness :
  ProcessServerIdentifier
    (mkMessage (Header_bytes kTypeReply 1 ++ be_enc 2 kOptionServerIdentifier
                ++ be_enc 2 12 ++ [0; 9]) 4) 4
  = OT_ERROR_NONE
  /\ ProcessClientIdentifier nodeEui64
       (mkMessage (Header_bytes kTypeReply 1 ++ be_enc 2 kOptionServerIdentifier
                   ++ be_enc 2 12 ++ [0; 9]) 4) 4
     = OT_ERROR_PARSE.
Proof.
  destruct (short_reads 1 nodeEui64 runEnv
              (mkMessage (Header_bytes kTypeReply 1 ++ be_enc 2 kOptionServerIdentifier
                          ++ be_enc 2 12 ++ [0; 9]) 4) 4 (Client_init 1 0))
    as (_ & _ & Hs & Hc & _).
  - lia.
  - split; [apply Hs|apply Hc]; vm_compute; reflexivity.
Defined.

(** ** One association for each prefix *)

Lemma keyKept_refl a : keyKept a a.
Proof. split; auto. Qed.

Lemma Forall2_keyKept_refl ias : Forall2 keyKept ias ias.
Proof. induction ias; constructor; auto using keyKept_refl. Qed.

Lemma distinct_keyKept ias ias' :
  Forall2 keyKept ias ias' -> distinctAssociations ias -> distinctAssociations ias'.
Proof.
  intros HF HD i j a' b' Hij Ha' Hb' Hsa Hsb.
  destruct (Forall2_lookup_r _ _ _ _ _ HF Ha') as (a & Ha & [Hna Hla]).
  destruct (Forall2_lookup_r _ _ _ _ _ HF Hb') as (b & Hb & [Hnb Hlb]).
  unfold samePrefixOf. rewrite Hna, Hnb.
  apply (HD i j a b Hij Ha Hb); auto.
Qed.

Lemma removeAddresses_keyKept configs ias :
  Forall2 keyKept ias (fst (removeAddresses configs ias)).
Proof.
  rewrite removeAddresses_spec. cbn [fst].
  induction ias as [|ia ias IH]; cbn [map]; constructor; [|exact IH].
  destruct (stale configs ia) eqn:Hst; [|apply keyKept_refl].
  split; [reflexivity|]. intros H. contradiction H. reflexivity.
Qed.

Lemma Match_sym_key a b :
  MatchNetifAddressWithPrefix (mNetifAddress a)
    (mkIp6Prefix (mAddress (mNetifAddress b)) (mPrefixLength (mNetifAddress b)))
  = MatchNetifAddressWithPrefix (mNetifAddress b)
      (mkIp6Prefix (mAddress (mNetifAddress a)) (mPrefixLength (mNetifAddress a))).
Proof.
  unfold MatchNetifAddressWithPrefix. cbn [mLength mPrefix].
  rewrite (Z.eqb_sym (mPrefixLength (mNetifAddress b))), (PrefixMatch_sym (mAddress (mNetifAddress a))).
  destruct (Z.eqb_spec (mPrefixLength (mNetifAddress a)) (mPrefixLength (mNetifAddress b)))
    as [->|]; reflexivity.
Qed.

Lemma addPrefix_distinct config ias :
  distinctAssociations ias -> distinctAssociations (addPrefix ias config).
Proof.
  intros HD.
  destruct (NetworkData.mDhcp config) eqn:Hd;
    [|unfold addPrefix; rewrite Hd; exact HD].
  rewrite addPrefix_cases by assumption.
  destruct (target (NetworkData.mPrefix config) ias) as [t|] eqn:Ht.
  - eapply distinct_keyKept; [|exact HD].
    apply Forall2_alter_r; [apply Forall2_keyKept_refl|].
    intros x y _ _ H. exact H.
  - destruct (freeSlot ias) as [f|] eqn:Hf; [|exact HD].
    apply target_None in Ht. rewrite Forall_lookup in Ht.
    destruct (freeSlot_Some _ _ Hf) as (x & Hx & Hinv).
    assert (forall k b, k <> f -> ias !! k = Some b -> mStatus b <> kIaStatusInvalid ->
              samePrefixOf b (served config x) = false) as Hnew.
    { intros k b Hk Hb Hs. unfold samePrefixOf.
      destruct (MatchNetifAddressWithPrefix (mNetifAddress b)
                  (mkIp6Prefix (mAddress (mNetifAddress (served config x)))
                     (mPrefixLength (mNetifAddress (served config x))))) eqn:Hm;
        [|reflexivity].
      exfalso. apply (Ht k b Hb). split; [exact Hs|exact Hm]. }
    intros i j a b Hij Ha Hb Hsa Hsb.
    destruct (decide (f = i)) as [->|Hfi]; [|destruct (decide (f = j)) as [->|Hfj]].
    + rewrite list_lookup_alter_eq, Hx in Ha. cbn in Ha. injection Ha as <-.
      rewrite list_lookup_alter_ne in Hb by assumption.
      unfold samePrefixOf. rewrite Match_sym_key.
      apply (Hnew j b); [congruence|exact Hb|exact Hsb].
    + rewrite list_lookup_alter_eq, Hx in Hb. cbn in Hb. injection Hb as <-.
      rewrite list_lookup_alter_ne in Ha by assumption.
      apply (Hnew i a); [congruence|exact Ha|exact Hsa].
    + rewrite list_lookup_alter_ne in Ha, Hb by assumption.
      apply (HD i j a b); assumption.
Qed.

Lemma addPrefixes_distinct configs : forall ias,
  distinctAssociations ias -> distinctAssociations (addPrefixes configs ias).
Proof.
  unfold addPrefixes. induction configs as [|config configs IH]; intros ias HD;
    [exact HD|].
  cbn [fold_left]. apply IH, addPrefix_distinct, HD.
Qed.

Lemma applyIaAddress_same_prefix o x b :
  takes (IaAddress_GetAddress o) x = true ->
  samePrefixOf (applyIaAddress o x) b = true -> samePrefixOf x b = true.
Proof.
  unfold takes, samePrefixOf, MatchNetifAddressWithPrefix. cbn.
  intros [_ Ht]%andb_prop [Hl Hm]%andb_prop.
  apply Z.geb_le in Ht, Hm. rewrite Hl. cbn [andb]. apply Z.geb_le.
  apply Z.eqb_eq in Hl.
  apply (PrefixMatch_trans _ _ (IaAddress_GetAddress o)); [lia|].
  rewrite PrefixMatch_sym. exact Hm.
Qed.

Lemma ProcessIaAddress_loop_distinct o ias :
  distinctAssociations ias -> distinctAssociations (fst (ProcessIaAddress_loop o ias)).
Proof.
  intros HD. rewrite ProcessIaAddress_loop_find.
  destruct (firstTaker _ ias) as [[idx x]|] eqn:Hf; cbn [fst]; [|exact HD].
  apply list_find_Some in Hf as (Hx & Ht & _).
  assert (mStatus x <> kIaStatusInvalid) as Hsx.
  { unfold takes in Ht. apply andb_prop in Ht as [[Hs _]%andb_prop _].
    intros E. rewrite E in Hs. discriminate Hs. }
  assert (idx < length ias)%nat as Hlt by (eapply lookup_lt_Some; exact Hx).
  intros i j a b Hij Ha Hb Hsa Hsb.
  destruct (decide (idx = i)) as [->|Hi]; [|destruct (decide (idx = j)) as [->|Hj]].
  - rewrite list_lookup_insert_eq in Ha by assumption. injection Ha as <-.
    rewrite list_lookup_insert_ne in Hb by assumption.
    destruct (samePrefixOf (applyIaAddress o x) b) eqn:E; [|reflexivity].
    apply applyIaAddress_same_prefix in E; [|exact Ht].
    rewrite (HD i j x b Hij Hx Hb Hsx Hsb) in E. discriminate E.
  - rewrite list_lookup_insert_eq in Hb by assumption. injection Hb as <-.
    rewrite list_lookup_insert_ne in Ha by assumption.
    destruct (samePrefixOf a (applyIaAddress o x)) eqn:E; [|reflexivity].
    unfold samePrefixOf in E. rewrite Match_sym_key in E.
    apply applyIaAddress_same_prefix in E; [|exact Ht].
    unfold samePrefixOf in E. rewrite Match_sym_key in E.
    rewrite <- E. apply (HD i j a x); assumption.
  - rewrite list_lookup_insert_ne in Ha, Hb by assumption.
    apply (HD i j a b); assumption.
Qed.

Lemma HandleTrickleTimer_keyKept eui64 env c :
  Forall2 keyKept (mIdentityAssociations c)
    (mIdentityAssociations (snd (HandleTrickleTimer eui64 env c))).
Proof.
  unfold HandleTrickleTimer.
  destruct (mIdentityAssociationCurrent c) as [i|]; [|apply Forall2_keyKept_refl].
  destruct (mIdentityAssociations c !! i) as [current|] eqn:Hi;
    [|apply Forall2_keyKept_refl].
  destruct (mStatus current) eqn:Hs; cbn [snd]; [apply Forall2_keyKept_refl| | |].
  - rewrite (proj1 (Solicit_keeps _ _ _ _)). cbn.
    apply Forall2_alter_r; [apply Forall2_keyKept_refl|].
    intros x y Hx _ [Hn Hl]. split; [exact Hn|]. intros _.
    rewrite Hi in Hx. injection Hx as <-. rewrite Hs. discriminate.
  - rewrite (proj1 (Solicit_keeps _ _ _ _)). apply Forall2_keyKept_refl.
  - pose proof (proj1 (ProcessNextIdentityAssociation_keeps (eRandom env)
                         (withCurrent None c))) as Hp.
    destruct (ProcessNextIdentityAssociation (eRandom env) (withCurrent None c))
      as [next c1]. cbn [snd] in Hp.
    destruct next; cbn [snd]; [rewrite Hp|cbn; rewrite Hp]; apply Forall2_keyKept_refl.
Qed.

(** A match shorter than a prefix length of at most 128 bits means that the
    addresses differ in one of the leading bits the prefix covers; bit 127
    of the 128-bit number is the first bit of the address. *)
Lemma PrefixMatch_differ a b len :
  len <= 128 -> PrefixMatch a b < len ->
  exists k, 0 <= k < len
            /\ Z.testbit (u128 a) (127 - k) <> Z.testbit (u128 b) (127 - k).
Proof.
  intros Hlen Hm. unfold PrefixMatch, bit_length in Hm.
  pose proof (u128_nonneg a) as Ha. pose proof (u128_nonneg b) as Hb.
  set (x := Z.lxor (u128 a) (u128 b)) in *.
  destruct (Z.eqb_spec x 0) as [|Hx]; [lia|].
  assert (0 <= x) as Hx0 by (apply Z.lxor_nonneg; lia).
  assert (x < 2 ^ 128) as Hx128.
  { destruct (Z.eq_dec x 0); [lia|].
    apply Z.log2_lt_pow2; [lia|].
    pose proof (Z.log2_lxor (u128 a) (u128 b) Ha Hb) as Hl. fold x in Hl.
    assert (forall y, 0 <= y < 2 ^ 128 -> Z.log2 y < 128) as Hlog.
    { intros y Hy. destruct (Z.eq_dec y 0) as [->|]; [cbn; lia|].
      apply Z.log2_lt_pow2; lia. }
    assert (u128 a < 2 ^ 128 /\ u128 b < 2 ^ 128) as [Ha' Hb']
      by (unfold u128; split; apply Z.mod_pos_bound; lia).
    pose proof (Hlog (u128 a) ltac:(lia)). pose proof (Hlog (u128 b) ltac:(lia)). lia. }
  assert (Z.log2 x < 128) as Hp by (apply Z.log2_lt_pow2; lia).
  pose proof (Z.log2_nonneg x) as Hp0.
  assert (Z.testbit x (Z.log2 x) = true) as Hbit by (apply Z.bit_log2; lia).
  set (p := Z.log2 x) in *.
  exists (127 - p). split; [lia|].
  replace (127 - (127 - p)) with p by lia.
  unfold x in Hbit. rewrite Z.lxor_spec in Hbit.
  destruct (Z.testbit (u128 a) p), (Z.testbit (u128 b) p);
    cbn in Hbit; congruence.
Qed.

(** X28: in every reachable state no two valid associations of the pool
    stand for the same prefix of at most 128 bits: they differ in their
    prefix length, or their addresses differ in one of the leading bits the
    prefix covers.  No such prefix is solicited or served twice. *)
Theorem associations_have_distinct_prefixes eui64 n c :
  reachable eui64 n c ->
  forall i j a b, i <> j ->
  mIdentityAssociations c !! i = Some a -> mIdentityAssociations c !! j = Some b ->
  mStatus a <> kIaStatusInvalid -> mStatus b <> kIaStatusInvalid ->
  mPrefixLength (mNetifAddress a) <= 128 ->
  mPrefixLength (mNetifAddress a) <> mPrefixLength (mNetifAddress b)
  \/ exists k, 0 <= k < mPrefixLength (mNetifAddress a)
               /\ Z.testbit (u128 (mAddress (mNetifAddress a))) (127 - k)
                  <> Z.testbit (u128 (mAddress (mNetifAddress b))) (127 - k).
Proof.
  intros Hr.
  assert (distinctAssociations (mIdentityAssociations c)) as HD.
  { revert c Hr. apply reachable_preserves.
    - intros txid i j a b _ Ha _ Hsa _. cbn in Ha.
      apply lookup_replicate in Ha as [-> _]. contradiction Hsa. reflexivity.
    - intros configs aRandom c HD.
      rewrite (proj1 (UpdateAddresses_associations configs aRandom c)).
      apply addPrefixes_distinct.
      eapply distinct_keyKept; [apply removeAddresses_keyKept|exact HD].
    - intros env c HD.
      eapply distinct_keyKept; [apply HandleTrickleTimer_keyKept|exact HD].
    - intros m off c HD. unfold ProcessIaAddress. destruct (_ && _); [|exact HD].
      pose proof (ProcessIaAddress_loop_distinct (Message_Read m off sizeof_IaAddress)
                    _ HD) as H.
      destruct (ProcessIaAddress_loop _ _). exact H. }
  intros i j a b Hij Ha Hb Hsa Hsb Hlen.
  pose proof (HD i j a b Hij Ha Hb Hsa Hsb) as H.
  unfold samePrefixOf, MatchNetifAddressWithPrefix in H. cbn [mLength mPrefix] in H.
  destruct (Z.eq_dec (mPrefixLength (mNetifAddress a)) (mPrefixLength (mNetifAddress b)))
    as [E|E]; [right|left; exact E].
  apply andb_false_iff in H as [H|H]; [apply Z.eqb_neq in H; congruence|].
  apply PrefixMatch_differ; [exact Hlen|].
  destruct (Z.geb_spec (PrefixMatch (mAddress (mNetifAddress a))
                          (mAddress (mNetifAddress b)))
              (mPrefixLength (mNetifAddress b))) as [|Hlt]; [discriminate H|lia].
Qed.

Lemma associations_have_distinct_prefixes_witness :
  mPrefixLength (mNetifAddress (served (NetworkData.mkConfig prefixA true 0x4400)
                                  zeroAssociation))
  <> mPrefixLength (mNetifAddress (served (NetworkData.mkConfig prefixB true 0x4400)
                                     zeroAssociation))
  \/ exists k,
       0 <= k < mPrefixLength (mNetifAddress
                                 (served (NetworkData.mkConfig prefixA true 0x4400)
                                    zeroAssociation))
       /\ Z.testbit
            (u128 (mAddress (mNetifAddress
                               (served (NetworkData.mkConfig prefixA true 0x4400)
                                  zeroAssociation)))) (127 - k)
          <> Z.testbit
               (u128 (mAddress (mNetifAddress
                                  (served (NetworkData.mkConfig prefixB true 0x4400)
                                     zeroAssociation)))) (127 - k).
Proof.
  apply (associations_have_distinct_prefixes nodeEui64 2 twoConfigured) with 0%nat 1%nat.
  - apply (reachable_step _ _ (Client_init 2 0));
      [apply reachable_init|apply step_UpdateAddresses].
  - discriminate.
  - vm_compute. reflexivity.
  - vm_compute. reflexivity.
  - discriminate.
  - discriminate.
  - vm_compute. discriminate.
Defined.

(** ** A container with a malformed offer *)

Lemma FindOption_loop_skip code n m (A : list Z) c p B end_ :
  mData m = A ++ Option_bytes c p ++ B ->
  0 <= c < 2 ^ 16 -> c <> code ->
  GetLength m < 2 ^ 16 ->
  Z.of_nat (length A) <= end_ ->
  FindOption_loop (S n) m (Z.of_nat (length A)) end_ code
  = FindOption_loop n m (Z.of_nat (length (A ++ Option_bytes c p))) end_ code.
Proof.
  intros Hm Hc Hne Hlen Hend.
  assert (GetLength m = Z.of_nat (length A) + 4 + Z.of_nat (length p)
                        + Z.of_nat (length B)) as HL.
  { unfold GetLength. rewrite Hm, !length_app, Option_bytes_length. lia. }
  cbn [FindOption_loop].
  destruct (Z.leb_spec (Z.of_nat (length A)) end_); [|lia].
  destruct (option_header_read m A c p B Hm Hc) as (Hr & Hcode & Hl); [lia|].
  rewrite Hr, Hcode, Hl. change (sizeof_Option =? sizeof_Option) with true. cbv iota.
  destruct (Z.eqb_spec c code); [contradiction|].
  rewrite u16_small by (unfold sizeof_Option; lia).
  f_equal. rewrite length_app, Option_bytes_length. unfold sizeof_Option. lia.
Qed.

(** The loop of [ProcessIaNa] over the offers at the start of its window. *)
Lemma ProcessIaNa_loop_through_offers n m : forall offers (A : list Z) fuel len c B,
  mData m = A ++ offers_bytes offers ++ B ->
  GetLength m < 2 ^ 16 ->
  (1 <= n)%nat -> (0 < length A)%nat ->
  28 * Z.of_nat (length offers) < len -> Z.of_nat (length A) + len < 2 ^ 16 ->
  ProcessIaNa_loop n (length offers + fuel) m (Z.of_nat (length A)) len c
  = ProcessIaNa_loop n fuel m (Z.of_nat (length (A ++ offers_bytes offers)))
      (len - 28 * Z.of_nat (length offers)) (grantAll offers c).
Proof.
  induction offers as [|[[a p] v] offers IH]; intros A fuel len c B Hm Hlen Hn HA Hl Hl2.
  - cbn [length Nat.add offers_bytes flat_map grantAll fold_left].
    rewrite app_nil_r. f_equal. lia.
  - cbn [offers_bytes flat_map fst snd] in Hm |- *. fold (offers_bytes offers) in Hm |- *.
    rewrite <- app_assoc in Hm.
    cbn [length] in Hl. rewrite Nat2Z.inj_succ in Hl.
    cbn [length Nat.add ProcessIaNa_loop].
    destruct (Z.gtb_spec len 0); [|lia].
    rewrite (FindOption_at_offer n m A a p v _ _ Hm) by lia.
    cbn [mbind option_bind].
    destruct (Z.eqb_spec (Z.of_nat (length A)) 0); [lia|].
    rewrite (ProcessIaAddress_offer m A a p v _ c Hm).
    unfold sizeof_IaAddress.
    replace (u16 (len - (Z.of_nat (length A) - Z.of_nat (length A) + 28)))
      with (len - 28) by (rewrite u16_small; lia).
    replace (u16 (Z.of_nat (length A) + 28))
      with (Z.of_nat (length (A ++ IaAddress_bytes a p v)))
      by (rewrite length_app, IaAddress_bytes_length, u16_small; lia).
    rewrite (IH (A ++ IaAddress_bytes a p v) fuel (len - 28) _ B);
      [|rewrite <- app_assoc; exact Hm|assumption|assumption|rewrite length_app; lia
       |lia|rewrite length_app, IaAddress_bytes_length; lia].
    rewrite <- app_assoc. cbn [grantAll fold_left fst snd].
    rewrite Nat2Z.inj_succ. f_equal. lia.
Qed.

Lemma ProcessIaAddress_malformed m (A : list Z) bad B c :
  mData m = A ++ Option_bytes kOptionIaAddress bad ++ B ->
  Z.of_nat (length bad) < 2 ^ 16 ->
  length bad <> 24%nat ->
  ProcessIaAddress m (Z.of_nat (length A)) c = (OT_ERROR_PARSE, c).
Proof.
  intros Hm Hl Hbad. unfold ProcessIaAddress.
  rewrite (Message_Read_at m A _ _ Hm).
  assert (Option_GetLength
            (firstn (Z.to_nat sizeof_IaAddress) (Option_bytes kOptionIaAddress bad ++ B))
          = Z.of_nat (length bad)) as ->.
  { change (Z.to_nat sizeof_IaAddress) with 28%nat.
    unfold Option_GetLength. rewrite sub_firstn by lia.
    unfold Option_bytes. rewrite <- !app_assoc.
    destruct (Option_header_fields kOptionIaAddress (Z.of_nat (length bad)) (bad ++ B))
      as [_ H]. unfold Option_GetLength in H. rewrite H. apply Z.mod_small. lia. }
  destruct (Z.eqb_spec (Z.of_nat (length bad)) (sizeof_IaAddress - sizeof_Option))
    as [E|_]; [unfold sizeof_IaAddress, sizeof_Option in E; lia|].
  rewrite andb_false_r. reflexivity.
Qed.

Lemma ProcessIaNa_malformed_offer n m (A : list Z) iaid t1 t2 offers bad l2 c :
  mData m = A ++ Option_bytes kOptionIaNa
                   (be_enc 4 iaid ++ be_enc 4 t1 ++ be_enc 4 t2
                    ++ offers_bytes offers ++ Option_bytes kOptionIaAddress bad)
              ++ options_bytes l2 ->
  length bad <> 24%nat ->
  codesOk l2 ->
  Forall (fun o => fst o = kOptionStatusCode -> successStatus (snd o)) l2 ->
  GetLength m < 2 ^ 16 ->
  (length offers + 3 <= n)%nat ->
  ProcessIaNa n m (Z.of_nat (length A)) c = Some (OT_ERROR_PARSE, grantAll offers c).
Proof.
  intros Hm Hbad Hok Hall Hlen Hn.
  set (k := Z.of_nat (length offers)).
  set (b := Z.of_nat (length bad)).
  assert (0 <= k /\ 0 <= b) as [Hk0 Hb0] by (subst k b; lia).
  assert (Option_bytes kOptionIaNa
            (be_enc 4 iaid ++ be_enc 4 t1 ++ be_enc 4 t2
             ++ offers_bytes offers ++ Option_bytes kOptionIaAddress bad)
          = IaNa_bytes (12 + 28 * k + 4 + b) iaid t1 t2
            ++ offers_bytes offers ++ Option_bytes kOptionIaAddress bad) as Hc.
  { unfold Option_bytes at 1, IaNa_bytes. rewrite <- !app_assoc. do 2 f_equal.
    rewrite !length_app, !be_enc_length, Option_bytes_length. f_equal.
    pose proof (offers_bytes_length offers). subst k b. lia. }
  rewrite Hc, <- !app_assoc in Hm.
  assert (GetLength m = Z.of_nat (length A) + 16 + 28 * k + 4 + b
                        + Z.of_nat (length (options_bytes l2))) as HL.
  { unfold GetLength. rewrite Hm, !length_app, IaNa_bytes_length, Option_bytes_length.
    pose proof (offers_bytes_length offers). subst k b. lia. }
  unfold ProcessIaNa.
  rewrite (Message_Read_at m A _ _ Hm).
  assert (firstn (Z.to_nat sizeof_IaNa)
            (IaNa_bytes (12 + 28 * k + 4 + b) iaid t1 t2 ++ offers_bytes offers
             ++ Option_bytes kOptionIaAddress bad ++ options_bytes l2)
          = IaNa_bytes (12 + 28 * k + 4 + b) iaid t1 t2) as -> by reflexivity.
  change (bytesRead (IaNa_bytes (12 + 28 * k + 4 + b) iaid t1 t2) =? sizeof_IaNa)
    with true.
  cbv iota zeta.
  assert (IaNa_window (IaNa_bytes (12 + 28 * k + 4 + b) iaid t1 t2) = 28 * k + 4 + b)
    as ->.
  { unfold IaNa_window, IaNa_bytes.
    destruct (Option_header_fields kOptionIaNa (12 + 28 * k + 4 + b)
                (be_enc 4 iaid ++ be_enc 4 t1 ++ be_enc 4 t2)) as [_ ->].
    rewrite Z.mod_small by lia. unfold sizeof_IaNa, sizeof_Option.
    rewrite u16_small; lia. }
  replace (u16 (Z.of_nat (length A) + sizeof_IaNa))
    with (Z.of_nat (length (A ++ IaNa_bytes (12 + 28 * k + 4 + b) iaid t1 t2)))
    by (rewrite length_app, IaNa_bytes_length, u16_small; unfold sizeof_IaNa; lia).
  set (A' := A ++ IaNa_bytes (12 + 28 * k + 4 + b) iaid t1 t2).
  assert (Z.of_nat (length A') = Z.of_nat (length A) + 16) as HA'
    by (subst A'; rewrite length_app, IaNa_bytes_length; lia).
  assert (mData m = A' ++ offers_bytes offers
                    ++ Option_bytes kOptionIaAddress bad ++ options_bytes l2) as Hm'
    by (subst A'; rewrite <- app_assoc; exact Hm).
  set (A'' := A' ++ offers_bytes offers).
  assert (Z.of_nat (length A'') = Z.of_nat (length A') + 28 * k) as HA''
    by (subst A''; rewrite length_app; pose proof (offers_bytes_length offers);
        subst k; lia).
  assert (mData m = A'' ++ Option_bytes kOptionIaAddress bad ++ options_bytes l2) as Hm''
    by (subst A''; rewrite <- app_assoc; exact Hm').
  destruct (Z.leb_spec (28 * k + 4 + b) (GetLength m - Z.of_nat (length A'))); [|lia].
  unfold ProcessIaNa_options.
  assert (FindOption n m (Z.of_nat (length A')) (28 * k + 4 + b) kOptionStatusCode
          = Some (match l2 with
                  | o :: _ => if fst o =? kOptionStatusCode
                              then Z.of_nat (length A') + (28 * k + 4 + b) else 0
                  | [] => 0
                  end)) as ->.
  { unfold FindOption. rewrite u16_small by lia.
    replace n with (length offers + S (n - length offers - 1))%nat by lia.
    rewrite (FindOption_loop_over_offers kOptionStatusCode offers A' _ m _ _ Hm')
      by (discriminate || (fold k; lia)).
    fold k. rewrite <- HA''.
    rewrite (FindOption_loop_skip kOptionStatusCode _ m A'' kOptionIaAddress bad _ _ Hm'')
      by (discriminate || (unfold kOptionIaAddress; lia) || lia).
    replace (Z.of_nat (length A') + (28 * k + 4 + b))
      with (Z.of_nat (length (A'' ++ Option_bytes kOptionIaAddress bad)))
      by (rewrite length_app, Option_bytes_length; subst b; lia).
    apply FindOption_loop_at_end; [rewrite <- app_assoc; exact Hm''|assumption..|lia]. }
  cbn [mbind option_bind].
  assert ((if (match l2 with
               | [] => 0
               | o :: _ => if fst o =? kOptionStatusCode
                           then Z.of_nat (length A') + (28 * k + 4 + b) else 0
               end) >? 0
           then ProcessStatusCode m
                  (match l2 with
                   | [] => 0
                   | o :: _ => if fst o =? kOptionStatusCode
                               then Z.of_nat (length A') + (28 * k + 4 + b) else 0
                   end)
           else OT_ERROR_NONE) = OT_ERROR_NONE) as ->.
  { destruct l2 as [|[c2 p2] l2]; [reflexivity|]. cbn [fst].
    destruct (Z.eqb_spec c2 kOptionStatusCode) as [->|]; [|reflexivity].
    destruct (_ >? 0); [|reflexivity].
    replace (Z.of_nat (length A') + (28 * k + 4 + b))
      with (Z.of_nat (length (A'' ++ Option_bytes kOptionIaAddress bad)))
      by (rewrite length_app, Option_bytes_length; subst b; lia).
    inversion Hall as [|? ? Hs _]; subst.
    apply (ProcessStatusCode_success m _ p2 (options_bytes l2)).
    - rewrite <- app_assoc. exact Hm''.
    - rewrite options_bytes_cons, length_app, Option_bytes_length in HL.
      cbn [fst snd] in HL. lia.
    - apply Hs. reflexivity. }
  replace n with (length offers + S (n - length offers - 1))%nat at 2 by lia.
  rewrite (ProcessIaNa_loop_through_offers n m offers A' _ _ c _ Hm' Hlen)
    by (lia || (fold k; lia)).
  fold A'' k. cbn [ProcessIaNa_loop].
  destruct (Z.gtb_spec (28 * k + 4 + b - 28 * k) 0); [|lia].
  assert (FindOption n m (Z.of_nat (length A'')) (28 * k + 4 + b - 28 * k)
            kOptionIaAddress = Some (Z.of_nat (length A''))) as ->.
  { destruct n as [|n']; [lia|]. unfold FindOption. rewrite u16_small by lia.
    cbn [FindOption_loop].
    destruct (Z.leb_spec (Z.of_nat (length A''))
                (Z.of_nat (length A'') + (28 * k + 4 + b - 28 * k))); [|lia].
    destruct (option_header_read m A'' kOptionIaAddress bad _ Hm'') as (Hr & Hcode & _);
      [unfold kOptionIaAddress; lia|lia|].
    rewrite Hr, Hcode. reflexivity. }
  cbn [mbind option_bind].
  destruct (Z.eqb_spec (Z.of_nat (length A'')) 0); [lia|].
  rewrite (ProcessIaAddress_malformed m A'' bad _ _ Hm'') by (assumption || lia).
  reflexivity.
Qed.

(** X29: when an IaAddress option of the container does not have the
    length of an IaAddress, the Reply is given up with a parse error at that
    option: the offers before it have been granted and stay granted, and the
    timer handler is not run. *)
Theorem HandleUdpReceive_stops_at_malformed_offer
    n eui64 env pre txid opts ki iaid t1 t2 offers bad c :
  passesChecks eui64 n pre txid opts ki
    (be_enc 4 iaid ++ be_enc 4 t1 ++ be_enc 4 t2
     ++ offers_bytes offers ++ Option_bytes kOptionIaAddress bad) ->
  length bad <> 24%nat ->
  (length offers + 3 <= n)%nat ->
  mTransactionId c = txid ->
  HandleUdpReceive n eui64 env (datagram pre kTypeReply txid opts) c
  = Some (grantAll offers c).
Proof.
  intros Hchecks Hbad Hn Htxid.
  rewrite (HandleUdpReceive_reaches_IaNa n eui64 env pre txid opts ki _ c Hchecks Htxid).
  destruct Hchecks as (Hok & Hlen & _ & _ & Hstat & _ & _ & _ & _ & Hfi).
  destruct (datagram_split pre kTypeReply txid opts _ ki _ Hfi)
    as (Ai & Bi & Hmi & <- & l2 & -> & Hl2).
  rewrite (ProcessIaNa_malformed_offer n _ Ai iaid t1 t2 offers bad l2 c Hmi Hbad);
    [reflexivity| | |exact Hlen|exact Hn].
  - eapply Forall_In_sub; [exact Hok|exact Hl2].
  - eapply Forall_In_sub; [exact Hstat|exact Hl2].
Qed.

Lemma HandleUdpReceive_stops_at_malformed_offer_witness :
  HandleUdpReceive 8 nodeEui64 runEnv
    (datagram pre48 kTypeReply 0x123456
       [ (kOptionServerIdentifier, ownDuid 0x00aabbccddeeff00);
         (kOptionClientIdentifier, ownDuid nodeEui64);
         (kOptionRapidCommit, []);
         (kOptionIaNa, be_enc 4 0 ++ be_enc 4 0 ++ be_enc 4 0
                       ++ offers_bytes [(addressA, 1800, 3600)]
                       ++ Option_bytes kOptionIaAddress [1; 2; 3]) ])
    runSoliciting
  = Some (grantAll [(addressA, 1800, 3600)] runSoliciting).
Proof.
  apply (HandleUdpReceive_stops_at_malformed_offer 8 nodeEui64 runEnv pre48 0x123456
           _ 36 0 0 0 [(addressA, 1800, 3600)] [1; 2; 3] runSoliciting).
  - checks_pass.
  - cbn. lia.
  - cbn. lia.
  - reflexivity.
Defined.

(** ** The lifetime of an invalid slot *)

Lemma freshOrWithdrawn_more calls more ia :
  freshOrWithdrawn calls ia -> freshOrWithdrawn (calls ++ more) ia.
Proof.
  intros H Hs. destruct (H Hs) as [H0|Hin]; [left; exact H0|right].
  apply in_or_app. left. exact Hin.
Qed.

Lemma UpdateAddresses_freshOrWithdrawn configs aRandom c :
  Forall (freshOrWithdrawn (netifCalls c)) (mIdentityAssociations c) ->
  Forall (freshOrWithdrawn (netifCalls (UpdateAddresses configs aRandom c)))
    (mIdentityAssociations (UpdateAddresses configs aRandom c)).
Proof.
  intros H. destruct (UpdateAddresses_associations configs aRandom c) as [-> ->].
  rewrite removeAddresses_spec. cbn [fst snd].
  apply addPrefixes_Forall.
  - intros p ia _ Hs. discriminate Hs.
  - intros r ia Hia. exact Hia.
  - apply Forall_fmap. apply Forall_forall. intros ia Hin.
    rewrite Forall_forall in H. specialize (H ia Hin). cbn [compose].
    destruct (stale configs ia) eqn:Hst.
    + intros _. right. apply in_or_app. right.
      apply in_map_iff. exists ia. split; [reflexivity|].
      apply filter_In. split; [apply list_elem_of_In; exact Hin|exact Hst].
    + apply freshOrWithdrawn_more. exact H.
Qed.

Lemma HandleTrickleTimer_freshOrWithdrawn eui64 env c :
  Forall (freshOrWithdrawn (netifCalls c)) (mIdentityAssociations c) ->
  Forall (freshOrWithdrawn (netifCalls (snd (HandleTrickleTimer eui64 env c))))
    (mIdentityAssociations (snd (HandleTrickleTimer eui64 env c))).
Proof.
  intros H. rewrite HandleTrickleTimer_netifCalls.
  apply HandleTrickleTimer_Forall; [|exact H].
  intros ia _ _ Hs. discriminate Hs.
Qed.

Lemma ProcessIaAddress_freshOrWithdrawn m off c :
  Forall (freshOrWithdrawn (netifCalls c)) (mIdentityAssociations c) ->
  Forall (freshOrWithdrawn (netifCalls (snd (ProcessIaAddress m off c))))
    (mIdentityAssociations (snd (ProcessIaAddress m off c))).
Proof.
  intros H.
  assert (exists more, netifCalls (snd (ProcessIaAddress m off c)) = netifCalls c ++ more)
    as [more ->].
  { unfold ProcessIaAddress.
    destruct (_ && _); [|exists []; cbn; rewrite app_nil_r; reflexivity].
    destruct (ProcessIaAddress_loop _ _) as [ias calls]. exists calls. reflexivity. }
  eapply Forall_impl; [|intros ia; apply freshOrWithdrawn_more].
  apply ProcessIaAddress_Forall; [|exact H].
  intros o ia _ Hs. discriminate Hs.
Qed.

Lemma reachable_freshOrWithdrawn eui64 n c :
  reachable eui64 n c ->
  Forall (freshOrWithdrawn (netifCalls c)) (mIdentityAssociations c).
Proof.
  apply (reachable_preserves
           (fun c => Forall (freshOrWithdrawn (netifCalls c)) (mIdentityAssociations c))).
  - intros txid. cbn. apply Forall_replicate. intros _. left. reflexivity.
  - intros configs aRandom c0. apply UpdateAddresses_freshOrWithdrawn.
  - intros env c0. apply HandleTrickleTimer_freshOrWithdrawn.
  - intros m off c0. apply ProcessIaAddress_freshOrWithdrawn.
Qed.

Lemma addPrefix_invalidatedOrClaimed config ia (ias : list IdentityAssociation) i x :
  ias !! i = Some x -> invalidatedOrClaimed ia x ->
  exists x', addPrefix ias config !! i = Some x' /\ invalidatedOrClaimed ia x'.
Proof.
  intros Hi Hx. destruct (NetworkData.mDhcp config) eqn:Hd;
    [|unfold addPrefix; rewrite Hd; exists x; split; assumption].
  rewrite (addPrefix_cases _ _ Hd).
  destruct (target (NetworkData.mPrefix config) ias) as [t|] eqn:Ht.
  - destruct (decide (t = i)) as [->|Hne].
    + rewrite list_lookup_alter_eq, Hi. eexists. split; [reflexivity|].
      apply target_Some in Ht as [(a & Ha & Hmatch & _) _].
      rewrite Hi in Ha. injection Ha as <-.
      destruct Hx as [->|Hx]; [contradiction Hmatch; reflexivity|right; exact Hx].
    + rewrite list_lookup_alter_ne by exact Hne. exists x. split; assumption.
  - destruct (freeSlot ias) as [f|] eqn:Hf; [|exists x; split; assumption].
    destruct (decide (f = i)) as [->|Hne].
    + rewrite list_lookup_alter_eq, Hi. eexists. split; [reflexivity|].
      right. split; reflexivity.
    + rewrite list_lookup_alter_ne by exact Hne. exists x. split; assumption.
Qed.

Lemma addPrefixes_invalidatedOrClaimed configs ia i :
  forall (ias : list IdentityAssociation) x,
  ias !! i = Some x -> invalidatedOrClaimed ia x ->
  exists x', addPrefixes configs ias !! i = Some x' /\ invalidatedOrClaimed ia x'.
Proof.
  unfold addPrefixes. induction configs as [|config configs IH]; intros ias x Hi Hx.
  - exists x. split; assumption.
  - cbn [fold_left].
    destruct (addPrefix_invalidatedOrClaimed config ia ias i x Hi Hx) as (x1 & Hi1 & Hx1).
    exact (IH _ x1 Hi1 Hx1).
Qed.

(** C4, amended: in every reachable state an invalid association has
    [mValidLifetime = 0], or [RemoveUnicastAddress] has been called for its
    address.  The invalidation does not keep the predicate: when
    [UpdateAddresses] gives up a valid association with a lifetime that
    matches no DHCP prefix of the network data, it removes the address from
    the interface and leaves the slot invalid with every other field, the
    lifetime included, as it was, or claimed for a prefix in the same run
    (waiting to solicit, lifetime 0). *)
Theorem invalid_association_lifetime eui64 n c :
  reachable eui64 n c ->
  (forall i ia, mIdentityAssociations c !! i = Some ia ->
     mStatus ia = kIaStatusInvalid ->
     mValidLifetime ia = 0
     \/ In (RemoveUnicastAddress (mNetifAddress ia)) (netifCalls c))
  /\ (forall configs aRandom i ia,
        mIdentityAssociations c !! i = Some ia ->
        mStatus ia <> kIaStatusInvalid ->
        mValidLifetime ia <> 0 ->
        prefixInNetworkData ia configs = false ->
        In (RemoveUnicastAddress (mNetifAddress ia))
          (netifCalls (UpdateAddresses configs aRandom c))
        /\ exists ia',
             mIdentityAssociations (UpdateAddresses configs aRandom c) !! i = Some ia'
             /\ (ia' = setStatus kIaStatusInvalid ia
                 \/ (mStatus ia' = kIaStatusSolicit /\ mValidLifetime ia' = 0))).
Proof.
  intros Hr. split.
  - intros i ia Hi Hs. apply reachable_freshOrWithdrawn in Hr.
    rewrite Forall_lookup in Hr. exact (Hr i ia Hi Hs).
  - intros configs aRandom i ia Hi Hs Hv Hp.
    assert (stale configs ia = true) as Hst.
    { unfold stale. rewrite Hp.
      destruct (Z.eqb_spec (mValidLifetime ia) 0); [contradiction|].
      destruct (mStatus ia); [contradiction| | |]; reflexivity. }
    destruct (UpdateAddresses_associations configs aRandom c) as [-> ->].
    rewrite removeAddresses_spec. cbn [fst snd]. split.
    + apply in_or_app. right. apply in_map_iff. exists ia. split; [reflexivity|].
      apply filter_In. split; [|exact Hst].
      apply list_elem_of_In, list_elem_of_lookup. exists i. exact Hi.
    + apply (addPrefixes_invalidatedOrClaimed configs ia i _
               (setStatus kIaStatusInvalid ia)).
      * rewrite list_lookup_fmap, Hi. cbn. rewrite Hst. reflexivity.
      * left. reflexivity.
Qed.

Lemma invalid_association_lifetime_witness :
  (exists ia, mIdentityAssociations twoWithdrawn !! 0%nat = Some ia
              /\ mStatus ia = kIaStatusInvalid
              /\ mValidLifetime ia = 3600
              /\ In (RemoveUnicastAddress (mNetifAddress ia)) (netifCalls twoWithdrawn))
  /\ (exists ia ia',
        mIdentityAssociations twoSecondSoliciting !! 0%nat = Some ia
        /\ mValidLifetime ia = 3600
        /\ In (RemoveUnicastAddress (mNetifAddress ia)) (netifCalls twoReconfigured)
        /\ mIdentityAssociations twoReconfigured !! 0%nat = Some ia'
        /\ (ia' = setStatus kIaStatusInvalid ia
            \/ (mStatus ia' = kIaStatusSolicit /\ mValidLifetime ia' = 0))).
Proof.
  split.
  - destruct (mIdentityAssociations twoWithdrawn !! 0%nat) as [ia|] eqn:Hia;
      [|vm_compute in Hia; discriminate Hia].
    assert (mStatus ia = kIaStatusInvalid /\ mValidLifetime ia = 3600) as [Hs Hv]
      by (vm_compute in Hia; injection Hia as <-; split; reflexivity).
    exists ia. split; [reflexivity|]. split; [exact Hs|]. split; [exact Hv|].
    assert (reachable nodeEui64 2 twoWithdrawn) as Hr
      by (apply (reachable_step _ _ twoSecondSoliciting);
          [apply twoSecondSoliciting_reachable|apply step_UpdateAddresses]).
    destruct (proj1 (invalid_association_lifetime nodeEui64 2 twoWithdrawn Hr)
                0%nat ia Hia Hs) as [H0|Hin]; [lia|exact Hin].
  - destruct (mIdentityAssociations twoSecondSoliciting !! 0%nat) as [ia|] eqn:Hia;
      [|vm_compute in Hia; discriminate Hia].
    assert (mStatus ia = kIaStatusSolicitReplied /\ mValidLifetime ia = 3600
            /\ prefixInNetworkData ia [NetworkData.mkConfig prefixQ true 0x4400;
                                       NetworkData.mkConfig prefixB true 0x4400] = false)
      as (Hs & Hv & Hp)
      by (vm_compute in Hia; injection Hia as <-; repeat split; reflexivity).
    destruct (proj2 (invalid_association_lifetime nodeEui64 2 twoSecondSoliciting
                       twoSecondSoliciting_reachable)
                [NetworkData.mkConfig prefixQ true 0x4400;
                 NetworkData.mkConfig prefixB true 0x4400] 0 0%nat ia Hia)
      as (Hin & ia' & Hia' & Hcase).
    + rewrite Hs. discriminate.
    + lia.
    + exact Hp.
    + exists ia, ia'. split; [reflexivity|]. split; [exact Hv|].
      split; [exact Hin|]. split; [exact Hia'|exact Hcase].
Defined.
